(** * Batched hypothesis buffers of [nemo/collections/asr/parts/utils/rnnt_utils.py]

    A shallow embedding of [BatchedHyps], [BatchedAlignments],
    [BeamBatchedHyps] and [batched_hyps_to_hypotheses].

    Conventions of the embedding:
    - a [torch.long] tensor is a (nested) list of [Z]; the 64-bit wrap-around
      is never reached by the counters below and is not modelled;
    - a floating-point tensor is a (nested) list of exact rationals [Qc];
      rounding, infinities and NaN are outside the model;
    - a Python exception is the [Err] case of [result]; the object that was
      being mutated is lost with it;
    - indexing follows Python: a negative index counts from the end, an index
      outside [-len, len) raises [IndexError];
    - operands of an elementwise operation must have the same shape
      (broadcasting of size-1 operands is not modelled and is an [Err]);
      the one exception is the last axis of the logits and confidences
      that [BatchedAlignments] stores, see [broadcast_entry]. *)

From Stdlib Require Import ZArith QArith Qcanon Lia.
From stdpp Require Import base tactics numbers option list sorting.

Local Open Scope Z_scope.

(** ** Exceptions and the error monad *)

Inductive exn : Set :=
  | IndexError
  | ValueError
  | AssertionError
  | RuntimeError
  | KeyError.

Inductive result (A : Type) : Type :=
  | Ok (a : A)
  | Err (e : exn).
Arguments Ok {A} a.
Arguments Err {A} e.

#[global] Instance result_ret : MRet result := fun A a => Ok a.
#[global] Instance result_bind : MBind result := fun A B f m =>
  match m with
  | Ok a => f a
  | Err e => Err e
  end.

Definition is_Ok {A} (r : result A) : Prop :=
  match r with Ok _ => True | Err _ => False end.

(** ** Tensors as lists *)

(** Python index normalisation for a dimension of size [n]. *)
Definition norm_index (n : nat) (i : Z) : result nat :=
  if decide (0 <= i < Z.of_nat n) then Ok (Z.to_nat i)
  else if decide (- Z.of_nat n <= i < 0) then Ok (Z.to_nat (Z.of_nat n + i))
  else Err IndexError.

Section tensor.
Context {A : Type}.

(** [t[i]] *)
Definition tget (t : list A) (i : Z) : result A :=
  j ← norm_index (length t) i;
  match t !! j with
  | Some x => Ok x
  | None => Err IndexError
  end.

(** [t[i] = x] *)
Definition tset (t : list A) (i : Z) (x : A) : result (list A) :=
  j ← norm_index (length t) i;
  Ok (<[j := x]> t).

(** [t[idx]] for an index tensor [idx]: a gather along dimension 0. *)
Fixpoint index_get (t : list A) (idx : list Z) : result (list A) :=
  match idx with
  | [] => Ok []
  | i :: idx' =>
      x ← tget t i;
      xs ← index_get t idx';
      Ok (x :: xs)
  end.

(** [t[idx] = vals]: a scatter along dimension 0, in index order. *)
Fixpoint index_put (t : list A) (idx : list Z) (vals : list A)
  : result (list A) :=
  match idx, vals with
  | [], [] => Ok t
  | i :: idx', v :: vals' =>
      t' ← tset t i v;
      index_put t' idx' vals'
  | _, _ => Err RuntimeError
  end.

(** [t[:n]] on the last axis, with Python's clipping and negative bound. *)
Definition slice_to (n : Z) (t : list A) : list A :=
  if decide (0 <= n) then take (Z.to_nat n) t
  else take (length t - Z.to_nat (- n)) t.
End tensor.

(** [t[rows, cols] = vals] for a two-dimensional [t]. *)
Fixpoint index_put2 {A} (t : list (list A)) (rows cols : list Z) (vals : list A)
  : result (list (list A)) :=
  match rows, cols, vals with
  | [], [], [] => Ok t
  | r :: rows', c :: cols', v :: vals' =>
      row ← tget t r;
      row' ← tset row c v;
      t' ← tset t r row';
      index_put2 t' rows' cols' vals'
  | _, _, _ => Err RuntimeError
  end.

(** Elementwise binary operation on tensors of one shape. *)
Definition zip_same {A B C} (f : A -> B -> C) (a : list A) (b : list B)
  : result (list C) :=
  if decide (length a = length b) then Ok (zip_with f a b)
  else Err RuntimeError.

(** [torch.where(cond, a, b)] on tensors of one shape. *)
Definition where_ {A} (cond : list bool) (a b : list A) : result (list A) :=
  ab ← zip_same pair a b;
  zip_same (fun (c : bool) (p : A * A) => if c then p.1 else p.2) cond ab.

(** [t.max()]: an empty tensor has no maximum. *)
Definition tensor_max (t : list Z) : result Z :=
  match t with
  | [] => Err RuntimeError
  | x :: t' => Ok (foldr Z.max x t')
  end.

(** [t.fill_(v)] on one- and two-dimensional tensors. *)
Definition fill_ {A} (v : A) (t : list A) : list A := (fun _ => v) <$> t.
Definition fill2_ {A} (v : A) (t : list (list A)) : list (list A) :=
  fill_ v <$> t.

(** [torch.arange(n)] *)
Definition arange (n : nat) : list Z := seqZ 0 (Z.of_nat n).

Definition bool_to_Z (b : bool) : Z := if b then 1 else 0.

(** A loop that collects one result per element and stops at the first
    exception. *)
Fixpoint mapM_result {A B} (f : A -> result B) (l : list A)
  : result (list B) :=
  match l with
  | [] => Ok []
  | x :: l' => y ← f x; ys ← mapM_result f l'; Ok (y :: ys)
  end.

(** ** [BatchedHyps]: the greedy buffer *)

Module BatchedHyps.

Record t : Type := mk {
  _max_length : Z;
  current_lengths : list Z;
  transcript : list (list Z);
  timesteps : list (list Z);
  scores : list Qc;
  last_timestep : list Z;
  last_timestep_lasts : list Z;
  _batch_indices : list Z;
  _ones_batch : list Z;
  batch_size : Z
}.

(** [__init__(batch_size, init_length)] *)
Definition init (batch_size init_length : Z) : result t :=
  if decide (init_length <= 0) then Err ValueError
  else if decide (batch_size <= 0) then Err ValueError
  else
    let B := Z.to_nat batch_size in
    let L := Z.to_nat init_length in
    Ok {| _max_length := init_length;
          current_lengths := replicate B 0;
          transcript := replicate B (replicate L 0);
          timesteps := replicate B (replicate L 0);
          scores := replicate B 0%Qc;
          last_timestep := replicate B (-1);
          last_timestep_lasts := replicate B 0;
          _batch_indices := arange B;
          _ones_batch := replicate B 1;
          batch_size := batch_size |}.

Definition clear_ (s : t) : t :=
  {| _max_length := _max_length s;
     current_lengths := fill_ 0 (current_lengths s);
     transcript := fill2_ 0 (transcript s);
     timesteps := fill2_ 0 (timesteps s);
     scores := fill_ 0%Qc (scores s);
     last_timestep := fill_ (-1) (last_timestep s);
     last_timestep_lasts := fill_ 0 (last_timestep_lasts s);
     _batch_indices := _batch_indices s;
     _ones_batch := _ones_batch s;
     batch_size := batch_size s |}.

(** [torch.cat((x, torch.zeros_like(x)), dim=-1)] on every row. *)
Definition double_rows (x : list (list Z)) : list (list Z) :=
  (fun row => row ++ fill_ 0 row) <$> x.

Definition _allocate_more (s : t) : t :=
  {| _max_length := _max_length s * 2;
     current_lengths := current_lengths s;
     transcript := double_rows (transcript s);
     timesteps := double_rows (timesteps s);
     scores := scores s;
     last_timestep := last_timestep s;
     last_timestep_lasts := last_timestep_lasts s;
     _batch_indices := _batch_indices s;
     _ones_batch := _ones_batch s;
     batch_size := batch_size s |}.

Definition add_results_no_checks_ (s : t)
    (active_indices labels time_indices : list Z) (scores_ : list Qc)
  : result t :=
  (* self.scores[active_indices] += scores *)
  old_scores ← index_get (scores s) active_indices;
  new_scores ← zip_same Qcplus old_scores scores_;
  scores' ← index_put (scores s) active_indices new_scores;
  (* store transcript and timesteps *)
  active_lengths ← index_get (current_lengths s) active_indices;
  transcript' ← index_put2 (transcript s) active_indices active_lengths labels;
  timesteps' ← index_put2 (timesteps s) active_indices active_lengths time_indices;
  (* last observed timestep and its number of observations *)
  last ← index_get (last_timestep s) active_indices;
  lasts ← index_get (last_timestep_lasts s) active_indices;
  same ← zip_same (fun a b => bool_decide (a = b)) last time_indices;
  new_lasts ← where_ same ((fun x => x + 1) <$> lasts) (fill_ 1 lasts);
  last_timestep_lasts' ← index_put (last_timestep_lasts s) active_indices new_lasts;
  last_timestep' ← index_put (last_timestep s) active_indices time_indices;
  (* self.current_lengths[active_indices] += 1 *)
  lens ← index_get (current_lengths s) active_indices;
  current_lengths' ← index_put (current_lengths s) active_indices
                       ((fun x => x + 1) <$> lens);
  Ok {| _max_length := _max_length s;
        current_lengths := current_lengths';
        transcript := transcript';
        timesteps := timesteps';
        scores := scores';
        last_timestep := last_timestep';
        last_timestep_lasts := last_timestep_lasts';
        _batch_indices := _batch_indices s;
        _ones_batch := _ones_batch s;
        batch_size := batch_size s |}.

Definition add_results_ (s : t)
    (active_indices labels time_indices : list Z) (scores_ : list Qc)
  : result t :=
  if decide (length active_indices = 0%nat) then Ok s
  else
    m ← tensor_max (current_lengths s);
    let s := if decide (m >= _max_length s) then _allocate_more s else s in
    add_results_no_checks_ s active_indices labels time_indices scores_.

Definition add_results_masked_no_checks_ (s : t)
    (active_mask : list bool) (labels time_indices : list Z)
    (scores_ : list Qc) : result t :=
  (* torch.where(active_mask, self.scores + scores, self.scores) *)
  sum ← zip_same Qcplus (scores s) scores_;
  scores' ← where_ active_mask sum (scores s);
  (* written for every item of the batch, active or not *)
  transcript' ← index_put2 (transcript s) (_batch_indices s)
                  (current_lengths s) labels;
  timesteps' ← index_put2 (timesteps s) (_batch_indices s)
                 (current_lengths s) time_indices;
  (* if last_timestep == time_indices, increase; else set to 1 *)
  same ← zip_same (fun a b => bool_decide (a = b)) (last_timestep s) time_indices;
  c1 ← zip_same andb active_mask same;
  lasts1 ← where_ c1 ((fun x => x + 1) <$> last_timestep_lasts s)
             (last_timestep_lasts s);
  c2 ← zip_same andb active_mask (negb <$> same);
  lasts2 ← where_ c2 (_ones_batch s) lasts1;
  last_timestep' ← where_ active_mask time_indices (last_timestep s);
  (* self.current_lengths += active_mask *)
  current_lengths' ← zip_same (fun l (m : bool) => l + bool_to_Z m)
                       (current_lengths s) active_mask;
  Ok {| _max_length := _max_length s;
        current_lengths := current_lengths';
        transcript := transcript';
        timesteps := timesteps';
        scores := scores';
        last_timestep := last_timestep';
        last_timestep_lasts := lasts2;
        _batch_indices := _batch_indices s;
        _ones_batch := _ones_batch s;
        batch_size := batch_size s |}.

Definition add_results_masked_ (s : t)
    (active_mask : list bool) (labels time_indices : list Z)
    (scores_ : list Qc) : result t :=
  prospective ← zip_same (fun l (m : bool) => l + bool_to_Z m)
                  (current_lengths s) active_mask;
  m ← tensor_max prospective;
  let s := if decide (m >= _max_length s) then _allocate_more s else s in
  add_results_masked_no_checks_ s active_mask labels time_indices scores_.

End BatchedHyps.

(** ** [Hypothesis]

    Named [Hypothesis_] here, [Hypothesis] being a reserved word.  The record
    has the fields the buffers fill in ([length] is [length_]).  The
    remaining fields of the dataclass ([text], [dec_out], [dec_state], [token_confidence], [word_confidence],
    [y], [lm_state], [lm_scores], [ngram_lm_state], [tokens], [last_token])
    keep their default [None] in every constructor call of this file. *)

Record Hypothesis_ : Type := mkHypothesis {
  score : Qc;
  y_sequence : list Z;
  label_score : option Qc;
  blank_score : option Qc;
  token_scores : option (list Qc);
  timestep : list Z;
  alignments : option (list (list (list Qc * Z)));
  frame_confidence : option (list (list (list Qc)));
  length_ : Z
}.

(** The constructor call [Hypothesis(score=.., y_sequence=.., timestep=..,
    alignments=None, dec_state=None)]: every other field takes its default,
    [length] in particular its default [0]. *)
Definition Hypothesis_new (score : Qc) (y_sequence timestep : list Z)
  : Hypothesis_ :=
  {| score := score;
     y_sequence := y_sequence;
     label_score := None;
     blank_score := None;
     token_scores := None;
     timestep := timestep;
     alignments := None;
     frame_confidence := None;
     length_ := 0 |}.

(** ** [BatchedAlignments]

    A logit vector is a [list Qc]; a frame-confidence entry is a [list Qc]
    as well (one number, or two with duration confidence). *)

(** The size of the last axis of a three-dimensional tensor, read at its
    first cell: the tensors of a buffer have at least one row and one
    column. *)
Definition last_dim {A} (t : list (list (list A))) : nat :=
  match t with
  | (c :: _) :: _ => length c
  | _ => 0%nat
  end.

(** The value [v] of an assignment to a cell of [d] entries, as torch
    broadcasts it along the last axis: taken as it is when it has [d]
    entries, repeated when it has one entry, and refused otherwise with the
    shape mismatch [RuntimeError]. *)
Definition broadcast_entry {A} (d : nat) (v : list A) : result (list A) :=
  if decide (length v = d) then Ok v
  else match v with
       | [x] => Ok (replicate d x)
       | _ => Err RuntimeError
       end.

(** [t[rows, cols] = vals] for a three-dimensional [t] and one vector per
    index in [vals]: the shape of the value is checked against the cells
    before anything is written.  Along the first axis the value has one
    vector per index, as everywhere in this embedding: a value of a single
    vector, which torch would repeat for every index, is refused by
    [index_put2]. *)
Definition index_put2_cells {A} (t : list (list (list A)))
    (rows cols : list Z) (vals : list (list A))
  : result (list (list (list A))) :=
  vals' ← mapM_result (broadcast_entry (last_dim t)) vals;
  index_put2 t rows cols vals'.

Module BatchedAlignments.

Record t : Type := mk {
  with_frame_confidence : bool;
  with_duration_confidence : bool;
  with_alignments : bool;
  _max_length : Z;
  timesteps : list (list Z);
  current_lengths : list Z;
  logits : list (list (list Qc));
  labels : list (list Z);
  frame_confidence : list (list (list Qc));
  _batch_indices : list Z
}.

Definition init (batch_size logits_dim init_length : Z)
    (store_alignments store_frame_confidence with_duration_confidence_ : bool)
  : result t :=
  if decide (init_length <= 0) then Err ValueError
  else if decide (batch_size <= 0) then Err ValueError
  (* [logits_dim] is read only for the tensor of the logits *)
  else if store_alignments && bool_decide (logits_dim < 0)
  then Err RuntimeError
  else
    let B := Z.to_nat batch_size in
    let L := Z.to_nat init_length in
    let D := Z.to_nat logits_dim in
    Ok {| with_frame_confidence := store_frame_confidence;
          with_duration_confidence := with_duration_confidence_;
          with_alignments := store_alignments;
          _max_length := init_length;
          timesteps := replicate B (replicate L 0);
          current_lengths := replicate B 0;
          logits :=
            if store_alignments
            then replicate B (replicate L (replicate D 0%Qc)) else [];
          labels :=
            if store_alignments then replicate B (replicate L 0) else [];
          frame_confidence :=
            if store_frame_confidence
            then replicate B (replicate L
                   (replicate (if with_duration_confidence_ then 2 else 1)%nat
                              0%Qc))
            else [];
          _batch_indices := arange B |}.

(** [torch.cat((x, torch.zeros_like(x)), dim=1)] *)
Definition double_rows {A} (zero : A -> A) (x : list (list A))
  : list (list A) :=
  (fun row => row ++ (zero <$> row)) <$> x.

Definition _allocate_more (s : t) : t :=
  {| with_frame_confidence := with_frame_confidence s;
     with_duration_confidence := with_duration_confidence s;
     with_alignments := with_alignments s;
     _max_length := _max_length s * 2;
     timesteps := double_rows (fun _ => 0) (timesteps s);
     current_lengths := current_lengths s;
     logits := if with_alignments s
               then double_rows (fill_ 0%Qc) (logits s) else logits s;
     labels := if with_alignments s
               then double_rows (fun _ => 0) (labels s) else labels s;
     frame_confidence :=
       if with_frame_confidence s
       then double_rows (fill_ 0%Qc) (frame_confidence s)
       else frame_confidence s;
     _batch_indices := _batch_indices s |}.

Definition add_results_ (s : t) (active_indices time_indices : list Z)
    (logits_ : option (list (list Qc))) (labels_ : option (list Z))
    (confidence : option (list (list Qc))) : result t :=
  if decide (length active_indices = 0%nat) then Ok s
  else
    m ← tensor_max (current_lengths s);
    let s := if decide (m >= _max_length s) then _allocate_more s else s in
    active_lengths ← index_get (current_lengths s) active_indices;
    timesteps' ← index_put2 (timesteps s) active_indices active_lengths
                   time_indices;
    '(logits', labels') ←
      match with_alignments s, logits_, labels_ with
      | true, Some lg, Some lb =>
          lg' ← index_put2_cells (logits s) active_indices active_lengths lg;
          lb' ← index_put2 (labels s) active_indices active_lengths lb;
          Ok (lg', lb')
      | _, _, _ => Ok (logits s, labels s)
      end;
    frame_confidence' ←
      match with_frame_confidence s, confidence with
      | true, Some c =>
          index_put2_cells (frame_confidence s) active_indices active_lengths
            c
      | _, _ => Ok (frame_confidence s)
      end;
    lens ← index_get (current_lengths s) active_indices;
    current_lengths' ← index_put (current_lengths s) active_indices
                         ((fun x => x + 1) <$> lens);
    Ok {| with_frame_confidence := with_frame_confidence s;
          with_duration_confidence := with_duration_confidence s;
          with_alignments := with_alignments s;
          _max_length := _max_length s;
          timesteps := timesteps';
          current_lengths := current_lengths';
          logits := logits';
          labels := labels';
          frame_confidence := frame_confidence';
          _batch_indices := _batch_indices s |}.

Definition clear_ (s : t) : t :=
  {| with_frame_confidence := with_frame_confidence s;
     with_duration_confidence := with_duration_confidence s;
     with_alignments := with_alignments s;
     _max_length := _max_length s;
     timesteps := fill2_ 0 (timesteps s);
     current_lengths := fill_ 0 (current_lengths s);
     logits := fill2_ 0%Qc <$> logits s;
     labels := fill2_ 0 (labels s);
     frame_confidence := fill2_ 0%Qc <$> frame_confidence s;
     _batch_indices := _batch_indices s |}.

Definition add_results_masked_no_checks_ (s : t) (active_mask : list bool)
    (time_indices : list Z)
    (logits_ : option (list (list Qc))) (labels_ : option (list Z))
    (confidence : option (list (list Qc))) : result t :=
  (* written for every item of the batch, active or not *)
  timesteps1 ← index_put2 (timesteps s) (_batch_indices s)
                 (current_lengths s) time_indices;
  '(timesteps', logits', labels') ←
    match with_alignments s, logits_, labels_ with
    | true, Some lg, Some lb =>
        ts ← index_put2 timesteps1 (_batch_indices s) (current_lengths s)
               time_indices;
        lg' ← index_put2_cells (logits s) (_batch_indices s)
                (current_lengths s) lg;
        lb' ← index_put2 (labels s) (_batch_indices s) (current_lengths s) lb;
        Ok (ts, lg', lb')
    | _, _, _ => Ok (timesteps1, logits s, labels s)
    end;
  frame_confidence' ←
    match with_frame_confidence s, confidence with
    | true, Some c =>
        index_put2_cells (frame_confidence s) (_batch_indices s)
          (current_lengths s) c
    | _, _ => Ok (frame_confidence s)
    end;
  (* self.current_lengths += active_mask *)
  current_lengths' ← zip_same (fun l (m : bool) => l + bool_to_Z m)
                       (current_lengths s) active_mask;
  Ok {| with_frame_confidence := with_frame_confidence s;
        with_duration_confidence := with_duration_confidence s;
        with_alignments := with_alignments s;
        _max_length := _max_length s;
        timesteps := timesteps';
        current_lengths := current_lengths';
        logits := logits';
        labels := labels';
        frame_confidence := frame_confidence';
        _batch_indices := _batch_indices s |}.

Definition add_results_masked_ (s : t) (active_mask : list bool)
    (time_indices : list Z)
    (logits_ : option (list (list Qc))) (labels_ : option (list Z))
    (confidence : option (list (list Qc))) : result t :=
  prospective ← zip_same (fun l (m : bool) => l + bool_to_Z m)
                  (current_lengths s) active_mask;
  m ← tensor_max prospective;
  let s := if decide (m >= _max_length s) then _allocate_more s else s in
  add_results_masked_no_checks_ s active_mask time_indices logits_ labels_
    confidence.

End BatchedAlignments.

(** ** [batched_hyps_to_hypotheses] *)

(** The counts of [torch.unique_consecutive(x, return_counts=True)]:
    the lengths of the maximal runs of equal consecutive values. *)
Fixpoint unique_consecutive_counts (x : list Z) : list nat :=
  match x with
  | [] => []
  | a :: x' =>
      match head x', unique_consecutive_counts x' with
      | Some b, c :: cs =>
          if decide (a = b) then S c :: cs else 1%nat :: c :: cs
      | _, _ => [1%nat]
      end
  end.

(** The values of [torch.unique_consecutive(x)]. *)
Fixpoint unique_consecutive (x : list Z) : list Z :=
  match x with
  | [] => []
  | a :: x' =>
      match head x' with
      | Some b => if decide (a = b) then unique_consecutive x'
                  else a :: unique_consecutive x'
      | None => [a]
      end
  end.

(** [[f(row[start + j]) for j in range(cnt)]] *)
Definition read_group {A} (row : list A) (start : Z) (cnt : nat)
  : result (list A) :=
  index_get row ((fun j => start + Z.of_nat j) <$> seq 0 cnt).

(** The loop [for timestep_cnt in grouped_counts: ...; start += timestep_cnt]
    for one stored per-frame row. *)
Fixpoint group_rows {A} (row : list A) (start : Z) (counts : list nat)
  : result (list (list A)) :=
  match counts with
  | [] => Ok []
  | cnt :: counts' =>
      g ← read_group row start cnt;
      gs ← group_rows row (start + Z.of_nat cnt) counts';
      Ok (g :: gs)
  end.

(** The body of the loop over [i] that fills in the alignment fields. *)
Definition attach_alignments (al : BatchedAlignments.t) (i : Z)
    (h : Hypothesis_) : result Hypothesis_ :=
  len ← tget (BatchedAlignments.current_lengths al) i;
  trow ← tget (BatchedAlignments.timesteps al) i;
  let grouped_counts := unique_consecutive_counts (slice_to len trow) in
  groups ←
    (if BatchedAlignments.with_alignments al then
       lrow ← tget (BatchedAlignments.logits al) i;
       brow ← tget (BatchedAlignments.labels al) i;
       lg ← group_rows lrow 0 grouped_counts;
       lb ← group_rows brow 0 grouped_counts;
       Ok (zip_with zip lg lb)
     else Ok []);
  conf ←
    (if BatchedAlignments.with_frame_confidence al then
       crow ← tget (BatchedAlignments.frame_confidence al) i;
       c ← group_rows crow 0 grouped_counts;
       Ok (Some c)
     else Ok (frame_confidence h));
  Ok {| score := score h;
        y_sequence := y_sequence h;
        label_score := label_score h;
        blank_score := blank_score h;
        token_scores := token_scores h;
        timestep := timestep h;
        alignments := Some groups;
        frame_confidence := conf;
        length_ := length_ h |}.

(** [range(n)] *)
Definition range (n : Z) : list Z := seqZ 0 n.

Definition batched_hyps_to_hypotheses (batched_hyps : BatchedHyps.t)
    (alignments_ : option BatchedAlignments.t) (batch_size : option Z)
  : result (list Hypothesis_) :=
  let shape0 := Z.of_nat (length (BatchedHyps.scores batched_hyps)) in
  (* assert batch_size is None or batch_size <= batched_hyps.scores.shape[0] *)
  num_hyps ←
    match batch_size with
    | None => Ok shape0
    | Some n => if decide (n <= shape0) then Ok n else Err AssertionError
    end;
  hypotheses ←
    mapM_result (fun i =>
      sc ← tget (BatchedHyps.scores batched_hyps) i;
      len ← tget (BatchedHyps.current_lengths batched_hyps) i;
      tr ← tget (BatchedHyps.transcript batched_hyps) i;
      ts ← tget (BatchedHyps.timesteps batched_hyps) i;
      Ok (Hypothesis_new sc (slice_to len tr) (slice_to len ts)))
      (range num_hyps);
  match alignments_ with
  | None => Ok hypotheses
  | Some al =>
      mapM_result (fun ih => attach_alignments al ih.1 ih.2)
        (zip (range (Z.of_nat (length hypotheses))) hypotheses)
  end.

(** ** Cellwise operations on [batch, beam] tensors *)

Fixpoint zipM {A B C} (f : A -> B -> result C) (a : list A) (b : list B)
  : result (list C) :=
  match a, b with
  | [], [] => Ok []
  | x :: a', y :: b' =>
      z ← f x y;
      zs ← zipM f a' b';
      Ok (z :: zs)
  | _, _ => Err RuntimeError
  end.

(** Elementwise binary operation on two-dimensional tensors of one shape. *)
Definition zip_same2 {A B C} (f : A -> B -> C)
    (a : list (list A)) (b : list (list B)) : result (list (list C)) :=
  zipM (zip_same f) a b.

(** [t[_batch_indices, _beam_indices, idx]], where [_batch_indices] and
    [_beam_indices] are the [arange]s over the two leading dimensions that
    [__init__] builds and nothing reassigns: cell [(b, k)] reads
    [t[b][k][idx[b][k]]]. *)
Definition get_last {A} (t : list (list (list A))) (idx : list (list Z))
  : result (list (list A)) :=
  zipM (zipM tget) t idx.

(** [t[_batch_indices, _beam_indices, idx] = vals]. *)
Definition put_last {A} (t : list (list (list A))) (idx : list (list Z))
    (vals : list (list A)) : result (list (list (list A))) :=
  iv ← zip_same2 pair idx vals;
  zipM (zipM (fun row (p : Z * A) => tset row p.1 p.2)) t iv.

(** [t.gather(dim=1, index=idx)] on a two-dimensional tensor: the result has
    the shape of [idx]; negative or too large indices are refused. *)
Definition gather_get {A} (row : list A) (i : Z) : result A :=
  if decide (0 <= i < Z.of_nat (length row)) then
    match row !! Z.to_nat i with
    | Some x => Ok x
    | None => Err RuntimeError
    end
  else Err RuntimeError.

Definition gather1 {A} (t : list (list A)) (idx : list (list Z))
  : result (list (list A)) :=
  if decide (length idx <= length t)%nat then
    mapM_result (fun p : list A * list Z => mapM_result (gather_get p.1) p.2)
      (zip t idx)
  else Err RuntimeError.

(** [t.gather(dim=1, index=idx.unsqueeze(-1).expand(-1, -1, n))] on a
    three-dimensional tensor: whole rows are selected, cut to [n] entries. *)
Definition gather1_rows {A} (t : list (list (list A))) (idx : list (list Z))
    (n : Z) : result (list (list (list A))) :=
  g ← gather1 t idx;
  mapM_result (mapM_result (fun row : list A =>
    if decide (n <= Z.of_nat (length row)) then Ok (take (Z.to_nat n) row)
    else Err RuntimeError)) g.

Definition shape3 {A} (t : list (list (list A))) : list (list nat) :=
  fmap (M := list) length <$> t.

(** The entries of a row that a boolean mask selects. *)
Definition select_row {A} (row : list A) (mask : list bool) : list A :=
  concat (zip_with (fun x (m : bool) => if m then [x] else []) row mask).

(** Boolean-mask selection [t[mask]]: the mask has the shape of [t]; the
    selected entries come out in row-major order. *)
Definition masked_select {A} (t : list (list (list A)))
    (mask : list (list (list bool))) : result (list A) :=
  if decide (shape3 t = shape3 mask) then
    Ok (concat ((fun p : list (list A) * list (list bool) =>
                   concat (zip_with select_row p.1 p.2)) <$> zip t mask))
  else Err IndexError.

(** One row of the boolean-mask assignment [t[mask] = vals]: the selected
    positions take the next values, in order; what is left is returned. *)
Fixpoint masked_put_row {A} (row : list A) (mask : list bool) (vals : list A)
  : list A * list A :=
  match row, mask with
  | x :: row', m :: mask' =>
      match m, vals with
      | true, v :: vals' =>
          let '(r, rest) := masked_put_row row' mask' vals' in (v :: r, rest)
      | _, _ =>
          let '(r, rest) := masked_put_row row' mask' vals in (x :: r, rest)
      end
  | _, _ => (row, vals)
  end.

Fixpoint masked_put_rows {X M A} (f : X -> M -> list A -> X * list A)
    (t : list X) (mask : list M) (vals : list A) : list X * list A :=
  match t, mask with
  | x :: t', m :: mask' =>
      let '(x', rest) := f x m vals in
      let '(t'', rest') := masked_put_rows f t' mask' rest in
      (x' :: t'', rest')
  | _, _ => (t, vals)
  end.

(** The number of positions a mask selects. *)
Definition count_true (mask : list (list (list bool))) : nat :=
  sum_list ((fun mb : list (list bool) =>
               sum_list ((fun row => length (filter (fun m => m = true) row))
                           <$> mb)) <$> mask).

(** [t[mask] = vals]: the mask has the shape of [t]; [vals] has one value
    per selected position, or is a single value used for all of them. *)
Definition masked_put {A} (t : list (list (list A)))
    (mask : list (list (list bool))) (vals : list A)
  : result (list (list (list A))) :=
  if decide (shape3 t = shape3 mask) then
    vals' ←
      (if decide (length vals = count_true mask) then Ok vals
       else match vals with
            | [v] => Ok (replicate (count_true mask) v)
            | _ => Err RuntimeError
            end);
    Ok (masked_put_rows (masked_put_rows masked_put_row) t mask vals').1
  else Err IndexError.

(** A stable sort by decreasing score: [sorted(l, key=lambda x: x.score,
    reverse=True)]; entries of equal score keep their order. *)
Fixpoint insert_by_score (h : Hypothesis_) (l : list Hypothesis_)
  : list Hypothesis_ :=
  match l with
  | [] => [h]
  | x :: l' =>
      if decide (score h < score x)%Qc then x :: insert_by_score h l'
      else h :: x :: l'
  end.

Definition sorted_by_score_desc (l : list Hypothesis_) : list Hypothesis_ :=
  foldr insert_by_score [] l.

(** ** [BeamBatchedHyps]: the beam buffer *)

Module BeamBatchedHyps.

Record t : Type := mk {
  _max_length : Z;
  beam_size : Z;
  batch_size : Z;
  blank_tensor : Z;
  current_lengths : list (list Z);
  transcripts : list (list (list Z));
  timesteps : list (list (list Z));
  timesteps_end : list (list (list Z));
  scores : list (list Qc);
  last_timestep : list (list Z);
  last_timestep_lasts : list (list Z);
  _batch_indices : list Z;
  _beam_indices : list Z;
  _label_scores : list (list Qc);
  _blank_scores : list (list Qc);
  _total_scores : list (list (list Qc));
  _token_scores : list (list (list Qc));
  _full_current_lengths : list (list Z);
  _full_timesteps : list (list (list Z));
  _full_transcripts : list (list (list Z));
  last_timestep_repetitions : list (list Z);
  max_timesteps : list Z;
  best_hyps : list (list Hypothesis_);
  _transcript_indices : list (list (list Z))
}.

Definition full2 {A} (B K : nat) (v : A) : list (list A) :=
  replicate B (replicate K v).
Definition full3 {A} (B K L : nat) (v : A) : list (list (list A)) :=
  replicate B (replicate K (replicate L v)).

(** [torch.arange(0, n).unsqueeze(0).unsqueeze(0).repeat(B, K, 1)] *)
Definition transcript_indices (B K : nat) (n : Z) : list (list (list Z)) :=
  replicate B (replicate K (seqZ 0 n)).

Definition init (batch_size beam_size : Z) (max_timesteps : list Z)
    (init_length : Z) : result t :=
  if decide (init_length <= 0) then Err ValueError
  else if decide (batch_size <= 0) then Err ValueError
  else if decide (beam_size < 0) then Err RuntimeError
  else
    let B := Z.to_nat batch_size in
    let K := Z.to_nat beam_size in
    let L := Z.to_nat init_length in
    Ok {| _max_length := init_length;
          beam_size := beam_size;
          batch_size := batch_size;
          blank_tensor := 1024;
          current_lengths := full2 B K 0;
          transcripts := full3 B K L 0;
          timesteps := full3 B K L 0;
          timesteps_end := full3 B K L 0;
          scores := full2 B K 0%Qc;
          last_timestep := full2 B K 0;
          last_timestep_lasts := full2 B K 0;
          _batch_indices := arange B;
          _beam_indices := arange K;
          _label_scores := full2 B K 0%Qc;
          _blank_scores := full2 B K 0%Qc;
          _total_scores := full3 B K L 0%Qc;
          _token_scores := full3 B K L 0%Qc;
          _full_current_lengths := full2 B K 0;
          _full_timesteps := full3 B K L 0;
          _full_transcripts := full3 B K L 1024;
          last_timestep_repetitions := full2 B K 0;
          max_timesteps := max_timesteps;
          best_hyps := replicate B [];
          _transcript_indices := transcript_indices B K init_length |}.

Definition clear_ (s : t) : t :=
  {| _max_length := _max_length s;
     beam_size := beam_size s;
     batch_size := batch_size s;
     blank_tensor := blank_tensor s;
     current_lengths := fill2_ 0 (current_lengths s);
     transcripts := fill2_ 0 <$> transcripts s;
     timesteps := fill2_ 0 <$> timesteps s;
     timesteps_end := timesteps_end s;
     scores := fill2_ 0%Qc (scores s);
     last_timestep := fill2_ (-1) (last_timestep s);
     last_timestep_lasts := fill2_ 0 (last_timestep_lasts s);
     _batch_indices := _batch_indices s;
     _beam_indices := _beam_indices s;
     _label_scores := _label_scores s;
     _blank_scores := _blank_scores s;
     _total_scores := _total_scores s;
     _token_scores := _token_scores s;
     _full_current_lengths := _full_current_lengths s;
     _full_timesteps := _full_timesteps s;
     _full_transcripts := _full_transcripts s;
     last_timestep_repetitions := last_timestep_repetitions s;
     max_timesteps := max_timesteps s;
     best_hyps := best_hyps s;
     _transcript_indices := _transcript_indices s |}.

(** [torch.cat((x, torch.full_like(x, v)), dim=2)] *)
Definition double3 {A} (v : A) (x : list (list (list A)))
  : list (list (list A)) :=
  fmap (M := list) (fun row => row ++ fill_ v row) <$> x.

Definition _allocate_more (s : t) : t :=
  {| _max_length := _max_length s * 2;
     beam_size := beam_size s;
     batch_size := batch_size s;
     blank_tensor := blank_tensor s;
     current_lengths := current_lengths s;
     transcripts := double3 0 (transcripts s);
     timesteps := double3 0 (timesteps s);
     timesteps_end := double3 0 (timesteps_end s);
     scores := scores s;
     last_timestep := last_timestep s;
     last_timestep_lasts := last_timestep_lasts s;
     _batch_indices := _batch_indices s;
     _beam_indices := _beam_indices s;
     _label_scores := _label_scores s;
     _blank_scores := _blank_scores s;
     _total_scores := double3 0%Qc (_total_scores s);
     _token_scores := double3 0%Qc (_token_scores s);
     _full_current_lengths := _full_current_lengths s;
     _full_timesteps := double3 0 (_full_timesteps s);
     _full_transcripts := double3 (blank_tensor s) (_full_transcripts s);
     last_timestep_repetitions := last_timestep_repetitions s;
     max_timesteps := max_timesteps s;
     best_hyps := best_hyps s;
     _transcript_indices :=
       transcript_indices (Z.to_nat (batch_size s)) (Z.to_nat (beam_size s))
         (_max_length s * 2) |}.

Definition _calculate_score (label_logps blank_logps : list (list Qc))
  : result (list (list Qc)) :=
  zip_same2 Qcplus label_logps blank_logps.

Definition has_shape2 {A} (B K : Z) (x : list (list A)) : Prop :=
  Z.of_nat (length x) = B /\
  Forall (fun row => Z.of_nat (length row) = K) x.

#[global] Instance has_shape2_dec {A} B K (x : list (list A))
  : Decision (has_shape2 B K x).
Proof. unfold has_shape2. apply _. Defined.

Definition add_scalar2 (c : Z) (x : list (list Z)) : list (list Z) :=
  fmap (M := list) (fun v => v + c) <$> x.

Definition append_labels (s : t)
    (labels : list (list Z)) (label_logps blank_logps : list (list Qc))
    (blank_logps_per_blank : list (list (list Qc)))
    (num_blanks : list (list Z)) : result t :=
  let blank_start_indices := _full_current_lengths s in
  let cl := add_scalar2 1 (current_lengths s) in
  fl ← zip_same2 (fun f n => f + n + 1) (_full_current_lengths s) num_blanks;
  m ← tensor_max (concat fl);
  let s := if decide (m > _max_length s - 1) then _allocate_more s else s in
  if decide (has_shape2 (batch_size s) (beam_size s) labels /\
             has_shape2 (batch_size s) (beam_size s) label_logps /\
             has_shape2 (batch_size s) (beam_size s) blank_logps /\
             has_shape2 (batch_size s) (beam_size s) num_blanks)
  then
    transcripts' ← put_last (transcripts s) (add_scalar2 (-1) cl) labels;
    label_scores' ← zip_same2 Qcplus (_label_scores s) label_logps;
    blank_scores' ← zip_same2 Qcplus (_blank_scores s) blank_logps;
    sum ← _calculate_score label_logps blank_logps;
    score ← zip_same2 (fun x n => (x / Qc_of_Z n)%Qc) sum fl;
    scores' ← zip_same2 Qcplus (scores s) score;
    prev_end ← get_last (timesteps_end s) (add_scalar2 (-2) cl);
    timesteps' ← put_last (timesteps s) (add_scalar2 (-1) cl) prev_end;
    new_end ← zip_same2 Z.add prev_end num_blanks;
    timesteps_end' ← put_last (timesteps_end s) (add_scalar2 (-1) cl) new_end;
    full_transcripts' ← put_last (_full_transcripts s) (add_scalar2 (-1) fl)
                          labels;
    cur_end ← get_last timesteps_end' (add_scalar2 (-1) cl);
    full_timesteps' ← put_last (_full_timesteps s) (add_scalar2 (-1) fl)
                        cur_end;
    total_scores' ← put_last (_total_scores s) (add_scalar2 (-1) cl) score;
    token_scores1 ←
      (if forallb (forallb (fun n => bool_decide (n = 0))) num_blanks
       then Ok (_token_scores s)
       else
         max_blanks ← tensor_max (concat num_blanks);
         blank_logps_per_blank_mask ←
           zip_same2 (fun (row : list Z) (n : Z) =>
                        slice_to max_blanks
                          ((fun l => bool_decide (l < n)) <$> row))
             (_transcript_indices s) num_blanks;
         start_num ← zip_same2 pair blank_start_indices num_blanks;
         token_scores_max_blank_mask ←
           zip_same2 (fun (row : list Z) (p : Z * Z) =>
                        (fun l => bool_decide (p.1 <= l) &&
                                  bool_decide (l < p.1 + p.2)) <$> row)
             (_transcript_indices s) start_num;
         vals ← masked_select blank_logps_per_blank blank_logps_per_blank_mask;
         masked_put (_token_scores s) token_scores_max_blank_mask vals);
    token_scores' ← put_last token_scores1 (add_scalar2 (-1) fl) label_logps;
    last_timestep' ← zip_same2 Z.add (last_timestep s) num_blanks;
    repetitions' ← zip_same2 (fun (n r : Z) =>
                                if decide (n = 0) then r + 1 else 1)
                     num_blanks (last_timestep_repetitions s);
    Ok {| _max_length := _max_length s;
          beam_size := beam_size s;
          batch_size := batch_size s;
          blank_tensor := blank_tensor s;
          current_lengths := cl;
          transcripts := transcripts';
          timesteps := timesteps';
          timesteps_end := timesteps_end';
          scores := scores';
          last_timestep := last_timestep';
          last_timestep_lasts := last_timestep_lasts s;
          _batch_indices := _batch_indices s;
          _beam_indices := _beam_indices s;
          _label_scores := label_scores';
          _blank_scores := blank_scores';
          _total_scores := total_scores';
          _token_scores := token_scores';
          _full_current_lengths := fl;
          _full_timesteps := full_timesteps';
          _full_transcripts := full_transcripts';
          last_timestep_repetitions := repetitions';
          max_timesteps := max_timesteps s;
          best_hyps := best_hyps s;
          _transcript_indices := _transcript_indices s |}
  else Err AssertionError.

(** The gathers of [update_beam]: every per-beam tensor it reorders, up to
    the call of [append_labels]. *)
Definition update_beam_gather (s : t) (beam_idx : list (list Z))
  : result t :=
  let n := _max_length s in
  scores' ← gather1 (scores s) beam_idx;
  last_timestep' ← gather1 (last_timestep s) beam_idx;
  current_lengths' ← gather1 (current_lengths s) beam_idx;
  repetitions' ← gather1 (last_timestep_repetitions s) beam_idx;
  timesteps' ← gather1_rows (timesteps s) beam_idx n;
  transcripts' ← gather1_rows (transcripts s) beam_idx n;
  timesteps_end' ← gather1_rows (timesteps_end s) beam_idx n;
  full_timesteps' ← gather1_rows (_full_timesteps s) beam_idx n;
  (* the three gathered tensors have the last dimension of their index,
     which is n; the fourth assert reads the tensor before its gather *)
  if decide (Forall (Forall (fun row : list Z => Z.of_nat (length row) = n))
               (_full_transcripts s))
  then
    label_scores' ← gather1 (_label_scores s) beam_idx;
    blank_scores' ← gather1 (_blank_scores s) beam_idx;
    total_scores' ← gather1_rows (_total_scores s) beam_idx n;
    token_scores' ← gather1_rows (_token_scores s) beam_idx n;
    full_current_lengths' ← gather1 (_full_current_lengths s) beam_idx;
    full_transcripts' ← gather1_rows (_full_transcripts s) beam_idx n;
    Ok {| _max_length := _max_length s;
          beam_size := beam_size s;
          batch_size := batch_size s;
          blank_tensor := blank_tensor s;
          current_lengths := current_lengths';
          transcripts := transcripts';
          timesteps := timesteps';
          timesteps_end := timesteps_end';
          scores := scores';
          last_timestep := last_timestep';
          last_timestep_lasts := last_timestep_lasts s;
          _batch_indices := _batch_indices s;
          _beam_indices := _beam_indices s;
          _label_scores := label_scores';
          _blank_scores := blank_scores';
          _total_scores := total_scores';
          _token_scores := token_scores';
          _full_current_lengths := full_current_lengths';
          _full_timesteps := full_timesteps';
          _full_transcripts := full_transcripts';
          last_timestep_repetitions := repetitions';
          max_timesteps := max_timesteps s;
          best_hyps := best_hyps s;
          _transcript_indices := _transcript_indices s |}
  else Err AssertionError.

(** [blank_logps_per_blank.squeeze(-1)] drops a last axis of size one; the
    row-major sequence of values, which is all [append_labels] reads from
    it, is the same, so the argument is passed on as it is. *)
Definition update_beam (s : t)
    (labels : list (list Z)) (label_logps blank_logps : list (list Qc))
    (blank_logps_per_blank : list (list (list Qc)))
    (num_blanks beam_idx : list (list Z)) : result t :=
  s' ← update_beam_gather s beam_idx;
  append_labels s' labels label_logps blank_logps blank_logps_per_blank
    num_blanks.

Definition get_best_hyps (s : t) : result (list Hypothesis_) :=
  mapM_result (fun batch_idx =>
    hyps ← tget (best_hyps s) batch_idx;
    match sorted_by_score_desc hyps with
    | [] => Err IndexError
    | best :: _ => Ok best
    end) (_batch_indices s).

End BeamBatchedHyps.

Definition batched_beam_hyps_to_hypotheses (batched_hyps : BeamBatchedHyps.t)
  : result (list Hypothesis_) :=
  BeamBatchedHyps.get_best_hyps batched_hyps.

(** ** Vocabulary of the statements about [BatchedHyps] *)

(** The arguments of one [add_results_] call and of one
    [add_results_masked_] call. *)
Record index_call : Type := IndexCall {
  ic_active_indices : list Z;
  ic_labels : list Z;
  ic_time_indices : list Z;
  ic_scores : list Qc
}.

Record mask_call : Type := MaskCall {
  mc_active_mask : list bool;
  mc_labels : list Z;
  mc_time_indices : list Z;
  mc_scores : list Qc
}.

Definition call_index (s : BatchedHyps.t) (c : index_call)
  : result BatchedHyps.t :=
  BatchedHyps.add_results_ s (ic_active_indices c) (ic_labels c)
    (ic_time_indices c) (ic_scores c).

Definition call_mask (s : BatchedHyps.t) (c : mask_call)
  : result BatchedHyps.t :=
  BatchedHyps.add_results_masked_ s (mc_active_mask c) (mc_labels c)
    (mc_time_indices c) (mc_scores c).

(** A sequence of calls on one buffer, the first call first. *)
Fixpoint run {C} (step : BatchedHyps.t -> C -> result BatchedHyps.t)
    (s : BatchedHyps.t) (calls : list C) : result BatchedHyps.t :=
  match calls with
  | [] => Ok s
  | c :: calls' => s' ← step s c; run step s' calls'
  end.

(** The position of item [b] in a tensor of item indices. *)
Fixpoint pos_of (b : nat) (idx : list Z) : option nat :=
  match idx with
  | [] => None
  | i :: idx' =>
      if decide (i = Z.of_nat b) then Some 0%nat else S <$> pos_of b idx'
  end.

(** The logical update a call carries for item [b]: the label, its time
    index and the score increment, or nothing when [b] is not active. *)
Definition index_update (c : index_call) (b : nat) : option (Z * Z * Qc) :=
  j ← pos_of b (ic_active_indices c);
  l ← ic_labels c !! j;
  t ← ic_time_indices c !! j;
  x ← ic_scores c !! j;
  Some (l, t, x).

Definition mask_update (c : mask_call) (b : nat) : option (Z * Z * Qc) :=
  m ← mc_active_mask c !! b;
  if m : bool then
    l ← mc_labels c !! b;
    t ← mc_time_indices c !! b;
    x ← mc_scores c !! b;
    Some (l, t, x)
  else None.

(** A valid index-based call on a batch of [B] items: distinct item indices
    in [0, B), one label, time index and score per index. *)
Definition valid_index_call (B : nat) (c : index_call) : Prop :=
  NoDup (ic_active_indices c) /\
  Forall (fun i => 0 <= i < Z.of_nat B) (ic_active_indices c) /\
  length (ic_labels c) = length (ic_active_indices c) /\
  length (ic_time_indices c) = length (ic_active_indices c) /\
  length (ic_scores c) = length (ic_active_indices c).

(** A valid mask-based call: every argument has one entry per item. *)
Definition valid_mask_call (B : nat) (c : mask_call) : Prop :=
  length (mc_active_mask c) = B /\
  length (mc_labels c) = B /\
  length (mc_time_indices c) = B /\
  length (mc_scores c) = B.

(** The two calls encode the same logical updates. *)
Definition same_updates (B : nat) (ci : index_call) (cm : mask_call) : Prop :=
  Forall (fun b => index_update ci b = mask_update cm b) (seq 0 B).

#[global] Instance valid_index_call_dec B c : Decision (valid_index_call B c).
Proof. unfold valid_index_call. apply _. Defined.
#[global] Instance valid_mask_call_dec B c : Decision (valid_mask_call B c).
Proof. unfold valid_mask_call. apply _. Defined.
#[global] Instance same_updates_dec B ci cm : Decision (same_updates B ci cm).
Proof. unfold same_updates. apply _. Defined.

(** The logical contents of the buffer for one item: what the buffer owns
    for it, the stored rows cut at the write cursor. *)
Record item : Type := Item {
  it_score : Qc;
  it_length : Z;
  it_last_timestep : Z;
  it_last_timestep_lasts : Z;
  it_labels : list Z;
  it_timesteps : list Z
}.

Definition item_of (s : BatchedHyps.t) (b : nat) : option item :=
  x ← BatchedHyps.scores s !! b;
  n ← BatchedHyps.current_lengths s !! b;
  last ← BatchedHyps.last_timestep s !! b;
  lasts ← BatchedHyps.last_timestep_lasts s !! b;
  row ← BatchedHyps.transcript s !! b;
  trow ← BatchedHyps.timesteps s !! b;
  Some {| it_score := x;
          it_length := n;
          it_last_timestep := last;
          it_last_timestep_lasts := lasts;
          it_labels := slice_to n row;
          it_timesteps := slice_to n trow |}.

(** The append contract in the words of the specification: an active item
    gets one label appended, its score incremented, and its repeat counter
    incremented when the frame index repeats and reset to 1 otherwise; an
    inactive item is left as it is. *)
Definition append_item (it : item) (u : option (Z * Z * Qc)) : item :=
  match u with
  | None => it
  | Some (label, time, inc) =>
      {| it_score := it_score it + inc;
         it_length := it_length it + 1;
         it_last_timestep := time;
         it_last_timestep_lasts :=
           if decide (it_last_timestep it = time)
           then it_last_timestep_lasts it + 1 else 1;
         it_labels := it_labels it ++ [label];
         it_timesteps := it_timesteps it ++ [time] |}
  end.

(** The shape invariant of a [BatchedHyps] for [B] items. *)
Record wf (B : nat) (s : BatchedHyps.t) : Prop := Wf {
  wf_max_length : 0 < BatchedHyps._max_length s;
  wf_current_lengths : length (BatchedHyps.current_lengths s) = B;
  wf_scores : length (BatchedHyps.scores s) = B;
  wf_last_timestep : length (BatchedHyps.last_timestep s) = B;
  wf_last_timestep_lasts : length (BatchedHyps.last_timestep_lasts s) = B;
  wf_transcript : length (BatchedHyps.transcript s) = B;
  wf_timesteps : length (BatchedHyps.timesteps s) = B;
  wf_batch_indices : BatchedHyps._batch_indices s = arange B;
  wf_ones_batch : BatchedHyps._ones_batch s = replicate B 1;
  wf_transcript_rows :
    Forall (fun row => Z.of_nat (length row) = BatchedHyps._max_length s)
      (BatchedHyps.transcript s);
  wf_timesteps_rows :
    Forall (fun row => Z.of_nat (length row) = BatchedHyps._max_length s)
      (BatchedHyps.timesteps s);
  wf_cursor :
    Forall (fun n => 0 <= n <= BatchedHyps._max_length s)
      (BatchedHyps.current_lengths s)
}.

(** ** Vocabulary of the statements and worked examples *)

(** The value of [where_] on lists of one length. *)
Definition where_list {A} (cond : list bool) (a b : list A) : list A :=
  zip_with (fun (c : bool) (p : A * A) => if c then p.1 else p.2) cond
    (zip_with pair a b).

(** Four steps on two items, once as [add_results_] calls and once as
    [add_results_masked_] calls: item 0 gets labels 3, 5, 7 at frames 0, 2, 2
    and item 1 gets label 9 at frame 2; the third step has no active item.
    An inactive item of a masked call carries arbitrary values. *)
Definition demo_index_calls : list index_call :=
  [ IndexCall [0] [3] [0] [Q2Qc (-1 # 2)];
    IndexCall [1; 0] [9; 5] [2; 2] [Q2Qc (1 # 3); Q2Qc (-1 # 2)];
    IndexCall [] [] [] [];
    IndexCall [0] [7] [2] [Q2Qc (-1 # 2)] ].

Definition demo_mask_calls : list mask_call :=
  [ MaskCall [true; false] [3; 4] [0; 0] [Q2Qc (-1 # 2); Q2Qc 1];
    MaskCall [true; true] [5; 9] [2; 2] [Q2Qc (-1 # 2); Q2Qc (1 # 3)];
    MaskCall [false; false] [1; 1] [3; 3] [Q2Qc 1; Q2Qc 1];
    MaskCall [true; false] [7; 8] [2; 5] [Q2Qc (-1 # 2); Q2Qc 1] ].

(** [wf] is decidable, so that it can be computed on a given buffer. *)
#[global] Instance wf_dec B s : Decision (wf B s).
Proof.
  refine (cast_if (decide (
    0 < BatchedHyps._max_length s /\
    length (BatchedHyps.current_lengths s) = B /\
    length (BatchedHyps.scores s) = B /\
    length (BatchedHyps.last_timestep s) = B /\
    length (BatchedHyps.last_timestep_lasts s) = B /\
    length (BatchedHyps.transcript s) = B /\
    length (BatchedHyps.timesteps s) = B /\
    BatchedHyps._batch_indices s = arange B /\
    BatchedHyps._ones_batch s = replicate B 1 /\
    Forall (fun row => Z.of_nat (length row) = BatchedHyps._max_length s)
      (BatchedHyps.transcript s) /\
    Forall (fun row => Z.of_nat (length row) = BatchedHyps._max_length s)
      (BatchedHyps.timesteps s) /\
    Forall (fun n => 0 <= n <= BatchedHyps._max_length s)
      (BatchedHyps.current_lengths s)))).
  - destruct a as (?&?&?&?&?&?&?&?&?&?&?&?). by constructor.
  - intros [? ? ? ? ? ? ? ? ? ? ? ?]. apply n. done.
Defined.

(** The value of a computation that succeeds, [d] otherwise. *)
Definition from_result {A} (d : A) (r : result A) : A :=
  match r with Ok a => a | Err _ => d end.

(** A greedy buffer without items, the default of [from_result] below. *)
Definition empty_hyps : BatchedHyps.t :=
  BatchedHyps.mk 0 [] [] [] [] [] [] [] [] 0.

(** Item 0 of a one-item buffer after appending labels 3, 5, 7 at frames
    0, 2, 2. *)
Definition demo_appends : list index_call :=
  [ IndexCall [0] [3] [0] [Q2Qc (-1 # 2)];
    IndexCall [0] [5] [2] [Q2Qc (-1 # 4)];
    IndexCall [0] [7] [2] [Q2Qc (-1 # 4)] ].

(** The buffer these appends leave, from capacity 1. *)
Definition demo_hyps : BatchedHyps.t :=
  Eval vm_compute in
    from_result empty_hyps
      (s ← BatchedHyps.init 1 1; run call_index s demo_appends).

(** A fresh buffer of two items and capacity 2. *)
Definition demo_fresh_hyps : BatchedHyps.t :=
  Eval vm_compute in from_result empty_hyps (BatchedHyps.init 2 2).

(** [h] is the first entry of [hyps] among those of the highest score. *)
Definition first_best (h : Hypothesis_) (hyps : list Hypothesis_) : Prop :=
  exists l1 l2, hyps = l1 ++ h :: l2 /\
    Forall (fun x => (score x < score h)%Qc) l1 /\
    Forall (fun x => (score x <= score h)%Qc) l2.

(** The shape invariant of a [BatchedAlignments] for [B] items. *)
Definition al_wf (B : nat) (al : BatchedAlignments.t) : Prop :=
  0 < BatchedAlignments._max_length al /\
  length (BatchedAlignments.current_lengths al) = B /\
  length (BatchedAlignments.timesteps al) = B /\
  Forall (fun row => Z.of_nat (length row) = BatchedAlignments._max_length al)
    (BatchedAlignments.timesteps al) /\
  Forall (fun n => 0 <= n <= BatchedAlignments._max_length al)
    (BatchedAlignments.current_lengths al) /\
  (BatchedAlignments.with_alignments al = true ->
   length (BatchedAlignments.logits al) = B /\
   length (BatchedAlignments.labels al) = B /\
   Forall (fun row => Z.of_nat (length row) = BatchedAlignments._max_length al)
     (BatchedAlignments.logits al) /\
   Forall (fun row => Z.of_nat (length row) = BatchedAlignments._max_length al)
     (BatchedAlignments.labels al)) /\
  (BatchedAlignments.with_frame_confidence al = true ->
   length (BatchedAlignments.frame_confidence al) = B /\
   Forall (fun row => Z.of_nat (length row) = BatchedAlignments._max_length al)
     (BatchedAlignments.frame_confidence al)).

#[global] Instance al_wf_dec B al : Decision (al_wf B al).
Proof. unfold al_wf. apply _. Defined.

(** Entry [(b, k)] of a [batch, beam] tensor; for a three-dimensional tensor
    this is the row of beam [k] of item [b]. *)
Definition cell {A} (t : list (list A)) (b k : nat) : option A :=
  row ← t !! b; row !! k.

(** A [batch, beam] tensor of counts without a negative entry. *)
Definition nonneg2 (x : list (list Z)) : Prop :=
  Forall (Forall (fun n => 0 <= n)) x.

(** The beam buffers a decoding loop can reach from the constructor. *)
Inductive reachable : BeamBatchedHyps.t -> Prop :=
  | reach_init batch_size beam_size max_timesteps init_length s :
      BeamBatchedHyps.init batch_size beam_size max_timesteps init_length
        = Ok s ->
      reachable s
  | reach_append_labels s labels label_logps blank_logps per_blank num_blanks
      s' :
      reachable s -> nonneg2 num_blanks ->
      BeamBatchedHyps.append_labels s labels label_logps blank_logps per_blank
        num_blanks = Ok s' ->
      reachable s'
  | reach_gather s beam_idx s' :
      reachable s ->
      BeamBatchedHyps.update_beam_gather s beam_idx = Ok s' ->
      reachable s'
  | reach_update_beam s labels label_logps blank_logps per_blank num_blanks
      beam_idx s' :
      reachable s -> nonneg2 num_blanks ->
      BeamBatchedHyps.update_beam s labels label_logps blank_logps per_blank
        num_blanks beam_idx = Ok s' ->
      reachable s'
  | reach_clear s :
      reachable s -> reachable (BeamBatchedHyps.clear_ s).

(** ** Vocabulary of the statements about [BeamBatchedHyps] *)

Section beam_vocabulary.
Import BeamBatchedHyps.

(** Shapes of the two- and three-dimensional tensors of a beam buffer. *)
Definition sh2 {A} (B K : nat) (x : list (list A)) : Prop :=
  length x = B /\ Forall (fun row => length row = K) x.

Definition sh3 {A} (B K : nat) (L : Z) (x : list (list (list A))) : Prop :=
  sh2 B K x /\ Forall (Forall (fun row => Z.of_nat (length row) = L)) x.

(** Beyond the cursor [n] the row still holds the fill value [v]. *)
Definition tail_is {A} (v : A) (n : Z) (row : list A) : Prop :=
  drop (Z.to_nat n) row = replicate (length row - Z.to_nat n) v.

(** The invariant of the beam buffer. *)
Definition beam_wf (s : BeamBatchedHyps.t) : Prop :=
  let B := Z.to_nat (batch_size s) in
  let K := Z.to_nat (beam_size s) in
  let L := _max_length s in
  (0 < L /\ 0 < batch_size s /\ 0 <= beam_size s /\ blank_tensor s = 1024) /\
  (_batch_indices s = arange B /\ _beam_indices s = arange K /\
   length (best_hyps s) = B /\
   _transcript_indices s = transcript_indices B K L) /\
  (sh2 B K (current_lengths s) /\ sh2 B K (scores s) /\
   sh2 B K (last_timestep s) /\ last_timestep_lasts s = full2 B K 0 /\
   sh2 B K (_label_scores s) /\ sh2 B K (_blank_scores s) /\
   sh2 B K (_full_current_lengths s) /\
   sh2 B K (last_timestep_repetitions s)) /\
  (sh3 B K L (transcripts s) /\ sh3 B K L (timesteps s) /\
   sh3 B K L (timesteps_end s) /\ sh3 B K L (_total_scores s) /\
   sh3 B K L (_token_scores s) /\ sh3 B K L (_full_timesteps s) /\
   sh3 B K L (_full_transcripts s)) /\
  (Forall2 (Forall2 (fun cur full => 0 <= cur <= full /\ full <= L))
     (current_lengths s) (_full_current_lengths s) /\
   Forall2 (Forall2 (tail_is 1024)) (_full_current_lengths s)
     (_full_transcripts s) /\
   Forall2 (Forall2 (tail_is 0)) (_full_current_lengths s)
     (_full_timesteps s)).

(** A beam buffer without items, the default of [from_result] below. *)
Definition empty_beam : BeamBatchedHyps.t :=
  BeamBatchedHyps.mk 0 0 0 0 [] [] [] [] [] [] [] [] [] [] [] [] [] [] [] []
    [] [] [] [].

(** A fresh buffer of one item and one beam, for two appends without
    blanks, each with label log-probability -1/2 and blank log-probability
    -1/10. *)
Definition demo_beam0 : BeamBatchedHyps.t :=
  Eval vm_compute in from_result empty_beam (init 1 1 [] 4).

(** The buffer after the first and after the second of these appends. *)
Definition demo_beam1 : BeamBatchedHyps.t :=
  Eval vm_compute in
    from_result empty_beam
      (append_labels demo_beam0 [[3]] [[Q2Qc (-1 # 2)]] [[Q2Qc (-1 # 10)]]
         [[[]]] [[0]]).

Definition demo_beam2 : BeamBatchedHyps.t :=
  Eval vm_compute in
    from_result empty_beam
      (append_labels demo_beam1 [[4]] [[Q2Qc (-1 # 2)]] [[Q2Qc (-1 # 10)]]
         [[[]]] [[0]]).

(** The length-normalized score of the specification: the cumulative label
    and blank log-probabilities over the full length. *)
Definition normalized_score (s : BeamBatchedHyps.t) (b k : nat) : option Qc :=
  l ← cell (_label_scores s) b k;
  bl ← cell (_blank_scores s) b k;
  n ← cell (_full_current_lengths s) b k;
  Some ((l + bl) / Qc_of_Z n)%Qc.

(** The relation between the two cursors of every beam. *)
Definition cursor_inv (s : BeamBatchedHyps.t) : Prop :=
  Forall2 (Forall2 (fun cur full => 0 <= cur <= full))
    (current_lengths s) (_full_current_lengths s).

(** [row[i]] as Python reads it, for an index in range. *)
Definition row_at {A} (d : A) (row : list A) (i : Z) : A :=
  default d (row !! Z.to_nat (if decide (0 <= i) then i
                               else Z.of_nat (length row) + i)).

(** A row grown by [n] entries [v]. *)
Definition pad {A} (v : A) (n : nat) (row : list A) : list A :=
  row ++ replicate n v.

Definition pad3 {A} (v : A) (n : nat) (t : list (list (list A)))
  : list (list (list A)) :=
  fmap (M := list) (pad v n) <$> t.

(** A row with the entries from position [f] on overwritten by [vs]. *)
Definition splice {A} (f : nat) (vs : list A) (row : list A) : list A :=
  take f row ++ vs ++ drop (f + length vs) row.

(** The result of [t[_batch_indices, _beam_indices, idx] = vals]. *)
Definition put_cells {A} (t : list (list (list A))) (idx : list (list Z))
    (vals : list (list A)) : list (list (list A)) :=
  zip_with (zip_with (fun row (p : Z * A) => <[Z.to_nat p.1 := p.2]> row)) t
    (zip_with (zip_with pair) idx vals).



(** [s1] is [s] with every row grown by [d] entries. *)
Definition grown (d : nat) (s s1 : BeamBatchedHyps.t) : Prop :=
  (_max_length s1 = _max_length s + Z.of_nat d /\
   batch_size s1 = batch_size s /\ beam_size s1 = beam_size s /\
   blank_tensor s1 = blank_tensor s) /\
  (current_lengths s1 = current_lengths s /\ scores s1 = scores s /\
   last_timestep s1 = last_timestep s /\
   last_timestep_lasts s1 = last_timestep_lasts s /\
   _label_scores s1 = _label_scores s /\ _blank_scores s1 = _blank_scores s /\
   _full_current_lengths s1 = _full_current_lengths s /\
   last_timestep_repetitions s1 = last_timestep_repetitions s) /\
  (transcripts s1 = pad3 0 d (transcripts s) /\
   timesteps s1 = pad3 0 d (timesteps s) /\
   timesteps_end s1 = pad3 0 d (timesteps_end s) /\
   _total_scores s1 = pad3 0%Qc d (_total_scores s) /\
   _token_scores s1 = pad3 0%Qc d (_token_scores s) /\
   _full_timesteps s1 = pad3 0 d (_full_timesteps s) /\
   _full_transcripts s1 = pad3 1024 d (_full_transcripts s)).




(** The buffer [s] with the lists [bh] of completed hypotheses. *)
Definition with_best_hyps (s : BeamBatchedHyps.t)
    (bh : list (list Hypothesis_)) : BeamBatchedHyps.t :=
  {| _max_length := _max_length s;
     beam_size := beam_size s;
     batch_size := batch_size s;
     blank_tensor := blank_tensor s;
     current_lengths := current_lengths s;
     transcripts := transcripts s;
     timesteps := timesteps s;
     timesteps_end := timesteps_end s;
     scores := scores s;
     last_timestep := last_timestep s;
     last_timestep_lasts := last_timestep_lasts s;
     _batch_indices := _batch_indices s;
     _beam_indices := _beam_indices s;
     _label_scores := _label_scores s;
     _blank_scores := _blank_scores s;
     _total_scores := _total_scores s;
     _token_scores := _token_scores s;
     _full_current_lengths := _full_current_lengths s;
     _full_timesteps := _full_timesteps s;
     _full_transcripts := _full_transcripts s;
     last_timestep_repetitions := last_timestep_repetitions s;
     max_timesteps := max_timesteps s;
     best_hyps := bh;
     _transcript_indices := _transcript_indices s |}.

(** One batch item with two completed hypotheses of scores -2 and -1. *)
Definition demo_completed : BeamBatchedHyps.t :=
  with_best_hyps demo_beam0
    [[Hypothesis_new (Q2Qc (-2)) [3] [0]; Hypothesis_new (Q2Qc (-1)) [4] [0]]].

(** A fresh buffer of two batch items with one beam each. *)
Definition demo_two_items : BeamBatchedHyps.t :=
  Eval vm_compute in from_result empty_beam (init 2 1 [] 4).

(** Two batch items, the first with one completed hypothesis and the second
    with none. *)
Definition demo_half_completed : BeamBatchedHyps.t :=
  with_best_hyps demo_two_items [[Hypothesis_new (Q2Qc (-1)) [4] [0]]; []].

(** One batch item with three beams whose traces differ. *)
Definition demo_beam3 : BeamBatchedHyps.t :=
  Eval vm_compute in
    from_result empty_beam
      (s ← init 1 3 [] 2;
       append_labels s [[5; 6; 7]]
         [[Q2Qc (-1 # 2); Q2Qc (-1 # 4); Q2Qc (-1 # 8)]]
         [[Q2Qc (-1 # 10); Q2Qc (-1 # 10); Q2Qc (-1 # 10)]]
         [[[Q2Qc (-1 # 5)]; [Q2Qc (-3 # 10)]; [Q2Qc (-2 # 5)]]]
         [[0; 1; 0]]).

(** A fresh buffer of one item, three beams and capacity 2, and per-blank
    scores for it. *)
Definition demo_beam_fresh : BeamBatchedHyps.t :=
  Eval vm_compute in from_result empty_beam (init 1 3 [] 2).

Definition demo_per_blank : list (list (list Qc)) :=
  [[[Q2Qc (-1 # 5)]; [Q2Qc (-3 # 10)]; [Q2Qc (-2 # 5)]]].

(** An alignment buffer without items, the default of [from_result]
    below. *)
Definition empty_alignments : BatchedAlignments.t :=
  BatchedAlignments.mk false false false 0 [] [] [] [] [] [].

(** One frame of the trace of item 0 of a one-item alignment buffer. *)
Definition add_frame (al : result BatchedAlignments.t) (tl : Z * Z)
  : result BatchedAlignments.t :=
  a ← al;
  BatchedAlignments.add_results_ a [0] [tl.1] (Some [[Q2Qc 0]])
    (Some [tl.2]) None.

(** The trace with timesteps 0, 0, 1, 2, 2, 2 and labels blank, 3, blank, 5,
    blank, 7, the blank being label 8. *)
Definition demo_alignments : BatchedAlignments.t :=
  Eval vm_compute in
    from_result empty_alignments
      (foldl add_frame (BatchedAlignments.init 1 1 2 true false false)
         [(0, 8); (0, 3); (1, 8); (2, 5); (2, 8); (2, 7)]).

(** A trace that returns to frame 0 after frame 1. *)
Definition demo_alignments_back : BatchedAlignments.t :=
  Eval vm_compute in
    from_result empty_alignments
      (foldl add_frame (BatchedAlignments.init 1 1 2 true false false)
         [(0, 3); (1, 8); (0, 5)]).

End beam_vocabulary.

(** The shapes and the invariant are decidable. *)
#[global] Instance sh2_dec {A} B K (x : list (list A))
  : Decision (sh2 B K x).
Proof. unfold sh2. apply _. Defined.

#[global] Instance sh3_dec {A} B K L (x : list (list (list A)))
  : Decision (sh3 B K L x).
Proof. unfold sh3. apply _. Defined.

#[global] Instance tail_is_dec {A} `{EqDecision A} (v : A) n row
  : Decision (tail_is v n row).
Proof. unfold tail_is. apply _. Defined.

#[global] Instance beam_wf_dec s : Decision (beam_wf s).
Proof. unfold beam_wf. cbv zeta. apply _. Defined.

(** ** The hypothesis record and the helpers of the beam search *)

(** A Python value as [non_blank_frame_confidence] tells values apart: a
    list, or a value that is not a list (a float, a tensor). *)
#[local] Unset Elimination Schemes.
Inductive pyval (A : Type) : Type :=
  | PyAtom (x : A)
  | PyList (l : list (pyval A)).
#[local] Set Elimination Schemes.
Arguments PyAtom {A} x.
Arguments PyList {A} l.

(** [isinstance(v, list)] *)
Definition is_list {A} (v : pyval A) : bool :=
  match v with
  | PyList _ => true
  | PyAtom _ => false
  end.

(** The field [timestep]: a list, or a dict, of which the property reads the
    entry under the key ['timestep'] only, [None] when the dict has no such
    key. *)
Inductive timestep_field : Type :=
  | TimestepList (ts : list Z)
  | TimestepDict (entry : option (list Z)).

Section non_blank.

Context {A : Type}.

(** [x[i]] for a value [x] that is not a list: a [TypeError] for a float, an
    entry for a tensor.  Nothing is assumed about it. *)
Context (atom_get : A -> Z -> result (pyval A)).

(** [v[i]] *)
Definition py_get (v : pyval A) (i : Z) : result (pyval A) :=
  match v with
  | PyList l => tget l i
  | PyAtom x => atom_get x i
  end.

(** The loop over [timestep] of the transducer branch: [t_prev] and [offset]
    are the loop variables. *)
Fixpoint non_blank_loop (fc : list (pyval A)) (t_prev offset : Z)
    (ts : list Z) : result (list (pyval A)) :=
  match ts with
  | [] => Ok []
  | t :: ts' =>
      let offset' := if decide (t <> t_prev) then 0 else offset + 1 in
      frame ← tget fc t;
      c ← py_get frame offset';
      rest ← non_blank_loop fc t offset' ts';
      Ok (c :: rest)
  end.

(** The property [Hypothesis.non_blank_frame_confidence], as a function of
    the two fields it reads, in every form the dataclass allows for them.
    The record [Hypothesis_] above holds a [timestep] that is a list and a
    [frame_confidence] of the transducer layout, a list of lists of
    entries. *)
Definition non_blank_frame_confidence (timestep : timestep_field)
    (frame_confidence : option (list (pyval A)))
  : result (list (pyval A)) :=
  timestep ← match timestep with
             | TimestepList ts => Ok ts
             | TimestepDict (Some ts) => Ok ts
             | TimestepDict None => Err KeyError
             end;
  match frame_confidence with
  | Some fc =>
      if decide (length timestep <> 0%nat) then
        if existsb is_list fc then non_blank_loop fc (-1) 0 timestep
        else mapM_result (tget fc) timestep
      else Ok []
  | None => Ok []
  end.

End non_blank.

(** The loop of [is_prefix] over [range(len(pref))]. *)
Fixpoint is_prefix_loop (x pref : list Z) (indices : list Z) : result bool :=
  match indices with
  | [] => Ok true
  | i :: indices' =>
      a ← tget pref i;
      b ← tget x i;
      if decide (a <> b) then Ok false else is_prefix_loop x pref indices'
  end.

Definition is_prefix (x pref : list Z) : result bool :=
  if decide (length x <= length pref)%nat then Ok false
  else is_prefix_loop x pref (range (Z.of_nat (length pref))).

(** [max(l, key=lambda x: x[1])]: the first of the entries of the highest
    value; [ValueError] on an empty list. *)
Definition max_by_snd (l : list (Z * Qc)) : result (Z * Qc) :=
  match l with
  | [] => Err ValueError
  | x :: l' =>
      Ok (foldl (fun best y => if decide (best.2 < y.2)%Qc then y else best)
            x l')
  end.

(** [sorted(l, key=lambda x: x[1])]: ascending and stable. *)
Fixpoint insert_by_snd (x : Z * Qc) (l : list (Z * Qc)) : list (Z * Qc) :=
  match l with
  | [] => [x]
  | y :: l' =>
      if decide (y.2 < x.2)%Qc then y :: insert_by_snd x l' else x :: y :: l'
  end.

Definition sorted_by_snd (l : list (Z * Qc)) : list (Z * Qc) :=
  foldr insert_by_snd [] l.

(** [b] is the first entry of [l] among those of the highest value. *)
Definition first_max_snd (b : Z * Qc) (l : list (Z * Qc)) : Prop :=
  exists l1 l2, l = l1 ++ b :: l2 /\
    Forall (fun x => (x.2 < b.2)%Qc) l1 /\
    Forall (fun x => (x.2 <= b.2)%Qc) l2.

Section select_k.

(** [hyp.score + float(v)] and [k_best_exp - gamma] are operations on
    floating-point numbers.  A finite float is a rational number, and the
    two operations, with their rounding, are the parameters [fadd] and
    [fsub], of which nothing is assumed; comparisons of floats are exact.
    Scores, log-probabilities, sums and differences are finite: infinities
    and NaN are outside this embedding. *)
Context (fadd fsub : Qc -> Qc -> Qc).

(** The body of the loop of [select_k_expansions] for the candidates
    [hyp_i] of one hypothesis. *)
Definition expansions_of (gamma : Qc) (hyp_i : list (Z * Qc))
  : result (list (Z * Qc)) :=
  k_best_exp_val ← max_by_snd hyp_i;
  let expansions :=
    sorted_by_snd
      (filter (fun x : Z * Qc => (fsub k_best_exp_val.2 gamma <= x.2)%Qc)
         hyp_i) in
  if decide (0 < length expansions)%nat then Ok expansions
  else Ok [k_best_exp_val].

(** [select_k_expansions(hyps, topk_idxs, topk_logps, gamma, beta)]; [beta]
    is not read. *)
Definition select_k_expansions (hyps : list Hypothesis_)
    (topk_idxs : list (list Z)) (topk_logps : list (list Qc))
    (gamma : Qc) (beta : Z) : result (list (list (Z * Qc))) :=
  mapM_result (fun ih : Z * Hypothesis_ =>
      idxs ← tget topk_idxs ih.1;
      logps ← tget topk_logps ih.1;
      expansions_of gamma
        (zip_with (fun (k : Z) (v : Qc) => (k, fadd (score ih.2) v))
           idxs logps))
    (zip (range (Z.of_nat (length hyps))) hyps).

(** The candidates of one hypothesis: the pairs of [zip(topk_idxs[i],
    topk_logps[i])], each with the score of the hypothesis added. *)
Definition candidates (h : Hypothesis_) (idxs : list Z) (logps : list Qc)
  : list (Z * Qc) :=
  zip_with (fun (k : Z) (v : Qc) => (k, fadd (score h) v)) idxs logps.

End select_k.

(** The number of leading entries of [l] that equal [t]. *)
Fixpoint count_leading (t : Z) (l : list Z) : nat :=
  match l with
  | u :: l' => if decide (u = t) then S (count_leading t l') else 0%nat
  | [] => 0%nat
  end.

(** The number of entries of [l] directly before position [j] that equal
    the entry at position [j]. *)
Definition run_before (l : list Z) (j : nat) : nat :=
  match l !! j with
  | Some t => count_leading t (reverse (take j l))
  | None => 0%nat
  end.

(** ** Vocabulary of the statements about runs of the greedy buffer *)

(** The updates of item [b] in a sequence of calls, the first call first:
    the label, the time index and the score of each call in which the item
    is active. *)
Definition updates_of {C} (upd : C -> nat -> option (Z * Z * Qc))
    (calls : list C) (b : nat) : list (Z * Z * Qc) :=
  omap (fun c => upd c b) calls.

(** The sum of the scores of a list of updates, added in their order. *)
Definition total_score (us : list (Z * Z * Qc)) : Qc :=
  foldl (fun acc (u : Z * Z * Qc) => (acc + u.2)%Qc) 0%Qc us.

(** ** Vocabulary for the alignment buffer *)

(** What a tensor [x] of the alignment buffer holds for item [b]: the stored
    row cut at the write cursor of the item. *)
Definition recorded {A} (x : list (list A)) (lens : list Z) (b : nat)
  : option (list A) :=
  row ← x !! b; n ← lens !! b; Some (slice_to n row).

(** The entry an index-based call carries for item [b], if the item is
    active, and the entry a mask-based call carries. *)
Definition index_frame {A} (idx : list Z) (vals : list A) (b : nat)
  : option A :=
  j ← pos_of b idx; vals !! j.

Definition mask_frame {A} (mask : list bool) (vals : list A) (b : nat)
  : option A :=
  m ← mask !! b; if m : bool then vals !! b else None.

(** The per-frame arguments of [add_results_] and [add_results_masked_]. *)
Record frame_args : Type := FrameArgs {
  fa_time_indices : list Z;
  fa_logits : option (list (list Qc));
  fa_labels : option (list Z);
  fa_confidence : option (list (list Qc))
}.

(** Every argument that is given has [n] entries. *)
Definition frame_args_len (n : nat) (c : frame_args) : Prop :=
  length (fa_time_indices c) = n /\
  from_option (fun x => length x = n) True (fa_logits c) /\
  from_option (fun x => length x = n) True (fa_labels c) /\
  from_option (fun x => length x = n) True (fa_confidence c).

#[global] Instance frame_args_len_dec n c : Decision (frame_args_len n c).
Proof.
  unfold frame_args_len.
  destruct (fa_logits c), (fa_labels c), (fa_confidence c); simpl; apply _.
Defined.

(** A vector fits a cell of [d] entries when the assignment accepts it: it
    has [d] entries, or one entry, which is then repeated. *)
Definition fits {A} (d : nat) (v : list A) : Prop :=
  length v = d \/ length v = 1%nat.

#[global] Instance fits_dec {A} d (v : list A) : Decision (fits d v).
Proof. unfold fits. apply _. Defined.

(** The vector that the assignment stores for [v] in a cell of [d]
    entries. *)
Definition expand_entry {A} (d : nat) (v : list A) : list A :=
  if decide (length v = d) then v
  else match v with
       | x :: _ => replicate d x
       | [] => []
       end.

(** The logit vectors and the confidence entries of a call fit the cells of
    the buffer, where the buffer stores them. *)
Definition frame_args_fit (s : BatchedAlignments.t) (c : frame_args) : Prop :=
  (BatchedAlignments.with_alignments s = true ->
   from_option (Forall (fits (last_dim (BatchedAlignments.logits s)))) True
     (fa_logits c)) /\
  (BatchedAlignments.with_frame_confidence s = true ->
   from_option
     (Forall (fits (last_dim (BatchedAlignments.frame_confidence s)))) True
     (fa_confidence c)).

#[global] Instance frame_args_fit_dec s c : Decision (frame_args_fit s c).
Proof.
  unfold frame_args_fit.
  destruct (fa_logits c), (fa_confidence c); simpl; apply _.
Defined.

(** The shape invariant together with the item indices the constructor
    stores. *)
Definition al_inv (B : nat) (al : BatchedAlignments.t) : Prop :=
  al_wf B al /\ BatchedAlignments._batch_indices al = arange B.

#[global] Instance al_inv_dec B al : Decision (al_inv B al).
Proof. unfold al_inv. apply _. Defined.

(** Tensor [x'] with cursors [lens'] records for item [b] what [x] with
    cursors [lens] does, followed by the entry [new] when there is one. *)
Definition extended {A} (x x' : list (list A)) (lens lens' : list Z) (b : nat)
    (new : option A) : Prop :=
  recorded x' lens' b = (fun fr => fr ++ option_list new) <$> recorded x lens b.

(** The effect of one call on item [b] of the alignment buffer, where
    [frame vals] is the entry of the argument [vals] that the call carries
    for the item, [None] for an inactive item: the cursor advances by one
    exactly for an active item, and every tensor that is stored and given
    records the entry, a logit vector or a confidence entry as the
    assignment broadcasts it to the cell. *)
Definition frame_appended (frame : forall A : Type, list A -> option A)
    (s s' : BatchedAlignments.t) (c : frame_args) (b : nat) : Prop :=
  let lens := BatchedAlignments.current_lengths s in
  let lens' := BatchedAlignments.current_lengths s' in
  lens' !! b =
    (fun n => match frame Z (fa_time_indices c) with
              | Some _ => n + 1
              | None => n
              end) <$> lens !! b /\
  extended (BatchedAlignments.timesteps s) (BatchedAlignments.timesteps s')
    lens lens' b (frame Z (fa_time_indices c)) /\
  (BatchedAlignments.with_alignments s = true ->
   forall lg lb, fa_logits c = Some lg -> fa_labels c = Some lb ->
     extended (BatchedAlignments.logits s) (BatchedAlignments.logits s')
       lens lens' b
       (frame _ (expand_entry (last_dim (BatchedAlignments.logits s))
                   <$> lg)) /\
     extended (BatchedAlignments.labels s) (BatchedAlignments.labels s')
       lens lens' b (frame Z lb)) /\
  (BatchedAlignments.with_frame_confidence s = true ->
   forall cf, fa_confidence c = Some cf ->
     extended (BatchedAlignments.frame_confidence s)
       (BatchedAlignments.frame_confidence s') lens lens' b
       (frame _ (expand_entry
                   (last_dim (BatchedAlignments.frame_confidence s))
                   <$> cf))).

(** The flags of the buffer, which no operation changes. *)
Definition same_flags (s s' : BatchedAlignments.t) : Prop :=
  BatchedAlignments.with_alignments s' = BatchedAlignments.with_alignments s /\
  BatchedAlignments.with_frame_confidence s'
    = BatchedAlignments.with_frame_confidence s /\
  BatchedAlignments.with_duration_confidence s'
    = BatchedAlignments.with_duration_confidence s.

(** An index-based call on the alignment buffer: the item indices and the
    per-frame arguments; a valid call for the buffer [s] of [B] items names
    distinct items of the batch and gives one entry per index, which fits
    the cells of [s]. *)
Definition valid_frame_call (B : nat) (s : BatchedAlignments.t)
    (ic : list Z * frame_args) : Prop :=
  NoDup ic.1 /\ Forall (fun i => 0 <= i < Z.of_nat B) ic.1 /\
  frame_args_len (length ic.1) ic.2 /\ frame_args_fit s ic.2.

#[global] Instance valid_frame_call_dec B s ic
  : Decision (valid_frame_call B s ic).
Proof. unfold valid_frame_call. apply _. Defined.

(** A sequence of [add_results_] calls on the alignment buffer. *)
Fixpoint al_run (s : BatchedAlignments.t) (calls : list (list Z * frame_args))
  : result BatchedAlignments.t :=
  match calls with
  | [] => Ok s
  | ic :: calls' =>
      s' ← BatchedAlignments.add_results_ s ic.1 (fa_time_indices ic.2)
             (fa_logits ic.2) (fa_labels ic.2) (fa_confidence ic.2);
      al_run s' calls'
  end.

(** The time indices the calls carry for item [b], in call order. *)
Definition frames_of (calls : list (list Z * frame_args)) (b : nat) : list Z :=
  omap (fun ic => index_frame ic.1 (fa_time_indices ic.2) b) calls.

(** ** Inputs of the examples *)

(** Two hypotheses of scores -1 and 0 with three and two candidates. *)
Definition demo_expand_hyps : list Hypothesis_ :=
  [Hypothesis_new (Q2Qc (-1)) [3] [0]; Hypothesis_new (Q2Qc 0) [] []].

Definition demo_topk_idxs : list (list Z) := [[1; 2; 3]; [4; 5]].

Definition demo_topk_logps : list (list Qc) :=
  [[Q2Qc (-1 # 2); Q2Qc (-1 # 4); Q2Qc (-1 # 4)]; [Q2Qc (-1); Q2Qc (-2)]].

(** A greedy buffer of two items of capacity 1 whose second row is full. *)
Definition demo_full_hyps : BatchedHyps.t :=
  Eval vm_compute in
    from_result empty_hyps
      (s ← BatchedHyps.init 2 1;
       BatchedHyps.add_results_ s [1] [9] [0] [Q2Qc 0]).

(** A fresh alignment buffer of one item and capacity 2 that stores
    alignments. *)
Definition demo_fresh_alignments : BatchedAlignments.t :=
  Eval vm_compute in
    from_result empty_alignments
      (BatchedAlignments.init 1 1 2 true false false).

(** A fresh alignment buffer of one item and capacity 2 for logit vectors
    of two entries. *)
Definition demo_wide_alignments : BatchedAlignments.t :=
  Eval vm_compute in
    from_result empty_alignments
      (BatchedAlignments.init 1 2 2 true false false).

(** One frame for item 0: time index 3, a logit vector of one entry and the
    label 5. *)
Definition demo_frame : frame_args :=
  FrameArgs [3] (Some [[Q2Qc (1 # 2)]]) (Some [5]) None.

(** Three calls on a one-item alignment buffer, the second one without an
    active item. *)
Definition demo_frame_calls : list (list Z * frame_args) :=
  [ ([0], FrameArgs [0] (Some [[Q2Qc 0]]) (Some [8]) None);
    ([], FrameArgs [] None None None);
    ([0], FrameArgs [1] (Some [[Q2Qc 0]]) (Some [3]) None) ].

(** * Properties *)

(** ** Facts about the error monad and the tensor primitives *)

Lemma bind_Ok {A B} (m : result A) (f : A -> result B) (a : A) :
  m = Ok a -> m ≫= f = f a.
Proof. by intros ->. Qed.

Lemma bind_Ok_inv {A B} (m : result A) (f : A -> result B) (b : B) :
  m ≫= f = Ok b -> exists a, m = Ok a /\ f a = Ok b.
Proof. destruct m as [a|e]; simpl; [eauto | discriminate]. Qed.

Lemma norm_index_in_range n i :
  0 <= i < Z.of_nat n -> norm_index n i = Ok (Z.to_nat i).
Proof. intros H. unfold norm_index. by rewrite decide_True. Qed.

Lemma tget_in_range {A} (t : list A) i x :
  0 <= i -> t !! Z.to_nat i = Some x -> tget t i = Ok x.
Proof.
  intros Hi Hx. unfold tget.
  rewrite norm_index_in_range; simpl.
  - by rewrite Hx.
  - apply lookup_lt_Some in Hx. lia.
Qed.

Lemma tset_in_range {A} (t : list A) i x :
  0 <= i < Z.of_nat (length t) -> tset t i x = Ok (<[Z.to_nat i := x]> t).
Proof. intros Hi. unfold tset. by rewrite norm_index_in_range. Qed.

Lemma pos_of_Some b idx j :
  pos_of b idx = Some j -> idx !! j = Some (Z.of_nat b).
Proof.
  revert j. induction idx as [|i idx IH]; intros j; simpl; [done|].
  case_decide as Hi.
  - intros [= <-]. by subst.
  - destruct (pos_of b idx) as [j'|]; simpl; [|done].
    intros [= <-]. by apply IH.
Qed.

Lemma pos_of_None b idx : pos_of b idx = None <-> Z.of_nat b ∉ idx.
Proof.
  induction idx as [|i idx IH]; simpl.
  - split; [intros _; apply not_elem_of_nil | done].
  - rewrite not_elem_of_cons. case_decide as Hi.
    + split; [done | intros [? _]; congruence].
    + destruct (pos_of b idx) as [j'|]; simpl.
      * split; [done|]. intros [_ H]. by apply IH in H.
      * split; [|done]. intros _. split; [congruence | by apply IH].
Qed.

Lemma pos_of_lookup b idx j :
  NoDup idx -> idx !! j = Some (Z.of_nat b) -> pos_of b idx = Some j.
Proof.
  intros Hnd Hj. destruct (pos_of b idx) as [j'|] eqn:Hp.
  - apply pos_of_Some in Hp. f_equal. by eapply NoDup_lookup.
  - apply pos_of_None in Hp. exfalso. apply Hp. by eapply list_elem_of_lookup_2.
Qed.

Lemma index_get_ok {A} (t : list A) idx :
  Forall (fun i => 0 <= i < Z.of_nat (length t)) idx ->
  exists g, index_get t idx = Ok g /\
            Forall2 (fun i x => t !! Z.to_nat i = Some x) idx g.
Proof.
  induction 1 as [|i idx Hi _ [g [Hg HF]]]; simpl.
  - by exists [].
  - destruct (lookup_lt_is_Some_2 t (Z.to_nat i)) as [x Hx]; [lia|].
    exists (x :: g). rewrite (tget_in_range _ _ x) by (done || lia). simpl.
    rewrite Hg. simpl. split; [done | by constructor].
Qed.

Lemma index_put_ok {A} (t : list A) idx vals :
  NoDup idx ->
  Forall (fun i => 0 <= i < Z.of_nat (length t)) idx ->
  length vals = length idx ->
  exists t', index_put t idx vals = Ok t' /\ length t' = length t /\
    forall b, t' !! b = match pos_of b idx with
                        | Some j => vals !! j
                        | None => t !! b
                        end.
Proof.
  intros Hnd. revert t vals.
  induction Hnd as [|i idx Hni Hnd IH]; intros t vals Hr Hl.
  - destruct vals; [|done]. by exists t.
  - destruct vals as [|v vals]; [done|]. simpl in Hl.
    inversion_clear Hr as [|? ? Hi Hr']. simpl.
    rewrite tset_in_range by done. simpl.
    destruct (IH (<[Z.to_nat i := v]> t) vals) as (t' & Ht' & Hlen & Hlk).
    { by rewrite length_insert. }
    { lia. }
    exists t'. split; [done|]. rewrite Hlen, length_insert. split; [done|].
    intros b. rewrite Hlk. case_decide as Hib.
    + subst i. apply pos_of_None in Hni. rewrite Hni. simpl.
      rewrite Nat2Z.id. apply list_lookup_insert_eq. lia.
    + destruct (pos_of b idx); simpl; [done|].
      apply list_lookup_insert_ne. lia.
Qed.

Lemma index_put2_ok {A} (t : list (list A)) idx cols vals :
  NoDup idx ->
  Forall (fun i => 0 <= i < Z.of_nat (length t)) idx ->
  length cols = length idx ->
  length vals = length idx ->
  (forall j i c row, idx !! j = Some i -> cols !! j = Some c ->
     t !! Z.to_nat i = Some row -> 0 <= c < Z.of_nat (length row)) ->
  exists t', index_put2 t idx cols vals = Ok t' /\ length t' = length t /\
    forall b, t' !! b = match pos_of b idx with
                        | Some j =>
                            row ← t !! b; c ← cols !! j; v ← vals !! j;
                            Some (<[Z.to_nat c := v]> row)
                        | None => t !! b
                        end.
Proof.
  intros Hnd. revert t cols vals.
  induction Hnd as [|i idx Hni Hnd IH]; intros t cols vals Hr Hlc Hlv Hc.
  - destruct cols; [|done]. destruct vals; [|done]. by exists t.
  - destruct cols as [|c cols]; [done|]. destruct vals as [|v vals]; [done|].
    simpl in Hlc, Hlv. inversion_clear Hr as [|? ? Hi Hr']. simpl.
    destruct (lookup_lt_is_Some_2 t (Z.to_nat i)) as [row Hrow]; [lia|].
    rewrite (tget_in_range _ _ row) by (done || lia). simpl.
    rewrite tset_in_range by (by apply (Hc 0%nat i c row)). simpl.
    rewrite tset_in_range by done. simpl.
    set (t1 := <[Z.to_nat i := <[Z.to_nat c := v]> row]> t).
    destruct (IH t1 cols vals) as (t' & Ht' & Hlen & Hlk).
    { unfold t1. by rewrite length_insert. }
    { lia. }
    { lia. }
    { intros j i' c' row' Hj Hcj Hrow'. apply (Hc (S j) i' c' row'); [done..|].
      unfold t1 in Hrow'. rewrite list_lookup_insert_ne in Hrow'; [done|].
      intros Heq. apply Hni.
      pose proof (Forall_lookup_1 _ _ _ _ Hr' Hj) as Hi'. simpl in Hi'.
      apply list_elem_of_lookup_2 in Hj.
      assert (i = i') as -> by lia. done. }
    exists t'. split; [done|]. rewrite Hlen. unfold t1 at 1.
    rewrite length_insert. split; [done|].
    intros b. rewrite Hlk. case_decide as Hib.
    + subst i. apply pos_of_None in Hni. rewrite Hni. simpl.
      unfold t1. rewrite Nat2Z.id in *. rewrite Hrow. simpl.
      apply list_lookup_insert_eq. apply lookup_lt_Some in Hrow. done.
    + destruct (pos_of b idx) as [j|]; simpl.
      * unfold t1. rewrite list_lookup_insert_ne by lia. done.
      * unfold t1. apply list_lookup_insert_ne. lia.
Qed.

Lemma zip_same_ok {A B C} (f : A -> B -> C) a b :
  length a = length b -> zip_same f a b = Ok (zip_with f a b).
Proof. intros H. unfold zip_same. by rewrite decide_True. Qed.

Lemma where_list_length {A} cond (a b : list A) :
  length (where_list cond a b)
  = (length cond `min` (length a `min` length b))%nat.
Proof. unfold where_list. by rewrite !length_zip_with. Qed.

Ltac ok := cbn [mbind result_bind].

Ltac len :=
  repeat first
    [ rewrite where_list_length | rewrite length_zip_with
    | rewrite length_fmap | rewrite length_replicate
    | rewrite length_insert | rewrite length_seqZ ];
  lia.

Lemma where_ok {A} cond (a b : list A) :
  length cond = length a -> length a = length b ->
  where_ cond a b = Ok (where_list cond a b).
Proof.
  intros H1 H2. unfold where_. rewrite zip_same_ok by done. simpl.
  rewrite zip_same_ok; [done|]. len.
Qed.

Lemma where_list_lookup {A} cond (a b : list A) j :
  where_list cond a b !! j =
    (c ← cond !! j; x ← a !! j; y ← b !! j; Some (if c : bool then x else y)).
Proof.
  unfold where_list. rewrite !lookup_zip_with.
  destruct (cond !! j) as [c|]; simpl; [|done].
  destruct (a !! j); simpl; [|done]. by destruct (b !! j).
Qed.

Lemma tensor_max_ok t :
  t <> [] -> exists m, tensor_max t = Ok m /\ Forall (fun x => x <= m) t /\ m ∈ t.
Proof.
  destruct t as [|x t]; [done|]. intros _. simpl. eexists. split; [done|].
  induction t as [|y t [IH1 IH2]]; simpl.
  - split; [constructor; [lia|constructor] | apply list_elem_of_here].
  - inversion_clear IH1 as [|? ? Hx Ht]. split.
    + constructor; [lia|]. constructor; [lia|].
      eapply Forall_impl; [exact Ht|]. simpl. intros. lia.
    + destruct (Z.max_spec y (foldr Z.max x t)) as [[_ ->]|[_ ->]].
      * apply elem_of_cons in IH2 as [->|IH2];
          [apply list_elem_of_here | do 2 apply list_elem_of_further; done].
      * apply list_elem_of_further, list_elem_of_here.
Qed.

Lemma arange_range B : Forall (fun i => 0 <= i < Z.of_nat B) (arange B).
Proof.
  apply Forall_lookup_2. intros j i Hj. unfold arange in Hj.
  apply lookup_seqZ in Hj. lia.
Qed.

Lemma NoDup_arange B : NoDup (arange B).
Proof.
  apply NoDup_alt. intros i j x Hi Hj. unfold arange in *.
  apply lookup_seqZ in Hi, Hj. lia.
Qed.

Lemma pos_of_arange B b : (b < B)%nat -> pos_of b (arange B) = Some b.
Proof.
  intros Hb. apply pos_of_lookup; [apply NoDup_arange|].
  unfold arange. rewrite lookup_seqZ_lt by lia. f_equal.
Qed.

Lemma length_arange B : length (arange B) = B.
Proof. unfold arange. rewrite length_seqZ. lia. Qed.

Lemma lookup_arange B j : (j < B)%nat -> arange B !! j = Some (Z.of_nat j).
Proof. intros. unfold arange. rewrite lookup_seqZ_lt by lia. f_equal. Qed.

(** ** The mask-based path, field by field *)

Section masked_raw.

Context (B : nat) (s : BatchedHyps.t) (c : mask_call).

Hypothesis Hwf : wf B s.

Hypothesis Hc : valid_mask_call B c.

Hypothesis Hroom :
  Forall (fun n => n < BatchedHyps._max_length s) (BatchedHyps.current_lengths s).

Lemma masked_no_checks_raw :
  exists s',
    BatchedHyps.add_results_masked_no_checks_ s (mc_active_mask c)
      (mc_labels c) (mc_time_indices c) (mc_scores c) = Ok s' /\
    BatchedHyps._max_length s' = BatchedHyps._max_length s /\
    BatchedHyps._batch_indices s' = BatchedHyps._batch_indices s /\
    BatchedHyps._ones_batch s' = BatchedHyps._ones_batch s /\
    BatchedHyps.scores s' =
      where_list (mc_active_mask c)
        (zip_with Qcplus (BatchedHyps.scores s) (mc_scores c))
        (BatchedHyps.scores s) /\
    BatchedHyps.current_lengths s' =
      zip_with (fun l (m : bool) => l + bool_to_Z m)
        (BatchedHyps.current_lengths s) (mc_active_mask c) /\
    BatchedHyps.last_timestep s' =
      where_list (mc_active_mask c) (mc_time_indices c)
        (BatchedHyps.last_timestep s) /\
    (forall (b : nat) (m : bool) (last t lasts : Z),
       mc_active_mask c !! b = Some m ->
       BatchedHyps.last_timestep s !! b = Some last ->
       mc_time_indices c !! b = Some t ->
       BatchedHyps.last_timestep_lasts s !! b = Some lasts ->
       BatchedHyps.last_timestep_lasts s' !! b =
         Some (if m then if decide (last = t) then lasts + 1 else 1
               else lasts)) /\
    length (BatchedHyps.last_timestep_lasts s') = B /\
    length (BatchedHyps.transcript s') = B /\
    length (BatchedHyps.timesteps s') = B /\
    (forall (b : nat) (row : list Z) (n l : Z), (b < B)%nat ->
       BatchedHyps.transcript s !! b = Some row ->
       BatchedHyps.current_lengths s !! b = Some n ->
       mc_labels c !! b = Some l ->
       BatchedHyps.transcript s' !! b = Some (<[Z.to_nat n := l]> row)) /\
    (forall (b : nat) (row : list Z) (n t : Z), (b < B)%nat ->
       BatchedHyps.timesteps s !! b = Some row ->
       BatchedHyps.current_lengths s !! b = Some n ->
       mc_time_indices c !! b = Some t ->
       BatchedHyps.timesteps s' !! b = Some (<[Z.to_nat n := t]> row)).
Proof.
  destruct Hwf as [HL Hcl Hsc Hlt Hll Htr0 Hts0 Hbi Hob Htrr Htsr Hcur].
  destruct Hc as (Hm & Hl & Ht & Hs).
  unfold BatchedHyps.add_results_masked_no_checks_.
  rewrite Hob.
  rewrite Hbi.
  destruct (index_put2_ok (BatchedHyps.transcript s) (arange B)
              (BatchedHyps.current_lengths s) (mc_labels c))
    as (tr & -> & Htrl & Htr).
  { apply NoDup_arange. }
  { rewrite Htr0. apply arange_range. }
  { rewrite length_arange. lia. }
  { rewrite length_arange. lia. }
  { intros j i n row Hj Hn Hrow.
    pose proof (Forall_lookup_1 _ _ _ _ Hcur Hn) as H1.
    pose proof (Forall_lookup_1 _ _ _ _ Hroom Hn) as H2.
    pose proof (Forall_lookup_1 _ _ _ _ Htrr Hrow) as H3.
    simpl in *. lia. }
  ok.
  destruct (index_put2_ok (BatchedHyps.timesteps s) (arange B)
              (BatchedHyps.current_lengths s) (mc_time_indices c))
    as (ts & -> & Htsl & Hts).
  { apply NoDup_arange. }
  { rewrite Hts0. apply arange_range. }
  { rewrite length_arange. lia. }
  { rewrite length_arange. lia. }
  { intros j i n row Hj Hn Hrow.
    pose proof (Forall_lookup_1 _ _ _ _ Hcur Hn) as H1.
    pose proof (Forall_lookup_1 _ _ _ _ Hroom Hn) as H2.
    pose proof (Forall_lookup_1 _ _ _ _ Htsr Hrow) as H3.
    simpl in *. lia. }
  ok.
  repeat (first [rewrite zip_same_ok by len | rewrite where_ok by len]; ok).
  eexists. split; [reflexivity|]. simpl.
  repeat (split; [done|]).
  split; [|split; [|split; [lia|split; [lia|split]]]].
  - intros b m last t lasts Hbm Hlast Hbt Hlasts.
    rewrite where_list_lookup, !lookup_zip_with, list_lookup_fmap,
      lookup_zip_with, where_list_lookup, !lookup_zip_with,
      list_lookup_fmap.
    rewrite Hbm, Hlast, Hbt, Hlasts. simpl.
    rewrite lookup_replicate_2
      by (apply lookup_lt_Some in Hbm; lia). simpl.
    destruct m; simpl; [|done].
    case_decide; [rewrite bool_decide_eq_true_2 by done|rewrite bool_decide_eq_false_2 by done]; done.
  - len.
  - intros b row n l Hb Hrow Hn Hlb.
    rewrite Htr, pos_of_arange, Hrow by done. simpl. by rewrite Hn, Hlb.
  - intros b row n t Hb Hrow Hn Htb.
    rewrite Hts, pos_of_arange, Hrow by done. simpl. by rewrite Hn, Htb.
Qed.

End masked_raw.

Lemma gather_lookup {A} (t : list A) idx g b j :
  Forall2 (fun i x => t !! Z.to_nat i = Some x) idx g ->
  pos_of b idx = Some j -> g !! j = t !! b.
Proof.
  intros HF Hp. apply pos_of_Some in Hp.
  destruct (Forall2_lookup_l _ _ _ _ _ HF Hp) as (x & -> & Hx).
  by rewrite Nat2Z.id in Hx.
Qed.

(** ** The index-based path, field by field *)

Section index_raw.

Context (B : nat) (s : BatchedHyps.t) (c : index_call).

Hypothesis Hwf : wf B s.

Hypothesis Hc : valid_index_call B c.

Hypothesis Hroom :
  forall j i n, ic_active_indices c !! j = Some i ->
    BatchedHyps.current_lengths s !! Z.to_nat i = Some n ->
    n < BatchedHyps._max_length s.

Lemma index_no_checks_raw :
  exists s',
    BatchedHyps.add_results_no_checks_ s (ic_active_indices c)
      (ic_labels c) (ic_time_indices c) (ic_scores c) = Ok s' /\
    BatchedHyps._max_length s' = BatchedHyps._max_length s /\
    BatchedHyps._batch_indices s' = BatchedHyps._batch_indices s /\
    BatchedHyps._ones_batch s' = BatchedHyps._ones_batch s /\
    length (BatchedHyps.scores s') = B /\
    length (BatchedHyps.current_lengths s') = B /\
    length (BatchedHyps.last_timestep s') = B /\
    length (BatchedHyps.last_timestep_lasts s') = B /\
    length (BatchedHyps.transcript s') = B /\
    length (BatchedHyps.timesteps s') = B /\
    forall b : nat,
      match pos_of b (ic_active_indices c) with
      | None =>
          BatchedHyps.scores s' !! b = BatchedHyps.scores s !! b /\
          BatchedHyps.current_lengths s' !! b
            = BatchedHyps.current_lengths s !! b /\
          BatchedHyps.last_timestep s' !! b
            = BatchedHyps.last_timestep s !! b /\
          BatchedHyps.last_timestep_lasts s' !! b
            = BatchedHyps.last_timestep_lasts s !! b /\
          BatchedHyps.transcript s' !! b = BatchedHyps.transcript s !! b /\
          BatchedHyps.timesteps s' !! b = BatchedHyps.timesteps s !! b
      | Some j =>
          BatchedHyps.scores s' !! b =
            (x ← BatchedHyps.scores s !! b; y ← ic_scores c !! j;
             Some (x + y)%Qc) /\
          BatchedHyps.current_lengths s' !! b =
            (fun n => n + 1) <$> BatchedHyps.current_lengths s !! b /\
          BatchedHyps.last_timestep s' !! b = ic_time_indices c !! j /\
          BatchedHyps.last_timestep_lasts s' !! b =
            (last ← BatchedHyps.last_timestep s !! b;
             t ← ic_time_indices c !! j;
             lasts ← BatchedHyps.last_timestep_lasts s !! b;
             Some (if decide (last = t) then lasts + 1 else 1)) /\
          BatchedHyps.transcript s' !! b =
            (row ← BatchedHyps.transcript s !! b;
             n ← BatchedHyps.current_lengths s !! b;
             l ← ic_labels c !! j;
             Some (<[Z.to_nat n := l]> row)) /\
          BatchedHyps.timesteps s' !! b =
            (row ← BatchedHyps.timesteps s !! b;
             n ← BatchedHyps.current_lengths s !! b;
             t ← ic_time_indices c !! j;
             Some (<[Z.to_nat n := t]> row))
      end.
Proof.
  destruct Hwf as [HL Hcl Hsc Hlt Hll Htr0 Hts0 Hbi Hob Htrr Htsr Hcur].
  destruct Hc as (Hnd & Hr & Hl & Ht & Hs).
  unfold BatchedHyps.add_results_no_checks_.
  destruct (index_get_ok (BatchedHyps.scores s) (ic_active_indices c))
    as (g1 & -> & Hg1); [by rewrite Hsc|]. ok.
  pose proof (Forall2_length _ _ _ Hg1) as Hg1l.
  rewrite zip_same_ok by lia. ok.
  destruct (index_put_ok (BatchedHyps.scores s) (ic_active_indices c)
              (zip_with Qcplus g1 (ic_scores c)))
    as (sc' & -> & Hsc'l & Hsc'); [done | by rewrite Hsc | len |]. ok.
  destruct (index_get_ok (BatchedHyps.current_lengths s)
              (ic_active_indices c))
    as (g2 & -> & Hg2); [by rewrite Hcl|]. ok.
  pose proof (Forall2_length _ _ _ Hg2) as Hg2l.
  assert (Hcols : forall (j : nat) (i n : Z) (row : list Z),
            ic_active_indices c !! j = Some i -> g2 !! j = Some n ->
            Z.of_nat (length row) = BatchedHyps._max_length s ->
            0 <= n < Z.of_nat (length row)).
  { intros j i n row Hj Hn Hrow.
    destruct (Forall2_lookup_l _ _ _ _ _ Hg2 Hj) as (n' & Hn' & Hin).
    assert (n' = n) as -> by congruence.
    pose proof (Forall_lookup_1 _ _ _ _ Hcur Hin) as H1. simpl in H1.
    pose proof (Hroom _ _ _ Hj Hin). lia. }
  destruct (index_put2_ok (BatchedHyps.transcript s) (ic_active_indices c)
              g2 (ic_labels c))
    as (tr' & -> & Htr'l & Htr'); [done | by rewrite Htr0 | lia | lia | |].
  { intros j i n row Hj Hn Hrow. apply (Hcols j i n row Hj Hn).
    apply (Forall_lookup_1 _ _ _ _ Htrr Hrow). }
  ok.
  destruct (index_put2_ok (BatchedHyps.timesteps s) (ic_active_indices c)
              g2 (ic_time_indices c))
    as (ts' & -> & Hts'l & Hts'); [done | by rewrite Hts0 | lia | lia | |].
  { intros j i n row Hj Hn Hrow. apply (Hcols j i n row Hj Hn).
    apply (Forall_lookup_1 _ _ _ _ Htsr Hrow). }
  ok.
  destruct (index_get_ok (BatchedHyps.last_timestep s)
              (ic_active_indices c))
    as (g3 & -> & Hg3); [by rewrite Hlt|]. ok.
  pose proof (Forall2_length _ _ _ Hg3) as Hg3l.
  destruct (index_get_ok (BatchedHyps.last_timestep_lasts s)
              (ic_active_indices c))
    as (g4 & -> & Hg4); [by rewrite Hll|]. ok.
  pose proof (Forall2_length _ _ _ Hg4) as Hg4l.
  rewrite zip_same_ok by lia. ok.
  unfold fill_. rewrite where_ok by len. ok.
  destruct (index_put_ok (BatchedHyps.last_timestep_lasts s)
              (ic_active_indices c)
              (where_list
                 (zip_with (fun a b : Z => bool_decide (a = b)) g3
                    (ic_time_indices c))
                 ((fun x => x + 1) <$> g4) ((fun _ => 1) <$> g4)))
    as (ll' & -> & Hll'l & Hll'); [done | by rewrite Hll | len |]. ok.
  destruct (index_put_ok (BatchedHyps.last_timestep s)
              (ic_active_indices c) (ic_time_indices c))
    as (lt' & -> & Hlt'l & Hlt'); [done | by rewrite Hlt | lia |]. ok.
  destruct (index_put_ok (BatchedHyps.current_lengths s)
              (ic_active_indices c) ((fun x => x + 1) <$> g2))
    as (cl' & -> & Hcl'l & Hcl'); [done | by rewrite Hcl | len |]. ok.
  eexists. split; [reflexivity|]. simpl.
  repeat (split; [done || lia|]).
  intros b. specialize (Hsc' b). specialize (Htr' b). specialize (Hts' b).
  specialize (Hll' b). specialize (Hlt' b). specialize (Hcl' b).
  destruct (pos_of b (ic_active_indices c)) as [j|] eqn:Hp; [|done].
  pose proof (gather_lookup _ _ _ _ _ Hg1 Hp) as E1.
  pose proof (gather_lookup _ _ _ _ _ Hg2 Hp) as E2.
  pose proof (gather_lookup _ _ _ _ _ Hg3 Hp) as E3.
  pose proof (gather_lookup _ _ _ _ _ Hg4 Hp) as E4.
  rewrite Hsc', Hcl', Hlt', Hll', Htr', Hts'.
  rewrite where_list_lookup, !lookup_zip_with, !list_lookup_fmap.
  rewrite E1, E2, E3, E4.
  repeat split; try done.
  destruct (BatchedHyps.last_timestep s !! b) as [last|]; simpl; [|done].
  destruct (ic_time_indices c !! j) as [t|]; simpl; [|done].
  destruct (BatchedHyps.last_timestep_lasts s !! b) as [lasts|]; simpl;
    [|done].
  by case_decide;
    [rewrite bool_decide_eq_true_2 by done
    |rewrite bool_decide_eq_false_2 by done].
Qed.

End index_raw.

(** ** Slices of rows *)

Lemma slice_to_nonneg {A} n (t : list A) :
  0 <= n -> slice_to n t = take (Z.to_nat n) t.
Proof. intros. unfold slice_to. by rewrite decide_True. Qed.

Lemma slice_to_length {A} n (t : list A) :
  0 <= n <= Z.of_nat (length t) -> length (slice_to n t) = Z.to_nat n.
Proof. intros. rewrite slice_to_nonneg, length_take by lia. lia. Qed.

Lemma slice_to_insert_cursor {A} n (row : list A) x :
  0 <= n -> slice_to n (<[Z.to_nat n := x]> row) = slice_to n row.
Proof. intros. rewrite !slice_to_nonneg by done. by rewrite take_insert_ge. Qed.

Lemma slice_to_insert_snoc {A} n (row : list A) x :
  0 <= n < Z.of_nat (length row) ->
  slice_to (n + 1) (<[Z.to_nat n := x]> row) = slice_to n row ++ [x].
Proof.
  intros. rewrite !slice_to_nonneg by lia.
  replace (Z.to_nat (n + 1)) with (S (Z.to_nat n)) by lia.
  rewrite (take_S_r _ _ x) by (apply list_lookup_insert_eq; lia).
  by rewrite take_insert_ge.
Qed.

Lemma slice_to_app {A} n (row ext : list A) :
  0 <= n <= Z.of_nat (length row) -> slice_to n (row ++ ext) = slice_to n row.
Proof. intros. rewrite !slice_to_nonneg by lia. apply take_app_le. lia. Qed.

(** ** Growth *)

Lemma double_rows_lookup x b :
  BatchedHyps.double_rows x !! b = (fun row => row ++ fill_ 0 row) <$> x !! b.
Proof. unfold BatchedHyps.double_rows. apply list_lookup_fmap. Qed.

Lemma double_rows_shape x n :
  Forall (fun row : list Z => Z.of_nat (length row) = n) x ->
  Forall (fun row : list Z => Z.of_nat (length row) = n * 2)
    (BatchedHyps.double_rows x).
Proof.
  intros H. unfold BatchedHyps.double_rows. apply Forall_fmap.
  eapply Forall_impl; [exact H|]. simpl. intros row Hrow.
  unfold fill_. rewrite length_app, length_fmap. lia.
Qed.

Lemma allocate_more_wf B s :
  wf B s -> wf B (BatchedHyps._allocate_more s).
Proof.
  intros [HL Hcl Hsc Hlt Hll Htr0 Hts0 Hbi Hob Htrr Htsr Hcur].
  constructor; simpl; try done.
  - lia.
  - unfold BatchedHyps.double_rows. by rewrite length_fmap.
  - unfold BatchedHyps.double_rows. by rewrite length_fmap.
  - by apply double_rows_shape.
  - by apply double_rows_shape.
  - eapply Forall_impl; [exact Hcur|]. simpl. intros. lia.
Qed.

Lemma allocate_more_item B s b :
  wf B s -> item_of (BatchedHyps._allocate_more s) b = item_of s b.
Proof.
  intros [HL Hcl Hsc Hlt Hll Htr0 Hts0 Hbi Hob Htrr Htsr Hcur].
  unfold item_of. simpl. rewrite !double_rows_lookup.
  destruct (BatchedHyps.scores s !! b); simpl; [|done].
  destruct (BatchedHyps.current_lengths s !! b) as [n|] eqn:Hn; simpl; [|done].
  destruct (BatchedHyps.last_timestep s !! b); simpl; [|done].
  destruct (BatchedHyps.last_timestep_lasts s !! b); simpl; [|done].
  destruct (BatchedHyps.transcript s !! b) as [row|] eqn:Hrow; simpl; [|done].
  destruct (BatchedHyps.timesteps s !! b) as [trow|] eqn:Htrow; simpl; [|done].
  pose proof (Forall_lookup_1 _ _ _ _ Hcur Hn) as H1.
  pose proof (Forall_lookup_1 _ _ _ _ Htrr Hrow) as H2.
  pose proof (Forall_lookup_1 _ _ _ _ Htsr Htrow) as H3. simpl in *.
  by rewrite !slice_to_app by lia.
Qed.

(** ** One call of either path refines the append contract *)

Lemma fmap_id_eq {A} (o : option A) : o = (fun x => x) <$> o.
Proof. by destruct o. Qed.

Lemma call_index_spec B s c :
  wf B s -> valid_index_call B c ->
  exists s', call_index s c = Ok s' /\ wf B s' /\
    forall b, (b < B)%nat ->
      item_of s' b = (fun it => append_item it (index_update c b)) <$> item_of s b.
Proof.
  intros Hwf Hc. unfold call_index, BatchedHyps.add_results_.
  case_decide as Hempty.
  { exists s. split; [done|]. split; [done|]. intros b _.
    apply nil_length_inv in Hempty. unfold index_update. rewrite Hempty.
    simpl. apply fmap_id_eq. }
  assert (HB : (0 < B)%nat).
  { destruct Hc as (_ & Hr & _). destruct (ic_active_indices c) as [|i ?];
      [done|]. inversion_clear Hr. lia. }
  destruct (tensor_max_ok (BatchedHyps.current_lengths s))
    as (m & -> & Hmax & _).
  { intros Hnil. pose proof (wf_current_lengths _ _ Hwf) as Hcl0.
    rewrite Hnil in Hcl0. simpl in Hcl0. lia. }
  ok.
  set (s0 := if decide (m >= BatchedHyps._max_length s)
             then BatchedHyps._allocate_more s else s).
  assert (Hwf0 : wf B s0).
  { unfold s0. case_decide; [by apply allocate_more_wf | done]. }
  assert (Hitem0 : forall b, item_of s0 b = item_of s b).
  { intros b. unfold s0. case_decide; [by eapply allocate_more_item | done]. }
  assert (Hroom : Forall (fun n => n < BatchedHyps._max_length s0)
                    (BatchedHyps.current_lengths s0)).
  { unfold s0. case_decide as Hm; simpl.
    - eapply Forall_impl; [exact (wf_cursor _ _ Hwf)|].
      pose proof (wf_max_length _ _ Hwf). simpl. lia.
    - eapply Forall_impl; [exact Hmax|]. simpl. lia. }
  destruct (index_no_checks_raw B s0 c Hwf0 Hc)
    as (s' & Hs' & HL' & Hbi' & Hob' & Hsc' & Hcl' & Hlt' & Hll' & Htr' & Hts'
        & Hraw).
  { intros j i n _ Hn. apply (Forall_lookup_1 _ _ _ _ Hroom Hn). }
  exists s'. split; [done|].
  destruct Hwf0 as [HL Hcl Hsc Hlt Hll Htr0 Hts0 Hbi Hob Htrr Htsr Hcur].
  destruct Hc as (Hnd & Hr & Hl & Ht & Hs).
  assert (Hact : forall b j, pos_of b (ic_active_indices c) = Some j ->
            exists l t x, ic_labels c !! j = Some l /\
              ic_time_indices c !! j = Some t /\ ic_scores c !! j = Some x).
  { intros b j Hp. apply pos_of_Some, lookup_lt_Some in Hp.
    destruct (lookup_lt_is_Some_2 (ic_labels c) j) as [l Hl']; [lia|].
    destruct (lookup_lt_is_Some_2 (ic_time_indices c) j) as [t Ht']; [lia|].
    destruct (lookup_lt_is_Some_2 (ic_scores c) j) as [x Hx']; [lia|].
    by exists l, t, x. }
  split.
  - constructor; try done; try congruence.
    + apply Forall_lookup_2. intros b row' Hrow'. specialize (Hraw b).
      rewrite HL'.
      destruct (pos_of b (ic_active_indices c)) as [j|] eqn:Hp.
      * destruct Hraw as (_ & _ & _ & _ & E & _). rewrite E in Hrow'.
        destruct (BatchedHyps.transcript s0 !! b) as [row|] eqn:Hrow;
          simpl in Hrow'; [|done].
        destruct (BatchedHyps.current_lengths s0 !! b); simpl in Hrow'; [|done].
        destruct (ic_labels c !! j); simpl in Hrow'; [|done].
        injection Hrow' as <-. rewrite length_insert.
        apply (Forall_lookup_1 _ _ _ _ Htrr Hrow).
      * destruct Hraw as (_ & _ & _ & _ & E & _). rewrite E in Hrow'.
        apply (Forall_lookup_1 _ _ _ _ Htrr Hrow').
    + apply Forall_lookup_2. intros b row' Hrow'. specialize (Hraw b).
      rewrite HL'.
      destruct (pos_of b (ic_active_indices c)) as [j|] eqn:Hp.
      * destruct Hraw as (_ & _ & _ & _ & _ & E). rewrite E in Hrow'.
        destruct (BatchedHyps.timesteps s0 !! b) as [row|] eqn:Hrow;
          simpl in Hrow'; [|done].
        destruct (BatchedHyps.current_lengths s0 !! b); simpl in Hrow'; [|done].
        destruct (ic_time_indices c !! j); simpl in Hrow'; [|done].
        injection Hrow' as <-. rewrite length_insert.
        apply (Forall_lookup_1 _ _ _ _ Htsr Hrow).
      * destruct Hraw as (_ & _ & _ & _ & _ & E). rewrite E in Hrow'.
        apply (Forall_lookup_1 _ _ _ _ Htsr Hrow').
    + apply Forall_lookup_2. intros b n' Hn'. specialize (Hraw b).
      rewrite HL'.
      destruct (pos_of b (ic_active_indices c)) as [j|] eqn:Hp.
      * destruct Hraw as (_ & E & _). rewrite E in Hn'.
        destruct (BatchedHyps.current_lengths s0 !! b) as [n|] eqn:Hn;
          simpl in Hn'; [|done].
        injection Hn' as <-.
        pose proof (Forall_lookup_1 _ _ _ _ Hcur Hn) as H1.
        pose proof (Forall_lookup_1 _ _ _ _ Hroom Hn) as H2. simpl in *. lia.
      * destruct Hraw as (_ & E & _). rewrite E in Hn'.
        apply (Forall_lookup_1 _ _ _ _ Hcur Hn').
  - intros b Hb. rewrite <- Hitem0. specialize (Hraw b).
    unfold item_of, index_update.
    destruct (pos_of b (ic_active_indices c)) as [j|] eqn:Hp.
    + destruct Hraw as (-> & -> & -> & -> & -> & ->). simpl.
      destruct (Hact b j Hp) as (l & t & x & -> & -> & ->). simpl.
      destruct (BatchedHyps.scores s0 !! b); simpl; [|done].
      destruct (BatchedHyps.current_lengths s0 !! b) as [n|] eqn:Hn; simpl;
        [|done].
      destruct (BatchedHyps.last_timestep s0 !! b); simpl; [|done].
      destruct (BatchedHyps.last_timestep_lasts s0 !! b); simpl; [|done].
      destruct (BatchedHyps.transcript s0 !! b) as [row|] eqn:Hrow; simpl;
        [|done].
      destruct (BatchedHyps.timesteps s0 !! b) as [trow|] eqn:Htrow; simpl;
        [|done].
      pose proof (Forall_lookup_1 _ _ _ _ Hcur Hn) as H1.
      pose proof (Forall_lookup_1 _ _ _ _ Hroom Hn) as H2.
      pose proof (Forall_lookup_1 _ _ _ _ Htrr Hrow) as H3.
      pose proof (Forall_lookup_1 _ _ _ _ Htsr Htrow) as H4. simpl in *.
      by rewrite !slice_to_insert_snoc by lia.
    + destruct Hraw as (-> & -> & -> & -> & -> & ->). simpl.
      apply fmap_id_eq.
Qed.

Lemma call_mask_spec B s c :
  (0 < B)%nat -> wf B s -> valid_mask_call B c ->
  exists s', call_mask s c = Ok s' /\ wf B s' /\
    forall b, (b < B)%nat ->
      item_of s' b = (fun it => append_item it (mask_update c b)) <$> item_of s b.
Proof.
  intros HB Hwf Hc. unfold call_mask, BatchedHyps.add_results_masked_.
  pose proof (wf_current_lengths _ _ Hwf) as Hcl0.
  pose proof Hc as (Hm & Hl & Ht & Hs).
  rewrite zip_same_ok by lia. ok.
  destruct (tensor_max_ok
              (zip_with (fun l (m : bool) => l + bool_to_Z m)
                 (BatchedHyps.current_lengths s) (mc_active_mask c)))
    as (m & -> & Hmax & _).
  { intros Hnil. apply (f_equal length) in Hnil.
    rewrite length_zip_with in Hnil. simpl in Hnil. lia. }
  ok.
  set (s0 := if decide (m >= BatchedHyps._max_length s)
             then BatchedHyps._allocate_more s else s).
  assert (Hwf0 : wf B s0).
  { unfold s0. case_decide; [by apply allocate_more_wf | done]. }
  assert (Hitem0 : forall b, item_of s0 b = item_of s b).
  { intros b. unfold s0. case_decide; [by eapply allocate_more_item | done]. }
  assert (Hroom : Forall (fun n => n < BatchedHyps._max_length s0)
                    (BatchedHyps.current_lengths s0)).
  { unfold s0. case_decide as Hge; simpl.
    - eapply Forall_impl; [exact (wf_cursor _ _ Hwf)|].
      pose proof (wf_max_length _ _ Hwf). simpl. lia.
    - apply Forall_lookup_2. intros b n Hn.
      destruct (lookup_lt_is_Some_2 (mc_active_mask c) b) as [mb Hmb].
      { apply lookup_lt_Some in Hn. lia. }
      assert (Hp : zip_with (fun l (m : bool) => l + bool_to_Z m)
                     (BatchedHyps.current_lengths s) (mc_active_mask c) !! b
                   = Some (n + bool_to_Z mb)).
      { rewrite lookup_zip_with, Hn. simpl. by rewrite Hmb. }
      pose proof (Forall_lookup_1 _ _ _ _ Hmax Hp) as H1. simpl in H1.
      destruct mb; simpl in H1; lia. }
  destruct (masked_no_checks_raw B s0 c Hwf0 Hc Hroom)
    as (s' & Hs' & HL' & Hbi' & Hob' & Hsc' & Hcl' & Hlt' & Hll' & Hlll' & Htrl'
        & Htsl' & Htr' & Hts').
  exists s'. split; [done|].
  destruct Hwf0 as [HL Hcl Hsc Hlt Hll Htr0 Hts0 Hbi Hob Htrr Htsr Hcur].
  split.
  - constructor; try done; try congruence.
    + rewrite Hcl'. len.
    + rewrite Hsc'. len.
    + rewrite Hlt'. len.
    + apply Forall_lookup_2. intros b row' Hrow'. rewrite HL'.
      assert (Hb : (b < B)%nat) by (apply lookup_lt_Some in Hrow'; lia).
      destruct (lookup_lt_is_Some_2 (BatchedHyps.transcript s0) b) as [row Hrow];
        [lia|].
      destruct (lookup_lt_is_Some_2 (BatchedHyps.current_lengths s0) b)
        as [n Hn]; [lia|].
      destruct (lookup_lt_is_Some_2 (mc_labels c) b) as [l Hlb]; [lia|].
      rewrite (Htr' b row n l Hb Hrow Hn Hlb) in Hrow'. injection Hrow' as <-.
      rewrite length_insert. apply (Forall_lookup_1 _ _ _ _ Htrr Hrow).
    + apply Forall_lookup_2. intros b row' Hrow'. rewrite HL'.
      assert (Hb : (b < B)%nat) by (apply lookup_lt_Some in Hrow'; lia).
      destruct (lookup_lt_is_Some_2 (BatchedHyps.timesteps s0) b) as [row Hrow];
        [lia|].
      destruct (lookup_lt_is_Some_2 (BatchedHyps.current_lengths s0) b)
        as [n Hn]; [lia|].
      destruct (lookup_lt_is_Some_2 (mc_time_indices c) b) as [t Htb]; [lia|].
      rewrite (Hts' b row n t Hb Hrow Hn Htb) in Hrow'. injection Hrow' as <-.
      rewrite length_insert. apply (Forall_lookup_1 _ _ _ _ Htsr Hrow).
    + rewrite Hcl', HL'. apply Forall_lookup_2. intros b n' Hn'.
      apply lookup_zip_with_Some in Hn' as (n & mb & -> & Hn & Hmb).
      pose proof (Forall_lookup_1 _ _ _ _ Hcur Hn) as H1.
      pose proof (Forall_lookup_1 _ _ _ _ Hroom Hn) as H2. simpl in *.
      destruct mb; simpl; lia.
  - intros b Hb. rewrite <- Hitem0.
    destruct (lookup_lt_is_Some_2 (BatchedHyps.scores s0) b) as [x Hx]; [lia|].
    destruct (lookup_lt_is_Some_2 (BatchedHyps.current_lengths s0) b)
      as [n Hn]; [lia|].
    destruct (lookup_lt_is_Some_2 (BatchedHyps.last_timestep s0) b)
      as [last Hlast]; [lia|].
    destruct (lookup_lt_is_Some_2 (BatchedHyps.last_timestep_lasts s0) b)
      as [lasts Hlasts]; [lia|].
    destruct (lookup_lt_is_Some_2 (BatchedHyps.transcript s0) b)
      as [row Hrow]; [lia|].
    destruct (lookup_lt_is_Some_2 (BatchedHyps.timesteps s0) b)
      as [trow Htrow]; [lia|].
    destruct (lookup_lt_is_Some_2 (mc_active_mask c) b) as [mb Hmb]; [lia|].
    destruct (lookup_lt_is_Some_2 (mc_labels c) b) as [l Hlb]; [lia|].
    destruct (lookup_lt_is_Some_2 (mc_time_indices c) b) as [t Htb]; [lia|].
    destruct (lookup_lt_is_Some_2 (mc_scores c) b) as [y Hy]; [lia|].
    unfold item_of, mask_update.
    rewrite (Htr' b row n l Hb Hrow Hn Hlb), (Hts' b trow n t Hb Htrow Hn Htb),
      (Hll' b mb last t lasts Hmb Hlast Htb Hlasts), Hsc', Hcl', Hlt'.
    rewrite !where_list_lookup, !lookup_zip_with.
    rewrite Hx, Hn, Hlast, Hlasts, Hrow, Htrow, Hmb, Hlb, Htb, Hy. simpl.
    pose proof (Forall_lookup_1 _ _ _ _ Hcur Hn) as H1.
    pose proof (Forall_lookup_1 _ _ _ _ Hroom Hn) as H2.
    pose proof (Forall_lookup_1 _ _ _ _ Htrr Hrow) as H3.
    pose proof (Forall_lookup_1 _ _ _ _ Htsr Htrow) as H4. simpl in *.
    destruct mb; simpl.
    + by rewrite !slice_to_insert_snoc by lia.
    + rewrite Z.add_0_r. by rewrite !slice_to_insert_cursor by lia.
Qed.

(** ** Sequences of calls *)

Lemma run_spec {C} (step : BatchedHyps.t -> C -> result BatchedHyps.t)
    (upd : C -> nat -> option (Z * Z * Qc)) (valid : C -> Prop) B :
  (forall s c, wf B s -> valid c ->
     exists s', step s c = Ok s' /\ wf B s' /\
       forall b, (b < B)%nat ->
         item_of s' b = (fun it => append_item it (upd c b)) <$> item_of s b) ->
  forall calls s, wf B s -> Forall valid calls ->
    exists s', run step s calls = Ok s' /\ wf B s' /\
      forall b, (b < B)%nat ->
        item_of s' b =
          (fun it => foldl append_item it ((fun c => upd c b) <$> calls))
            <$> item_of s b.
Proof.
  intros Hstep calls. induction calls as [|c calls IH]; intros s Hwf Hv.
  - exists s. simpl. split; [done|]. split; [done|]. intros. apply fmap_id_eq.
  - inversion_clear Hv as [|? ? Hc Hv'].
    destruct (Hstep s c Hwf Hc) as (s1 & Hs1 & Hwf1 & Hit1).
    destruct (IH s1 Hwf1 Hv') as (s' & Hs' & Hwf' & Hit').
    exists s'. simpl. rewrite Hs1. ok. split; [done|]. split; [done|].
    intros b Hb. rewrite Hit', Hit1 by done. by destruct (item_of s b).
Qed.

Lemma init_spec (B L : Z) :
  0 < B -> 0 < L ->
  exists s, BatchedHyps.init B L = Ok s /\ wf (Z.to_nat B) s /\
    BatchedHyps._max_length s = L /\
    forall b, (b < Z.to_nat B)%nat ->
      item_of s b = Some (Item 0%Qc 0 (-1) 0 [] []).
Proof.
  intros HB HL. unfold BatchedHyps.init.
  rewrite !decide_False by lia. eexists. split; [done|]. split; [|split].
  - constructor; simpl; rewrite ?length_replicate; try done.
    + apply Forall_replicate. rewrite length_replicate. lia.
    + apply Forall_replicate. rewrite length_replicate. lia.
    + apply Forall_replicate. lia.
  - done.
  - intros b Hb. unfold item_of. simpl.
    by rewrite !lookup_replicate_2 by done.
Qed.

Lemma same_updates_lookup B ci cm b :
  same_updates B ci cm -> (b < B)%nat -> index_update ci b = mask_update cm b.
Proof.
  intros H Hb. unfold same_updates in H.
  apply (Forall_lookup_1 _ _ b b) in H; [done|].
  by apply lookup_seq_lt.
Qed.

Lemma run_from_init {C} (step : BatchedHyps.t -> C -> result BatchedHyps.t)
    (upd : C -> nat -> option (Z * Z * Qc)) (valid : C -> Prop) (B L : Z) calls :
  (forall s c, wf (Z.to_nat B) s -> valid c ->
     exists s', step s c = Ok s' /\ wf (Z.to_nat B) s' /\
       forall b, (b < Z.to_nat B)%nat ->
         item_of s' b = (fun it => append_item it (upd c b)) <$> item_of s b) ->
  0 < B -> 0 < L -> Forall valid calls ->
  exists s', (s ← BatchedHyps.init B L; run step s calls) = Ok s' /\
    wf (Z.to_nat B) s' /\
    forall b, (b < Z.to_nat B)%nat ->
      item_of s' b =
        Some (foldl append_item (Item 0%Qc 0 (-1) 0 [] [])
                ((fun c => upd c b) <$> calls)).
Proof.
  intros Hstep HB HL Hv.
  destruct (init_spec B L HB HL) as (s0 & -> & Hwf0 & _ & Hit0). ok.
  destruct (run_spec step upd valid _ Hstep calls s0 Hwf0 Hv)
    as (s' & Hs' & Hwf' & Hit').
  exists s'. split; [done|]. split; [done|].
  intros b Hb. by rewrite Hit', Hit0.
Qed.

(** C1. Equivalence of the two append paths. From fresh buffers of batch
    size [B], of any initial capacities [L1] and [L2], a sequence of valid
    [add_results_] calls and a sequence of valid [add_results_masked_] calls
    that encode the same updates step by step both succeed, and they leave
    every item [b] with the same logical contents: the same score, length,
    [last_timestep] and [last_timestep_lasts], and the same prefixes of
    [transcript] and [timesteps] up to that length. *)
Theorem index_and_mask_paths_agree (B L1 L2 : Z)
    (calls_i : list index_call) (calls_m : list mask_call) :
  0 < B -> 0 < L1 -> 0 < L2 ->
  Forall2 (fun ci cm => valid_index_call (Z.to_nat B) ci /\
                        valid_mask_call (Z.to_nat B) cm /\
                        same_updates (Z.to_nat B) ci cm) calls_i calls_m ->
  exists s1 s2,
    (s ← BatchedHyps.init B L1; run call_index s calls_i) = Ok s1 /\
    (s ← BatchedHyps.init B L2; run call_mask s calls_m) = Ok s2 /\
    forall b, (b < Z.to_nat B)%nat ->
      is_Some (item_of s1 b) /\ item_of s1 b = item_of s2 b.
Proof.
  intros HB HL1 HL2 Hcalls.
  destruct (run_from_init call_index index_update
              (valid_index_call (Z.to_nat B)) B L1 calls_i)
    as (s1 & Hs1 & _ & Hit1); [|done|done| |].
  { intros s c. apply call_index_spec. }
  { clear -Hcalls. induction Hcalls as [|? ? ? ? (? & _)]; by constructor. }
  destruct (run_from_init call_mask mask_update
              (valid_mask_call (Z.to_nat B)) B L2 calls_m)
    as (s2 & Hs2 & _ & Hit2); [|done|done| |].
  { intros s c. apply call_mask_spec. lia. }
  { clear -Hcalls. induction Hcalls as [|? ? ? ? (? & ? & _)]; by constructor. }
  exists s1, s2. split; [done|]. split; [done|].
  intros b Hb. rewrite Hit1, Hit2 by done. split; [done|]. do 2 f_equal.
  clear -Hcalls Hb. induction Hcalls as [|ci cm ? ? (_ & _ & Hsame) _ IH]; [done|].
  simpl. f_equal; [|done]. by eapply same_updates_lookup.
Qed.

Lemma index_and_mask_paths_agree_witness :
  exists s1 s2,
    (s ← BatchedHyps.init 2 1; run call_index s demo_index_calls) = Ok s1 /\
    (s ← BatchedHyps.init 2 3; run call_mask s demo_mask_calls) = Ok s2 /\
    forall b, (b < Z.to_nat 2)%nat ->
      is_Some (item_of s1 b) /\ item_of s1 b = item_of s2 b.
Proof.
  apply (index_and_mask_paths_agree 2 1 3 demo_index_calls demo_mask_calls);
    [lia | lia | lia |].
  apply (bool_decide_unpack _). vm_compute. exact I.
Defined.

Lemma index_update_active B c b :
  valid_index_call B c -> Z.of_nat b ∈ ic_active_indices c ->
  is_Some (index_update c b).
Proof.
  intros (Hnd & Hr & Hl & Ht & Hs) Hin. unfold index_update.
  destruct (pos_of b (ic_active_indices c)) as [j|] eqn:Hp.
  - apply pos_of_Some, lookup_lt_Some in Hp. simpl.
    destruct (lookup_lt_is_Some_2 (ic_labels c) j) as [l ->]; [lia|].
    destruct (lookup_lt_is_Some_2 (ic_time_indices c) j) as [t ->]; [lia|].
    destruct (lookup_lt_is_Some_2 (ic_scores c) j) as [x ->]; [lia|].
    by eexists.
  - by apply pos_of_None in Hp.
Qed.

Lemma foldl_append_item_length it us :
  Forall is_Some us ->
  it_length (foldl append_item it us) = it_length it + Z.of_nat (length us).
Proof.
  intros H. revert it. induction H as [|u us [[[l t] x] ->] _ IH]; intros it.
  - simpl. lia.
  - simpl. rewrite IH. simpl. lia.
Qed.

(** C8. Growth preserves the written data. The same valid [add_results_]
    calls on a fresh buffer of capacity 1, which doubles whenever it is
    full, and on a fresh buffer of any capacity [L0] both succeed and leave
    every item with the same logical contents; for an item that is active in
    each of the [N] calls the first [N] entries of its [transcript] row and
    of its [timesteps] row are the same in the two buffers, and there are
    [N] of them. *)
Theorem growth_preserves_written_data (B L0 : Z) (calls : list index_call) :
  0 < B -> 0 < L0 ->
  Forall (valid_index_call (Z.to_nat B)) calls ->
  exists s1 s2,
    (s ← BatchedHyps.init B 1; run call_index s calls) = Ok s1 /\
    (s ← BatchedHyps.init B L0; run call_index s calls) = Ok s2 /\
    forall b, (b < Z.to_nat B)%nat ->
      is_Some (item_of s1 b) /\ item_of s1 b = item_of s2 b /\
      (Forall (fun c => Z.of_nat b ∈ ic_active_indices c) calls ->
       exists row1 row2 trow1 trow2 : list Z,
         BatchedHyps.transcript s1 !! b = Some row1 /\
         BatchedHyps.transcript s2 !! b = Some row2 /\
         BatchedHyps.timesteps s1 !! b = Some trow1 /\
         BatchedHyps.timesteps s2 !! b = Some trow2 /\
         slice_to (Z.of_nat (length calls)) row1
           = slice_to (Z.of_nat (length calls)) row2 /\
         slice_to (Z.of_nat (length calls)) trow1
           = slice_to (Z.of_nat (length calls)) trow2 /\
         length (slice_to (Z.of_nat (length calls)) row1) = length calls /\
         length (slice_to (Z.of_nat (length calls)) trow1) = length calls).
Proof.
  intros HB HL0 Hv.
  destruct (run_from_init call_index index_update
              (valid_index_call (Z.to_nat B)) B 1 calls)
    as (s1 & Hs1 & Hwf1 & Hit1); [|done|done|done|].
  { intros s c. apply call_index_spec. }
  destruct (run_from_init call_index index_update
              (valid_index_call (Z.to_nat B)) B L0 calls)
    as (s2 & Hs2 & Hwf2 & Hit2); [|done|done|done|].
  { intros s c. apply call_index_spec. }
  exists s1, s2. split; [done|]. split; [done|].
  intros b Hb. specialize (Hit1 b Hb). specialize (Hit2 b Hb).
  split; [by rewrite Hit1|]. split; [by rewrite Hit1, Hit2|].
  intros Hall.
  assert (Hlen : it_length (foldl append_item (Item 0%Qc 0 (-1) 0 [] [])
                    ((fun c => index_update c b) <$> calls))
                 = Z.of_nat (length calls)).
  { rewrite foldl_append_item_length; [simpl; by rewrite length_fmap|].
    apply Forall_fmap. clear -Hv Hall.
    induction Hv as [|c calls Hc _ IH]; [done|].
    inversion_clear Hall. constructor; [|by apply IH].
    by eapply index_update_active. }
  unfold item_of in Hit1, Hit2.
  destruct (BatchedHyps.scores s1 !! b); simpl in Hit1; [|done].
  destruct (BatchedHyps.current_lengths s1 !! b) as [n1|] eqn:Hn1;
    simpl in Hit1; [|done].
  destruct (BatchedHyps.last_timestep s1 !! b); simpl in Hit1; [|done].
  destruct (BatchedHyps.last_timestep_lasts s1 !! b); simpl in Hit1; [|done].
  destruct (BatchedHyps.transcript s1 !! b) as [row1|] eqn:Hr1;
    simpl in Hit1; [|done].
  destruct (BatchedHyps.timesteps s1 !! b) as [trow1|] eqn:Ht1;
    simpl in Hit1; [|done].
  destruct (BatchedHyps.scores s2 !! b); simpl in Hit2; [|done].
  destruct (BatchedHyps.current_lengths s2 !! b) as [n2|] eqn:Hn2;
    simpl in Hit2; [|done].
  destruct (BatchedHyps.last_timestep s2 !! b); simpl in Hit2; [|done].
  destruct (BatchedHyps.last_timestep_lasts s2 !! b); simpl in Hit2; [|done].
  destruct (BatchedHyps.transcript s2 !! b) as [row2|] eqn:Hr2;
    simpl in Hit2; [|done].
  destruct (BatchedHyps.timesteps s2 !! b) as [trow2|] eqn:Ht2;
    simpl in Hit2; [|done].
  injection Hit1 as E1. injection Hit2 as E2. rewrite <- E2 in E1.
  rewrite <- E2 in Hlen. simpl in Hlen. subst n2.
  injection E1 as _ -> _ _ El Et.
  exists row1, row2, trow1, trow2. repeat (split; [done|]).
  pose proof (Forall_lookup_1 _ _ _ _ (wf_cursor _ _ Hwf1) Hn1) as H1.
  pose proof (Forall_lookup_1 _ _ _ _ (wf_transcript_rows _ _ Hwf1) Hr1) as H2.
  pose proof (Forall_lookup_1 _ _ _ _ (wf_timesteps_rows _ _ Hwf1) Ht1) as H3.
  simpl in *. rewrite !slice_to_length by lia. lia.
Qed.

(** C5. One masked append on a well-formed buffer with room for one more
    entry per item. For every item the cursor advances by the mask value,
    and the slot at the cursor of its [transcript] and [timesteps] rows is
    overwritten with the label and the time index of the call, whatever the
    mask. For an item whose mask is false the score, [last_timestep],
    [last_timestep_lasts], the cursor and the prefixes of both rows below the
    cursor are unchanged, and so are its logical contents. *)
Theorem masked_append_frame (B : nat) (s : BatchedHyps.t) (c : mask_call) :
  wf B s -> valid_mask_call B c ->
  Forall (fun n => n < BatchedHyps._max_length s)
    (BatchedHyps.current_lengths s) ->
  exists s',
    BatchedHyps.add_results_masked_no_checks_ s (mc_active_mask c)
      (mc_labels c) (mc_time_indices c) (mc_scores c) = Ok s' /\
    forall (b : nat) (m : bool) (n l t : Z) (row trow : list Z),
      mc_active_mask c !! b = Some m ->
      mc_labels c !! b = Some l ->
      mc_time_indices c !! b = Some t ->
      BatchedHyps.current_lengths s !! b = Some n ->
      BatchedHyps.transcript s !! b = Some row ->
      BatchedHyps.timesteps s !! b = Some trow ->
      BatchedHyps.current_lengths s' !! b = Some (n + bool_to_Z m) /\
      BatchedHyps.transcript s' !! b = Some (<[Z.to_nat n := l]> row) /\
      BatchedHyps.timesteps s' !! b = Some (<[Z.to_nat n := t]> trow) /\
      (m = false ->
       BatchedHyps.scores s' !! b = BatchedHyps.scores s !! b /\
       BatchedHyps.last_timestep s' !! b = BatchedHyps.last_timestep s !! b /\
       BatchedHyps.last_timestep_lasts s' !! b
         = BatchedHyps.last_timestep_lasts s !! b /\
       slice_to n (<[Z.to_nat n := l]> row) = slice_to n row /\
       slice_to n (<[Z.to_nat n := t]> trow) = slice_to n trow /\
       item_of s' b = item_of s b).
Proof.
  intros Hwf Hc Hroom.
  destruct (masked_no_checks_raw B s c Hwf Hc Hroom)
    as (s' & Hs' & HL' & Hbi' & Hob' & Hsc' & Hcl' & Hlt' & Hll' & Hlll' & Htrl'
        & Htsl' & Htr' & Hts').
  exists s'. split; [done|].
  intros b m n l t row trow Hm Hl Ht Hn Hrow Htrow.
  assert (Hb : (b < B)%nat).
  { apply lookup_lt_Some in Hm. destruct Hc as (? & _). lia. }
  pose proof (Forall_lookup_1 _ _ _ _ (wf_cursor _ _ Hwf) Hn) as Hn0.
  simpl in Hn0.
  rewrite (Htr' b row n l Hb Hrow Hn Hl), (Hts' b trow n t Hb Htrow Hn Ht).
  split; [by rewrite Hcl', lookup_zip_with, Hn; simpl; rewrite Hm|].
  split; [done|]. split; [done|]. intros ->.
  destruct (lookup_lt_is_Some_2 (BatchedHyps.scores s) b) as [x Hx].
  { rewrite (wf_scores _ _ Hwf). lia. }
  destruct (lookup_lt_is_Some_2 (BatchedHyps.last_timestep s) b)
    as [last Hlast].
  { rewrite (wf_last_timestep _ _ Hwf). lia. }
  destruct (lookup_lt_is_Some_2 (BatchedHyps.last_timestep_lasts s) b)
    as [lasts Hlasts].
  { rewrite (wf_last_timestep_lasts _ _ Hwf). lia. }
  assert (E1 : BatchedHyps.scores s' !! b = BatchedHyps.scores s !! b).
  { rewrite Hsc', where_list_lookup, lookup_zip_with, Hm, Hx. simpl.
    destruct (mc_scores c !! b) eqn:Hy; [done|].
    apply lookup_ge_None in Hy. destruct Hc as (_ & _ & _ & ?). lia. }
  assert (E2 : BatchedHyps.last_timestep s' !! b
               = BatchedHyps.last_timestep s !! b).
  { by rewrite Hlt', where_list_lookup, Hm, Ht, Hlast. }
  assert (E3 : BatchedHyps.last_timestep_lasts s' !! b
               = BatchedHyps.last_timestep_lasts s !! b).
  { by rewrite (Hll' b false last t lasts Hm Hlast Ht Hlasts). }
  assert (E4 : BatchedHyps.current_lengths s' !! b
               = BatchedHyps.current_lengths s !! b).
  { rewrite Hcl', lookup_zip_with, Hn. simpl. rewrite Hm. simpl.
    by rewrite Z.add_0_r. }
  repeat (split; [done || (apply slice_to_insert_cursor; lia)|]).
  unfold item_of. rewrite E1, E2, E3, E4, Hn.
  rewrite (Htr' b row n l Hb Hrow Hn Hl), (Hts' b trow n t Hb Htrow Hn Ht).
  rewrite Hrow, Htrow. simpl.
  by rewrite !slice_to_insert_cursor by lia.
Qed.

(** ** The materializer *)

Lemma mapM_result_Ok_inv {A B} (f : A -> result B) l ys :
  mapM_result f l = Ok ys -> Forall2 (fun x y => f x = Ok y) l ys.
Proof.
  revert ys. induction l as [|x l IH]; intros ys; simpl.
  - intros [= <-]. constructor.
  - intros H. apply bind_Ok_inv in H as (y & Hy & H).
    apply bind_Ok_inv in H as (ys' & Hys & [= <-]).
    constructor; [done | by apply IH].
Qed.

Lemma mapM_result_Ok {A B} (f : A -> result B) l ys :
  Forall2 (fun x y => f x = Ok y) l ys -> mapM_result f l = Ok ys.
Proof.
  induction 1 as [|x y l ys Hxy _ IH]; simpl; [done|].
  by rewrite Hxy, IH.
Qed.

Lemma mapM_result_total {A B} (f : A -> result B) l :
  Forall (fun x => exists y, f x = Ok y) l ->
  exists ys, mapM_result f l = Ok ys /\ length ys = length l.
Proof.
  induction 1 as [|x l [y Hy] _ (ys & Hys & Hlen)]; simpl.
  - by exists [].
  - exists (y :: ys). rewrite Hy, Hys. simpl. by rewrite Hlen.
Qed.

Lemma tget_Ok_nonneg {A} (t : list A) i x :
  0 <= i -> tget t i = Ok x -> t !! Z.to_nat i = Some x.
Proof.
  intros Hi. unfold tget, norm_index.
  case_decide; ok.
  - by destruct (t !! Z.to_nat i); intros [= <-].
  - case_decide; [lia | done].
Qed.

Lemma lookup_range n i x : range n !! i = Some x -> x = Z.of_nat i /\ x < n.
Proof. unfold range. intros H. apply lookup_seqZ in H. lia. Qed.

Lemma attach_alignments_fields al i h h' :
  attach_alignments al i h = Ok h' ->
  score h' = score h /\ y_sequence h' = y_sequence h /\
  timestep h' = timestep h /\ length_ h' = length_ h.
Proof.
  unfold attach_alignments. intros H.
  apply bind_Ok_inv in H as (len & _ & H).
  apply bind_Ok_inv in H as (trow & _ & H).
  apply bind_Ok_inv in H as (groups & _ & H).
  apply bind_Ok_inv in H as (conf & _ & [= <-]). done.
Qed.

Lemma slice_to_same_length {A B} n (r1 : list A) (r2 : list B) :
  length r1 = length r2 -> length (slice_to n r1) = length (slice_to n r2).
Proof.
  intros H. unfold slice_to. case_decide; rewrite !length_take; lia.
Qed.

(** C3. For a well-formed greedy buffer [batched_hyps_to_hypotheses]
    succeeds with one record per item when no alignments are given, and
    every record it produces carries the score of its item, the prefix of
    the item's labels and the prefix of its timesteps up to the current
    length: the two sequences have the same length, which is that current
    length. The [length] field of the record keeps its default 0. *)
Theorem materialized_hypotheses (B : nat) (s : BatchedHyps.t) (bs : option Z) :
  wf B s ->
  match bs with None => True | Some n => n <= Z.of_nat B end ->
  (exists hs, batched_hyps_to_hypotheses s None bs = Ok hs /\
     length hs = Z.to_nat (default (Z.of_nat B) bs)) /\
  forall al hs, batched_hyps_to_hypotheses s al bs = Ok hs ->
    forall (i : nat) (h : Hypothesis_), hs !! i = Some h ->
      exists it, item_of s i = Some it /\
        score h = it_score it /\
        y_sequence h = it_labels it /\
        timestep h = it_timesteps it /\
        length (y_sequence h) = length (timestep h) /\
        Z.of_nat (length (y_sequence h)) = it_length it /\
        length_ h = 0.
Proof.
  intros Hwf Hbs.
  pose proof Hwf as [HL Hcl Hsc Hlt Hll Htr0 Hts0 Hbi Hob Htrr Htsr Hcur].
  set (body := fun i : Z =>
    sc ← tget (BatchedHyps.scores s) i;
    len ← tget (BatchedHyps.current_lengths s) i;
    tr ← tget (BatchedHyps.transcript s) i;
    ts ← tget (BatchedHyps.timesteps s) i;
    Ok (Hypothesis_new sc (slice_to len tr) (slice_to len ts))).
  set (num := default (Z.of_nat B) bs).
  assert (Hnum : (match bs with
                  | None => Ok (Z.of_nat (length (BatchedHyps.scores s)))
                  | Some n =>
                      if decide (n <= Z.of_nat (length (BatchedHyps.scores s)))
                      then Ok n else Err AssertionError
                  end) = Ok num /\ num <= Z.of_nat B).
  { unfold num. rewrite Hsc. destruct bs as [n|]; simpl.
    - by rewrite decide_True. - split; [done|lia]. }
  destruct Hnum as [Hnum HnumB].
  assert (Hbody : forall (i : nat) (h : Hypothesis_),
            body (Z.of_nat i) = Ok h ->
            exists it, item_of s i = Some it /\
              score h = it_score it /\ y_sequence h = it_labels it /\
              timestep h = it_timesteps it /\
              length (y_sequence h) = length (timestep h) /\
              Z.of_nat (length (y_sequence h)) = it_length it /\
              length_ h = 0).
  { intros i h H. unfold body in H.
    apply bind_Ok_inv in H as (sc & Hsc' & H).
    apply bind_Ok_inv in H as (len & Hlen & H).
    apply bind_Ok_inv in H as (tr & Htr & H).
    apply bind_Ok_inv in H as (ts & Hts & [= <-]).
    apply tget_Ok_nonneg in Hsc', Hlen, Htr, Hts; try lia.
    rewrite Nat2Z.id in *. unfold item_of.
    rewrite Hsc', Hlen, Htr, Hts. simpl.
    destruct (lookup_lt_is_Some_2 (BatchedHyps.last_timestep s) i) as [? ->].
    { apply lookup_lt_Some in Hlen. lia. }
    destruct (lookup_lt_is_Some_2 (BatchedHyps.last_timestep_lasts s) i)
      as [? ->].
    { apply lookup_lt_Some in Hlen. lia. }
    simpl. eexists. split; [done|]. simpl. repeat (split; [done|]).
    pose proof (Forall_lookup_1 _ _ _ _ Hcur Hlen) as H1.
    pose proof (Forall_lookup_1 _ _ _ _ Htrr Htr) as H2.
    pose proof (Forall_lookup_1 _ _ _ _ Htsr Hts) as H3. simpl in *.
    split; [apply slice_to_same_length; lia|].
    split; [rewrite slice_to_length; lia | done]. }
  split.
  - unfold batched_hyps_to_hypotheses. rewrite Hnum. ok. fold body.
    destruct (mapM_result_total body (range num)) as (hs & -> & Hlen).
    { apply Forall_lookup_2. intros i x Hx. apply lookup_range in Hx as [-> Hx].
      unfold body.
      destruct (lookup_lt_is_Some_2 (BatchedHyps.scores s) i) as [sc Hsc'];
        [lia|].
      destruct (lookup_lt_is_Some_2 (BatchedHyps.current_lengths s) i)
        as [len Hlen]; [lia|].
      destruct (lookup_lt_is_Some_2 (BatchedHyps.transcript s) i) as [tr Htr];
        [lia|].
      destruct (lookup_lt_is_Some_2 (BatchedHyps.timesteps s) i) as [ts Hts];
        [lia|].
      rewrite (tget_in_range _ _ sc) by (rewrite ?Nat2Z.id; done || lia). ok.
      rewrite (tget_in_range _ _ len) by (rewrite ?Nat2Z.id; done || lia). ok.
      rewrite (tget_in_range (BatchedHyps.transcript s) _ tr) by (rewrite ?Nat2Z.id; done || lia). ok.
      rewrite (tget_in_range (BatchedHyps.timesteps s) _ ts) by (rewrite ?Nat2Z.id; done || lia). ok.
      by eexists. }
    ok. exists hs. split; [done|]. rewrite Hlen. unfold range.
    by rewrite length_seqZ.
  - intros al hs H i h Hi. unfold batched_hyps_to_hypotheses in H.
    rewrite Hnum in H. revert H. ok. fold body. intros H.
    apply bind_Ok_inv in H as (hs0 & Hhs0 & H).
    apply mapM_result_Ok_inv in Hhs0.
    assert (Hfrom0 : forall h0, hs0 !! i = Some h0 ->
              body (Z.of_nat i) = Ok h0).
    { intros h0 Hh0.
      destruct (Forall2_lookup_r _ _ _ _ _ Hhs0 Hh0) as (x & Hx & Hb).
      apply lookup_range in Hx as [-> _]. done. }
    destruct al as [al|].
    + apply mapM_result_Ok_inv in H.
      destruct (Forall2_lookup_r _ _ _ _ _ H Hi) as ([x h0] & Hx & Hat).
      apply lookup_zip_with_Some in Hx as (x' & h0' & [= <- <-] & _ & Hh0).
      apply attach_alignments_fields in Hat as (-> & -> & -> & ->).
      by apply Hbody, Hfrom0.
    + injection H as <-. by apply Hbody, Hfrom0.
Qed.

Lemma demo_hyps_run :
  (s ← BatchedHyps.init 1 1; run call_index s demo_appends) = Ok demo_hyps.
Proof. reflexivity. Qed.

Lemma materialized_hypotheses_witness :
  (exists hs, batched_hyps_to_hypotheses demo_hyps None None = Ok hs /\
     length hs = Z.to_nat (default (Z.of_nat 1) None)) /\
  forall al hs, batched_hyps_to_hypotheses demo_hyps al None = Ok hs ->
    forall (i : nat) (h : Hypothesis_), hs !! i = Some h ->
      exists it, item_of demo_hyps i = Some it /\
        score h = it_score it /\
        y_sequence h = it_labels it /\
        timestep h = it_timesteps it /\
        length (y_sequence h) = length (timestep h) /\
        Z.of_nat (length (y_sequence h)) = it_length it /\
        length_ h = 0.
Proof.
  apply (materialized_hypotheses 1 demo_hyps None).
  - apply (bool_decide_unpack _). vm_compute. exact I.
  - exact I.
Defined.

(** C3, as stated: the [length] field of the materialized record is not 3. *)
Lemma materialized_length_field_unset :
  exists h,
    (s ← BatchedHyps.init 1 1; run call_index s demo_appends) = Ok demo_hyps /\
    batched_hyps_to_hypotheses demo_hyps None None = Ok [h] /\
    y_sequence h = [3; 5; 7] /\ timestep h = [0; 2; 2] /\
    length_ h = 0 /\ length_ h <> 3.
Proof. eexists. repeat split; by vm_compute. Qed.

(** C5, as stated: the stored row of an inactive item is written. *)
Lemma masked_append_writes_inactive_row :
  exists s s',
    BatchedHyps.init 1 1 = Ok s /\
    BatchedHyps.add_results_masked_no_checks_ s [false] [7] [3] [Q2Qc 1]
      = Ok s' /\
    BatchedHyps.transcript s !! 0%nat = Some [0] /\
    BatchedHyps.transcript s' !! 0%nat = Some [7] /\
    BatchedHyps.timesteps s !! 0%nat = Some [0] /\
    BatchedHyps.timesteps s' !! 0%nat = Some [3] /\
    BatchedHyps.transcript s' !! 0%nat <> BatchedHyps.transcript s !! 0%nat.
Proof. do 2 eexists. repeat split; by vm_compute. Qed.

Lemma masked_append_frame_witness :
  exists s',
    BatchedHyps.add_results_masked_no_checks_ demo_fresh_hyps [true; false]
      [3; 4] [0; 0] [Q2Qc (-1 # 2); Q2Qc 1] = Ok s' /\
    BatchedHyps.current_lengths s' = [1; 0] /\
    item_of s' 1%nat = item_of demo_fresh_hyps 1%nat.
Proof.
  destruct (masked_append_frame 2 demo_fresh_hyps
              (MaskCall [true; false] [3; 4] [0; 0] [Q2Qc (-1 # 2); Q2Qc 1]))
    as (s' & Hs' & H).
  - apply (bool_decide_unpack _). vm_compute. exact I.
  - apply (bool_decide_unpack _). vm_compute. exact I.
  - apply (bool_decide_unpack _). vm_compute. exact I.
  - exists s'. split; [exact Hs'|].
    vm_compute in Hs'. injection Hs' as <-. split; reflexivity.
Defined.

Lemma insert_by_score_head h l :
  head (insert_by_score h l)
  = Some (match l with
          | [] => h
          | x :: _ => if decide (score h < score x)%Qc then x else h
          end).
Proof. destruct l as [|x l]; simpl; [done|]. by case_decide. Qed.

Lemma sorted_by_score_desc_head x l :
  exists h, head (sorted_by_score_desc (x :: l)) = Some h /\
            first_best h (x :: l).
Proof.
  revert x. induction l as [|y l IH]; intros x.
  - exists x. split; [done|]. exists [], []. by repeat constructor.
  - destruct (IH y) as (h & Hh & l1 & l2 & Hl & H1 & H2).
    change (sorted_by_score_desc (x :: y :: l))
      with (insert_by_score x (sorted_by_score_desc (y :: l))).
    rewrite insert_by_score_head.
    destruct (sorted_by_score_desc (y :: l)) as [|z zs]; [done|].
    injection Hh as ->. case_decide as Hlt.
    + exists h. split; [done|]. exists (x :: l1), l2.
      rewrite Hl. split; [done|]. split; [by constructor | done].
    + exists x. split; [done|]. exists [], (y :: l).
      split; [done|]. split; [constructor|].
      apply Qcnot_lt_le in Hlt. rewrite Hl. apply Forall_app. split.
      * eapply Forall_impl; [exact H1|]. simpl. intros w Hw.
        apply Qclt_le_weak. by eapply Qclt_le_trans.
      * constructor; [done|].
        eapply Forall_impl; [exact H2|]. simpl. intros w Hw.
        by eapply Qcle_trans.
Qed.

Lemma sorted_by_score_desc_nil l : sorted_by_score_desc l = [] -> l = [].
Proof.
  destruct l as [|x l]; [done|]. intros H.
  destruct (sorted_by_score_desc_head x l) as (h & Hh & _).
  by rewrite H in Hh.
Qed.

Section get_best_hyps.

Context (bh : list (list Hypothesis_)).

Let pick (batch_idx : Z) : result Hypothesis_ :=
  hyps ← tget bh batch_idx;
  match sorted_by_score_desc hyps with
  | [] => Err IndexError
  | best :: _ => Ok best
  end.

Lemma pick_in_range (b : nat) hyps :
  bh !! b = Some hyps ->
  pick (Z.of_nat b) =
    match sorted_by_score_desc hyps with
    | [] => Err IndexError
    | best :: _ => Ok best
    end.
Proof.
  intros Hb. unfold pick.
  rewrite (tget_in_range _ _ hyps) by (rewrite ?Nat2Z.id; done || lia).
  done.
Qed.

Lemma picks_fail (o n : nat) b :
  (o <= b < o + n)%nat -> (o + n <= length bh)%nat -> bh !! b = Some [] ->
  mapM_result pick (seqZ (Z.of_nat o) (Z.of_nat n)) = Err IndexError.
Proof.
  revert o. induction n as [|n IH]; intros o Hb Hlen Hempty; [lia|].
  rewrite seqZ_cons by lia. simpl.
  destruct (lookup_lt_is_Some_2 bh o) as [hyps Hhyps]; [lia|].
  rewrite (pick_in_range o hyps Hhyps).
  destruct (sorted_by_score_desc hyps) as [|best ?] eqn:Hs; [done|]. ok.
  destruct (decide (o = b)) as [->|Hne].
  { rewrite Hempty in Hhyps. injection Hhyps as <-. done. }
  replace (Z.succ (Z.of_nat o)) with (Z.of_nat (S o)) by lia.
  replace (Z.pred (Z.of_nat (S n))) with (Z.of_nat n) by lia.
  rewrite (IH (S o)) by (done || lia). done.
Qed.

Lemma picks_succeed (o n : nat) :
  (o + n <= length bh)%nat ->
  (forall b, bh !! b <> Some []) ->
  exists r, mapM_result pick (seqZ (Z.of_nat o) (Z.of_nat n)) = Ok r /\
    length r = n /\
    forall j hyps, (j < n)%nat -> bh !! (o + j)%nat = Some hyps ->
      exists h, r !! j = Some h /\ first_best h hyps.
Proof.
  revert o. induction n as [|n IH]; intros o Hlen Hne.
  - exists []. rewrite seqZ_nil by lia. split; [done|]. split; [done|]. lia.
  - rewrite seqZ_cons by lia. simpl.
    destruct (lookup_lt_is_Some_2 bh o) as [hyps Hhyps]; [lia|].
    rewrite (pick_in_range o hyps Hhyps).
    destruct hyps as [|x hyps]; [by apply Hne in Hhyps|].
    destruct (sorted_by_score_desc_head x hyps) as (h & Hh & Hbest).
    destruct (sorted_by_score_desc (x :: hyps)) as [|best ?]; [done|].
    injection Hh as ->. ok.
    replace (Z.succ (Z.of_nat o)) with (Z.of_nat (S o)) by lia.
    replace (Z.pred (Z.of_nat (S n))) with (Z.of_nat n) by lia.
    destruct (IH (S o)) as (r & -> & Hr & Hall); [lia | done |]. ok.
    exists (h :: r). split; [done|]. split; [simpl; lia|].
    intros [|j] hyps' Hj Hhyps'.
    + rewrite Nat.add_0_r in Hhyps'. rewrite Hhyps in Hhyps'.
      injection Hhyps' as <-. by exists h.
    + apply (Hall j); [lia|]. by rewrite <- Nat.add_succ_comm in Hhyps'.
Qed.

End get_best_hyps.

(** C4. [get_best_hyps] on a buffer whose [_batch_indices] enumerate its
    lists of completed hypotheses.  The call returns only when the list of
    every item is non-empty, and then it returns for every item the entry of
    the highest score of its list, the first one of them in the list when
    several share that score.  When the list of some item is empty the call
    as a whole fails, for every item, with the [IndexError] of
    [sorted_hyps[0]]. *)
Theorem get_best_hyps_spec (s : BeamBatchedHyps.t) :
  BeamBatchedHyps._batch_indices s
    = arange (length (BeamBatchedHyps.best_hyps s)) ->
  ((exists b : nat, BeamBatchedHyps.best_hyps s !! b = Some []) ->
   BeamBatchedHyps.get_best_hyps s = Err IndexError) /\
  ((forall b : nat, BeamBatchedHyps.best_hyps s !! b <> Some []) ->
   exists r, BeamBatchedHyps.get_best_hyps s = Ok r /\
     length r = length (BeamBatchedHyps.best_hyps s) /\
     forall (b : nat) hyps, BeamBatchedHyps.best_hyps s !! b = Some hyps ->
       exists h, r !! b = Some h /\ first_best h hyps).
Proof.
  intros Hbi. unfold BeamBatchedHyps.get_best_hyps. rewrite Hbi.
  unfold arange. split.
  - intros [b Hb].
    apply (picks_fail _ 0 _ b); [|simpl; lia|done].
    apply lookup_lt_Some in Hb. lia.
  - intros Hne.
    destruct (picks_succeed (BeamBatchedHyps.best_hyps s) 0
                (length (BeamBatchedHyps.best_hyps s)))
      as (r & Hr & Hlen & Hall); [simpl; lia | done |].
    exists r. split; [done|]. split; [done|].
    intros b hyps Hb. apply (Hall b); [|done].
    by apply lookup_lt_Some in Hb.
Qed.

(** ** Runs of equal consecutive values *)

Lemma unique_consecutive_cons b x :
  exists c cs vs,
    unique_consecutive_counts (b :: x) = S c :: cs /\
    unique_consecutive (b :: x) = b :: vs.
Proof.
  revert b. induction x as [|a x IH]; intros b.
  - by exists 0%nat, [], [].
  - destruct (IH a) as (c & cs & vs & Hc & Hv).
    change (unique_consecutive_counts (b :: a :: x))
      with (match unique_consecutive_counts (a :: x) with
            | c :: cs => if decide (b = a) then S c :: cs else 1%nat :: c :: cs
            | [] => [1%nat]
            end).
    change (unique_consecutive (b :: a :: x))
      with (if decide (b = a) then unique_consecutive (a :: x)
            else b :: unique_consecutive (a :: x)).
    rewrite Hc, Hv. case_decide; subst; eauto.
Qed.

Lemma unique_consecutive_step b a x :
  unique_consecutive_counts (b :: a :: x)
  = match unique_consecutive_counts (a :: x) with
    | c :: cs => if decide (b = a) then S c :: cs else 1%nat :: c :: cs
    | [] => [1%nat]
    end /\
  unique_consecutive (b :: a :: x)
  = if decide (b = a) then unique_consecutive (a :: x)
    else b :: unique_consecutive (a :: x).
Proof. done. Qed.

Lemma unique_consecutive_decode x :
  concat (zip_with replicate (unique_consecutive_counts x)
            (unique_consecutive x)) = x.
Proof.
  induction x as [|b [|a x] IH]; [done..|].
  destruct (unique_consecutive_step b a x) as [-> ->].
  destruct (unique_consecutive_cons a x) as (c & cs & vs & Hc & Hv).
  rewrite Hc, Hv in *. case_decide as Hba.
  - subst b. simpl in *. by rewrite IH.
  - simpl in *. by rewrite IH.
Qed.

Lemma unique_consecutive_lengths x :
  length (unique_consecutive_counts x) = length (unique_consecutive x).
Proof.
  induction x as [|b [|a x] IH]; [done..|].
  destruct (unique_consecutive_step b a x) as [-> ->].
  destruct (unique_consecutive_cons a x) as (c & cs & vs & Hc & Hv).
  rewrite Hc, Hv in *. case_decide; simpl in *; lia.
Qed.

Lemma unique_consecutive_sum x :
  sum_list (unique_consecutive_counts x) = length x.
Proof.
  induction x as [|b [|a x] IH]; [done..|].
  destruct (unique_consecutive_step b a x) as [-> _].
  destruct (unique_consecutive_cons a x) as (c & cs & vs & Hc & Hv).
  rewrite Hc in *. case_decide; simpl in *; lia.
Qed.

Lemma unique_consecutive_adjacent x k a b :
  unique_consecutive x !! k = Some a ->
  unique_consecutive x !! S k = Some b -> a <> b.
Proof.
  revert k. induction x as [|y [|z x] IH]; intros k; [done | by destruct k |].
  destruct (unique_consecutive_step y z x) as [_ ->].
  destruct (unique_consecutive_cons z x) as (c & cs & vs & Hc & Hv).
  case_decide as Hyz; [apply IH|].
  destruct k as [|k]; [|apply IH].
  rewrite Hv. simpl. intros [= <-] [= <-]. done.
Qed.

Lemma unique_consecutive_sorted x :
  Sorted Z.le x -> unique_consecutive x = remove_dups x.
Proof.
  intros Hs. apply Sorted_StronglySorted in Hs; [|apply _].
  induction x as [|b [|a x] IH]; [done..|].
  destruct (unique_consecutive_step b a x) as [_ ->].
  apply StronglySorted_cons in Hs as [Hb Hs].
  specialize (IH Hs). rewrite IH.
  change (remove_dups (b :: a :: x))
    with (if decide_rel elem_of b (a :: x) then remove_dups (a :: x)
          else b :: remove_dups (a :: x)).
  apply StronglySorted_cons in Hs as [Ha _].
  inversion_clear Hb as [|? ? Hba Hbx].
  case_decide as Heq; destruct (decide_rel elem_of b (a :: x)) as [Hin|Hnin];
    try done.
  - subst. exfalso. apply Hnin. apply list_elem_of_here.
  - exfalso. apply Heq. apply elem_of_cons in Hin as [->|Hin]; [done|].
    pose proof (proj1 (Forall_forall _ _) Ha b Hin). simpl in *. lia.
Qed.

(** ** Reading the groups *)

Lemma read_group_ok {A} (row : list A) (start cnt : nat) :
  (start + cnt <= length row)%nat ->
  read_group row (Z.of_nat start) cnt = Ok (take cnt (drop start row)).
Proof.
  intros Hle. unfold read_group.
  destruct (index_get_ok row ((fun j => Z.of_nat start + Z.of_nat j) <$> seq 0 cnt))
    as (g & -> & Hg).
  { apply Forall_fmap, Forall_lookup_2. intros j x Hx.
    apply lookup_seq in Hx as [-> ?]. simpl. lia. }
  f_equal. apply list_eq. intros j.
  pose proof (Forall2_length _ _ _ Hg) as Hlen.
  rewrite length_fmap, length_seq in Hlen.
  destruct (decide (j < cnt)%nat) as [Hj|Hj].
  - rewrite lookup_take_lt, lookup_drop by done.
    assert (Hi : ((fun j => Z.of_nat start + Z.of_nat j) <$> seq 0 cnt) !! j
                 = Some (Z.of_nat start + Z.of_nat j)).
    { rewrite list_lookup_fmap, lookup_seq_lt by done. done. }
    destruct (Forall2_lookup_l _ _ _ _ _ Hg Hi) as (y & -> & Hy).
    rewrite <- Hy. f_equal. lia.
  - rewrite lookup_take_ge by lia. apply lookup_ge_None. lia.
Qed.

Lemma group_rows_ok {A} (row : list A) (start : nat) counts :
  (start + sum_list counts <= length row)%nat ->
  exists gs, group_rows row (Z.of_nat start) counts = Ok gs /\
    length <$> gs = counts /\
    concat gs = take (sum_list counts) (drop start row).
Proof.
  revert start. induction counts as [|cnt counts IH]; intros start Hle.
  - exists []. by rewrite take_0.
  - simpl in Hle. simpl. rewrite read_group_ok by lia. ok.
    replace (Z.of_nat start + Z.of_nat cnt) with (Z.of_nat (start + cnt)) by lia.
    destruct (IH (start + cnt)%nat) as (gs & -> & Hl & Hc); [lia|]. ok.
    eexists. split; [done|]. split.
    + rewrite fmap_cons, Hl, length_take, length_drop. f_equal. lia.
    + cbn [concat sum_list sum_list_with]. rewrite Hc. rewrite <- (take_take_drop (drop start row) cnt).
      by rewrite drop_drop.
Qed.

Lemma zip_groups_labels {A B} (lg : list (list A)) (lb : list (list B)) :
  fmap (M := list) length lg = fmap (M := list) length lb ->
  fmap (M := list) (fmap (M := list) snd) (zip_with zip lg lb) = lb /\
  fmap (M := list) length (zip_with zip lg lb) = fmap (M := list) length lb.
Proof.
  revert lb. induction lg as [|g lg IH]; intros [|b lb]; try done.
  rewrite !fmap_cons. intros [= Hg Hl]. destruct (IH lb Hl) as [E1 E2].
  cbn [zip_with]. rewrite !fmap_cons, E1, E2.
  rewrite snd_zip by lia. rewrite length_zip_with. split; f_equal; lia.
Qed.

Lemma base_hypotheses (B : nat) (s : BatchedHyps.t) (bs : option Z) :
  wf B s ->
  match bs with None => True | Some n => n <= Z.of_nat B end ->
  exists hs0,
    batched_hyps_to_hypotheses s None bs = Ok hs0 /\
    length hs0 = Z.to_nat (default (Z.of_nat B) bs) /\
    forall al,
      batched_hyps_to_hypotheses s (Some al) bs =
        mapM_result (fun ih => attach_alignments al ih.1 ih.2)
          (zip (range (Z.of_nat (length hs0))) hs0).
Proof.
  intros Hwf Hbs.
  pose proof Hwf as [HL Hcl Hsc Hlt Hll Htr0 Hts0 Hbi Hob Htrr Htsr Hcur].
  unfold batched_hyps_to_hypotheses.
  set (num := default (Z.of_nat B) bs).
  assert (Hnum : (match bs with
                  | None => Ok (Z.of_nat (length (BatchedHyps.scores s)))
                  | Some n =>
                      if decide (n <= Z.of_nat (length (BatchedHyps.scores s)))
                      then Ok n else Err AssertionError
                  end) = Ok num /\ num <= Z.of_nat B).
  { unfold num. rewrite Hsc. destruct bs as [n|]; simpl.
    - by rewrite decide_True. - split; [done|lia]. }
  destruct Hnum as [-> HnumB]. ok.
  match goal with
  | |- context [mapM_result ?f (range num)] =>
      destruct (mapM_result_total f (range num)) as (hs & -> & Hlen)
  end.
  { apply Forall_lookup_2. intros i x Hx. apply lookup_range in Hx as [-> Hx].
    destruct (lookup_lt_is_Some_2 (BatchedHyps.scores s) i) as [sc Hsc'];
      [lia|].
    destruct (lookup_lt_is_Some_2 (BatchedHyps.current_lengths s) i)
      as [len Hlen]; [lia|].
    destruct (lookup_lt_is_Some_2 (BatchedHyps.transcript s) i) as [tr Htr];
      [lia|].
    destruct (lookup_lt_is_Some_2 (BatchedHyps.timesteps s) i) as [ts Hts];
      [lia|].
    rewrite (tget_in_range _ _ sc) by (rewrite ?Nat2Z.id; done || lia). ok.
    rewrite (tget_in_range _ _ len) by (rewrite ?Nat2Z.id; done || lia). ok.
    rewrite (tget_in_range (BatchedHyps.transcript s) _ tr)
      by (rewrite ?Nat2Z.id; done || lia). ok.
    rewrite (tget_in_range (BatchedHyps.timesteps s) _ ts)
      by (rewrite ?Nat2Z.id; done || lia). ok.
    by eexists. }
  ok. exists hs. split; [done|]. split; [|done].
  rewrite Hlen. unfold range. by rewrite length_seqZ.
Qed.

Section attach.

Context (B : nat) (al : BatchedAlignments.t).

Hypothesis Hal : al_wf B al.

Hypothesis Hwith : BatchedAlignments.with_alignments al = true.

Lemma attach_alignments_ok (i : nat) (h : Hypothesis_)
    (n : Z) (trow brow : list Z) :
  BatchedAlignments.current_lengths al !! i = Some n ->
  BatchedAlignments.timesteps al !! i = Some trow ->
  BatchedAlignments.labels al !! i = Some brow ->
  exists h' groups,
    attach_alignments al (Z.of_nat i) h = Ok h' /\
    alignments h' = Some groups /\
    fmap (M := list) length groups
      = unique_consecutive_counts (slice_to n trow) /\
    concat (fmap (M := list) (fmap (M := list) snd) groups)
      = slice_to n brow.
Proof.
  intros Hn Htrow Hbrow.
  destruct Hal as (HL & Hcl & Hts & Htsr & Hcur & Ha & Hc).
  destruct (Ha Hwith) as (Hlg & Hlb & Hlgr & Hlbr).
  pose proof (Forall_lookup_1 _ _ _ _ Hcur Hn) as Hn0.
  pose proof (Forall_lookup_1 _ _ _ _ Htsr Htrow) as Htl.
  pose proof (Forall_lookup_1 _ _ _ _ Hlbr Hbrow) as Hbl. simpl in *.
  assert (Hi : (i < B)%nat) by (apply lookup_lt_Some in Hn; lia).
  destruct (lookup_lt_is_Some_2 (BatchedAlignments.logits al) i)
    as [lrow Hlrow]; [lia|].
  pose proof (Forall_lookup_1 _ _ _ _ Hlgr Hlrow) as Hll. simpl in Hll.
  unfold attach_alignments.
  rewrite (tget_in_range (BatchedAlignments.current_lengths al) _ n)
    by (rewrite ?Nat2Z.id; done || lia). ok.
  rewrite (tget_in_range (BatchedAlignments.timesteps al) _ trow)
    by (rewrite ?Nat2Z.id; done || lia). ok.
  rewrite Hwith.
  rewrite (tget_in_range (BatchedAlignments.logits al) _ lrow)
    by (rewrite ?Nat2Z.id; done || lia). ok.
  rewrite (tget_in_range (BatchedAlignments.labels al) _ brow)
    by (rewrite ?Nat2Z.id; done || lia). ok.
  set (counts := unique_consecutive_counts (slice_to n trow)).
  assert (Hsum : sum_list counts = Z.to_nat n).
  { unfold counts. rewrite unique_consecutive_sum.
    by rewrite slice_to_length by lia. }
  destruct (group_rows_ok lrow 0 counts) as (lg & Hlg' & Hlgl & _); [lia|].
  destruct (group_rows_ok brow 0 counts) as (lb & Hlb' & Hlbl & Hlbc); [lia|].
  change (Z.of_nat 0) with 0 in Hlg', Hlb'. rewrite Hlg'. ok. rewrite Hlb'. ok.
  destruct (zip_groups_labels lg lb) as [E1 E2]; [congruence|].
  assert (Hconf : exists conf,
     (if BatchedAlignments.with_frame_confidence al
      then crow ← tget (BatchedAlignments.frame_confidence al) (Z.of_nat i);
           c ← group_rows crow 0 counts; Ok (Some c)
      else Ok (frame_confidence h)) = Ok conf).
  { destruct (BatchedAlignments.with_frame_confidence al) eqn:Hfc;
      [|by eexists].
    destruct (Hc eq_refl) as (Hcl' & Hcr).
    destruct (lookup_lt_is_Some_2 (BatchedAlignments.frame_confidence al) i)
      as [crow Hcrow]; [lia|].
    pose proof (Forall_lookup_1 _ _ _ _ Hcr Hcrow) as Hcrl. simpl in Hcrl.
    rewrite (tget_in_range _ _ crow) by (rewrite ?Nat2Z.id; done || lia). ok.
    destruct (group_rows_ok crow 0 counts) as (cg & Hcg & _); [lia|].
    change (Z.of_nat 0) with 0 in Hcg. rewrite Hcg. ok. by eexists. }
  destruct Hconf as [conf ->]. ok.
  eexists _, _. split; [done|]. simpl. split; [done|].
  split; [by rewrite E2|].
  rewrite E1, Hlbc, Hsum, drop_0. by rewrite slice_to_nonneg by lia.
Qed.

End attach.

(** C9. Materializing a well-formed greedy buffer together with a
    well-formed alignment buffer that stores alignments succeeds, and for
    every item the groups of the record follow the runs of equal consecutive
    values of the item's recorded timesteps, up to its current length:
    one group per run, of the size of the run and in the order of the runs,
    neighbouring runs having different frames, and the labels of the groups
    concatenated give back the recorded label trace. When the recorded
    timesteps are non-decreasing the number of groups is the number of
    distinct frames. *)
Theorem alignment_groups (B : nat) (s : BatchedHyps.t)
    (al : BatchedAlignments.t) (bs : option Z) :
  wf B s -> al_wf B al ->
  BatchedAlignments.with_alignments al = true ->
  match bs with None => True | Some n => n <= Z.of_nat B end ->
  exists hs,
    batched_hyps_to_hypotheses s (Some al) bs = Ok hs /\
    length hs = Z.to_nat (default (Z.of_nat B) bs) /\
    forall (i : nat) (h : Hypothesis_) (n : Z) (trow brow : list Z),
      hs !! i = Some h ->
      BatchedAlignments.current_lengths al !! i = Some n ->
      BatchedAlignments.timesteps al !! i = Some trow ->
      BatchedAlignments.labels al !! i = Some brow ->
      exists groups,
        alignments h = Some groups /\
        fmap (M := list) length groups
          = unique_consecutive_counts (slice_to n trow) /\
        concat (zip_with replicate
                  (unique_consecutive_counts (slice_to n trow))
                  (unique_consecutive (slice_to n trow)))
          = slice_to n trow /\
        (forall (k : nat) (a b : Z),
           unique_consecutive (slice_to n trow) !! k = Some a ->
           unique_consecutive (slice_to n trow) !! S k = Some b -> a <> b) /\
        concat (fmap (M := list) (fmap (M := list) snd) groups)
          = slice_to n brow /\
        (Sorted Z.le (slice_to n trow) ->
         length groups = length (remove_dups (slice_to n trow))).
Proof.
  intros Hwf Hal Hwith Hbs.
  destruct (base_hypotheses B s bs Hwf Hbs) as (hs0 & _ & Hlen0 & ->).
  assert (HlenB : (length hs0 <= B)%nat).
  { rewrite Hlen0. destruct bs; simpl in *; lia. }
  pose proof Hal as (HL & Hcl & Hts & _ & _ & Ha & _).
  destruct (Ha Hwith) as (_ & Hlb & _).
  destruct (mapM_result_total
              (fun ih : Z * Hypothesis_ => attach_alignments al ih.1 ih.2)
              (zip (range (Z.of_nat (length hs0))) hs0)) as (hs & Hhs & Hlen).
  { apply Forall_lookup_2. intros i [x h0] Hx.
    apply lookup_zip_with_Some in Hx as (x' & h0' & [= <- <-] & Hx & Hh0).
    apply lookup_range in Hx as [-> Hx]. simpl.
    destruct (lookup_lt_is_Some_2 (BatchedAlignments.current_lengths al) i)
      as [n Hn]; [lia|].
    destruct (lookup_lt_is_Some_2 (BatchedAlignments.timesteps al) i)
      as [trow Htrow]; [lia|].
    destruct (lookup_lt_is_Some_2 (BatchedAlignments.labels al) i)
      as [brow Hbrow]; [lia|].
    destruct (attach_alignments_ok B al Hal Hwith i h0 n trow brow Hn Htrow Hbrow)
      as (h' & _ & -> & _). by eexists. }
  exists hs. split; [done|]. split.
  { rewrite Hlen, length_zip_with. unfold range. rewrite length_seqZ. lia. }
  intros i h n trow brow Hi Hn Htrow Hbrow.
  apply mapM_result_Ok_inv in Hhs.
  destruct (Forall2_lookup_r _ _ _ _ _ Hhs Hi) as ([x h0] & Hx & Hat).
  apply lookup_zip_with_Some in Hx as (x' & h0' & [= <- <-] & Hx & Hh0).
  apply lookup_range in Hx as [-> Hx]. simpl in Hat.
  destruct (attach_alignments_ok B al Hal Hwith i h0 n trow brow Hn Htrow Hbrow)
    as (h' & groups & Hh' & Hg & Hgl & Hgc).
  rewrite Hh' in Hat. injection Hat as <-.
  exists groups. split; [done|]. split; [done|].
  split; [apply unique_consecutive_decode|].
  split; [apply unique_consecutive_adjacent|]. split; [done|].
  intros Hsorted. rewrite <- (unique_consecutive_sorted _ Hsorted).
  rewrite <- unique_consecutive_lengths, <- Hgl. by rewrite length_fmap.
Qed.

(** ** Cellwise operations *)

Lemma cell_Some {A} (t : list (list A)) b k x :
  cell t b k = Some x <-> exists row, t !! b = Some row /\ row !! k = Some x.
Proof.
  unfold cell. destruct (t !! b) as [row|]; simpl.
  - split; [by exists row | by intros (? & [= <-] & ?)].
  - split; [done | by intros (? & ? & ?)].
Qed.

Lemma cell_zip_with {A B C} (f : A -> B -> C) a b i k :
  cell (zip_with (zip_with f) a b) i k
  = (x ← cell a i k; y ← cell b i k; Some (f x y)).
Proof.
  unfold cell. rewrite lookup_zip_with.
  destruct (a !! i) as [ra|]; simpl; [|done].
  destruct (b !! i) as [rb|]; simpl.
  - rewrite lookup_zip_with. by destruct (ra !! k).
  - by destruct (ra !! k).
Qed.

Lemma cell_fmap {A B} (f : A -> B) (a : list (list A)) i k :
  cell (fmap (M := list) f <$> a) i k = f <$> cell a i k.
Proof.
  unfold cell. rewrite list_lookup_fmap.
  destruct (a !! i) as [ra|]; simpl; [|done]. by rewrite list_lookup_fmap.
Qed.

Lemma zipM_ok {A B C} (f : A -> B -> result C) (g : A -> B -> C) a b :
  Forall2 (fun x y => f x y = Ok (g x y)) a b ->
  zipM f a b = Ok (zip_with g a b).
Proof.
  induction 1 as [|x y a b Hxy _ IH]; simpl; [done|]. by rewrite Hxy, IH.
Qed.

Lemma zipM_Ok_inv {A B C} (f : A -> B -> result C) a b c :
  zipM f a b = Ok c ->
  length a = length b /\ length c = length a /\
  forall i x y, a !! i = Some x -> b !! i = Some y ->
    exists z, c !! i = Some z /\ f x y = Ok z.
Proof.
  revert b c. induction a as [|x a IH]; intros [|y b] c; simpl; try done.
  - intros [= <-]. done.
  - intros H. apply bind_Ok_inv in H as (z & Hz & H).
    apply bind_Ok_inv in H as (zs & Hzs & [= <-]).
    destruct (IH b zs Hzs) as (Hl1 & Hl2 & Hall).
    split; [by f_equal|]. split; [simpl; by f_equal|].
    intros [|i] x' y'; simpl.
    + intros [= <-] [= <-]. by exists z.
    + apply Hall.
Qed.

Lemma zip_same_Ok_inv {A B C} (f : A -> B -> C) a b c :
  zip_same f a b = Ok c -> length a = length b /\ c = zip_with f a b.
Proof. unfold zip_same. case_decide; [|done]. by intros [= <-]. Qed.

Lemma zip_same2_Ok_inv {A B C} (f : A -> B -> C) a b c :
  zip_same2 f a b = Ok c ->
  Forall2 (fun x y => length x = length y) a b /\
  c = zip_with (zip_with f) a b.
Proof.
  unfold zip_same2. revert b c.
  induction a as [|x a IH]; intros [|y b] c; simpl; try done.
  - intros [= <-]. split; [constructor | done].
  - intros H. apply bind_Ok_inv in H as (z & Hz & H).
    apply bind_Ok_inv in H as (zs & Hzs & [= <-]).
    apply zip_same_Ok_inv in Hz as [Hl ->].
    destruct (IH b zs Hzs) as [HF ->]. split; [by constructor | done].
Qed.

Lemma zip_same2_ok {A B C} (f : A -> B -> C) a b :
  Forall2 (fun x y => length x = length y) a b ->
  zip_same2 f a b = Ok (zip_with (zip_with f) a b).
Proof.
  intros H. unfold zip_same2. apply zipM_ok.
  eapply Forall2_impl; [exact H|]. simpl. intros x y Hl.
  by apply zip_same_ok.
Qed.

(** ** The gather of [update_beam] *)

Lemma gather_get_Ok {A} (row : list A) i x :
  gather_get row i = Ok x <-> 0 <= i /\ row !! Z.to_nat i = Some x.
Proof.
  unfold gather_get. case_decide as Hi.
  - destruct (row !! Z.to_nat i) eqn:E.
    + split; [intros [= <-]; split; [lia|done] | by intros [_ [= <-]]].
    + split; [done | by intros [_ ?]].
  - split; [done|]. intros [? H]. apply lookup_lt_Some in H. lia.
Qed.

Lemma gather1_Ok_inv {A} (t : list (list A)) idx t' :
  gather1 t idx = Ok t' ->
  length t' = length idx /\
  forall b k x, cell t' b k = Some x ->
    exists i, cell idx b k = Some i /\ 0 <= i /\ cell t b (Z.to_nat i) = Some x.
Proof.
  unfold gather1. case_decide as Hlen; [|done]. intros H.
  apply mapM_result_Ok_inv in H.
  split.
  { apply Forall2_length in H. rewrite <- H, length_zip_with. lia. }
  intros b k x Hx. apply cell_Some in Hx as (row' & Hrow' & Hx).
  destruct (Forall2_lookup_r _ _ _ _ _ H Hrow') as ([row irow] & Hz & Hr).
  apply lookup_zip_with_Some in Hz as (row0 & irow0 & [= <- <-] & Hrow & Hirow).
  simpl in Hr. apply mapM_result_Ok_inv in Hr.
  destruct (Forall2_lookup_r _ _ _ _ _ Hr Hx) as (i & Hi & Hg).
  apply gather_get_Ok in Hg as [Hi0 Hg].
  exists i. split; [|split; [done|]].
  - apply cell_Some. eauto.
  - apply cell_Some. eauto.
Qed.

Lemma gather1_ok {A} (t : list (list A)) idx (B K : nat) :
  length t = B -> length idx = B ->
  Forall (fun row => length row = K) t ->
  Forall (Forall (fun i => 0 <= i < Z.of_nat K)) idx ->
  exists t', gather1 t idx = Ok t' /\ length t' = B /\
    Forall2 (fun irow row' => length row' = length irow) idx t' /\
    forall b k i, cell idx b k = Some i ->
      cell t' b k = cell t b (Z.to_nat i).
Proof.
  intros Ht Hidx Hrows Hr. unfold gather1. rewrite decide_True by lia.
  revert t B Ht Hidx Hrows. induction Hr as [|irow idx Hirow _ IH];
    intros t B Ht Hidx Hrows.
  - destruct t; simpl in *; [|lia]. exists []. split; [done|].
    split; [simpl; lia|]. split; [constructor|]. intros b k i. by destruct b.
  - destruct t as [|row t]; simpl in *; [lia|].
    inversion_clear Hrows as [|? ? Hrow Hrows'].
    assert (Hg : exists row', mapM_result (gather_get row) irow = Ok row' /\
              length row' = length irow /\
              forall k i, irow !! k = Some i -> row' !! k = row !! Z.to_nat i).
    { clear -Hirow Hrow.
      induction Hirow as [|i irow Hi _ (row' & Hrow' & Hl & Hall)].
      - by exists [].
      - destruct (lookup_lt_is_Some_2 row (Z.to_nat i)) as [x Hx]; [lia|].
        exists (x :: row'). simpl.
        rewrite (proj2 (gather_get_Ok row i x)) by (split; [lia|done]).
        ok. rewrite Hrow'. ok. split; [done|]. split; [simpl; lia|].
        intros [|k] i'; simpl; [by intros [= <-] | apply Hall]. }
    destruct Hg as (row' & Hg & Hl' & Hrow'). rewrite Hg. ok.
    destruct (IH t (length t) eq_refl) as (t' & Ht' & Hlt' & HF & Hcells);
      [lia | done |].
    rewrite Ht'. ok. exists (row' :: t'). split; [done|]. split; [simpl; lia|].
    split; [by constructor|].
    intros [|b] k i; unfold cell; simpl.
    + apply Hrow'.
    + apply Hcells.
Qed.

(** * The beam buffer *)

Section beam_buffer.
Import BeamBatchedHyps.

(** ** Nested [Forall]s through cells *)

Lemma Forall_cells {A} (P : A -> Prop) (t : list (list A)) :
  Forall (Forall P) t <-> forall b k x, cell t b k = Some x -> P x.
Proof.
  split.
  - intros H b k x Hx. apply cell_Some in Hx as (row & Hrow & Hx).
    pose proof (Forall_lookup_1 _ _ _ _ H Hrow) as Hr.
    apply (Forall_lookup_1 _ _ _ _ Hr Hx).
  - intros H. apply Forall_lookup_2. intros b row Hrow.
    apply Forall_lookup_2. intros k x Hx. apply (H b k).
    apply cell_Some. eauto.
Qed.

Lemma Forall2_cells {A B} (P : A -> B -> Prop) a b :
  Forall2 (Forall2 P) a b <->
  Forall2 (fun x y => length x = length y) a b /\
  forall i k x y, cell a i k = Some x -> cell b i k = Some y -> P x y.
Proof.
  split.
  - intros H. split.
    + eapply Forall2_impl; [exact H|]. simpl. intros x y.
      apply Forall2_length.
    + intros i k x y Hx Hy.
      apply cell_Some in Hx as (ra & Hra & Hx).
      apply cell_Some in Hy as (rb & Hrb & Hy).
      pose proof (Forall2_lookup_lr _ _ _ _ _ _ H Hra Hrb) as Hr.
      apply (Forall2_lookup_lr _ _ _ _ _ _ Hr Hx Hy).
  - intros [Hs H]. apply Forall2_same_length_lookup_2.
    { by eapply Forall2_length. }
    intros i ra rb Hra Hrb.
    pose proof (Forall2_lookup_lr _ _ _ _ _ _ Hs Hra Hrb) as Hl. simpl in Hl.
    apply Forall2_same_length_lookup_2; [done|].
    intros k x y Hx Hy. apply (H i k); apply cell_Some; eauto.
Qed.

Lemma sh2_same {A B} Bn K (a : list (list A)) (b : list (list B)) :
  sh2 Bn K a -> sh2 Bn K b -> Forall2 (fun x y => length x = length y) a b.
Proof.
  intros [Ha Hra] [Hb Hrb]. apply Forall2_same_length_lookup_2; [lia|].
  intros i x y Hx Hy.
  pose proof (Forall_lookup_1 _ _ _ _ Hra Hx) as H1.
  pose proof (Forall_lookup_1 _ _ _ _ Hrb Hy) as H2. simpl in *. lia.
Qed.

Lemma sh2_cell {A} Bn K (a : list (list A)) b k :
  sh2 Bn K a -> (b < Bn)%nat -> (k < K)%nat -> is_Some (cell a b k).
Proof.
  intros [Ha Hra] Hb Hk.
  destruct (lookup_lt_is_Some_2 a b) as [row Hrow]; [lia|].
  pose proof (Forall_lookup_1 _ _ _ _ Hra Hrow) as H1. simpl in H1.
  destruct (lookup_lt_is_Some_2 row k) as [x Hx]; [lia|].
  exists x. apply cell_Some. eauto.
Qed.

Lemma cell_bounds {A} Bn K (a : list (list A)) b k x :
  sh2 Bn K a -> cell a b k = Some x -> (b < Bn)%nat /\ (k < K)%nat.
Proof.
  intros [Ha Hra] Hx. apply cell_Some in Hx as (row & Hrow & Hx).
  pose proof (Forall_lookup_1 _ _ _ _ Hra Hrow) as H1. simpl in H1.
  apply lookup_lt_Some in Hrow, Hx. lia.
Qed.

(** ** Gathers keep shapes and cellwise relations *)

Lemma gather1_sh2 {A} Bn K (t : list (list A)) idx :
  sh2 Bn K t -> sh2 Bn K idx ->
  Forall (Forall (fun i => 0 <= i < Z.of_nat K)) idx ->
  exists t', gather1 t idx = Ok t' /\ sh2 Bn K t' /\
    forall b k i, cell idx b k = Some i ->
      cell t' b k = cell t b (Z.to_nat i).
Proof.
  intros [Ht Hrt] [Hi Hri] Hr.
  destruct (gather1_ok t idx Bn K Ht Hi Hrt Hr) as (t' & -> & Hl & HF & Hc).
  exists t'. split; [done|]. split; [|done]. split; [done|].
  apply Forall_lookup_2. intros b row' Hrow'.
  destruct (Forall2_lookup_r _ _ _ _ _ HF Hrow') as (irow & Hirow & ->).
  apply (Forall_lookup_1 _ _ _ _ Hri Hirow).
Qed.

Lemma mapM_result_id {A} (f : A -> result A) l :
  Forall (fun x => f x = Ok x) l -> mapM_result f l = Ok l.
Proof. induction 1 as [|x l Hx _ IH]; simpl; [done|]. by rewrite Hx, IH. Qed.

Lemma gather1_rows_sh3 {A} Bn K L (t : list (list (list A))) idx :
  sh3 Bn K L t -> sh2 Bn K idx ->
  Forall (Forall (fun i => 0 <= i < Z.of_nat K)) idx ->
  exists t', gather1_rows t idx L = Ok t' /\ sh3 Bn K L t' /\
    forall b k i, cell idx b k = Some i ->
      cell t' b k = cell t b (Z.to_nat i).
Proof.
  intros [Hsh Hrows] Hidx Hr. unfold gather1_rows.
  destruct (gather1_sh2 Bn K t idx Hsh Hidx Hr) as (t' & -> & Hsh' & Hc). ok.
  assert (Hrows' : Forall (Forall (fun row => Z.of_nat (length row) = L)) t').
  { apply Forall_cells. intros b k row Hrow.
    destruct (cell_bounds _ _ _ _ _ _ Hsh' Hrow) as [Hb Hk].
    destruct (sh2_cell _ _ idx b k Hidx Hb Hk) as [i Hi].
    rewrite (Hc b k i Hi) in Hrow.
    apply (proj1 (Forall_cells _ _) Hrows _ _ _ Hrow). }
  rewrite mapM_result_id.
  - exists t'. split; [done|]. split; [by split | done].
  - eapply Forall_impl; [exact Hrows'|]. simpl. intros r Hrow.
    apply mapM_result_id. eapply Forall_impl; [exact Hrow|]. simpl.
    intros row Hlen. rewrite decide_True by lia.
    by rewrite take_ge by lia.
Qed.

Lemma gathered_Forall2 {A B} (P : A -> B -> Prop) Bn K
    (a a' : list (list A)) (b b' : list (list B)) idx :
  sh2 Bn K idx -> sh2 Bn K a' -> sh2 Bn K b' ->
  (forall i k j, cell idx i k = Some j -> cell a' i k = cell a i (Z.to_nat j)) ->
  (forall i k j, cell idx i k = Some j -> cell b' i k = cell b i (Z.to_nat j)) ->
  Forall2 (Forall2 P) a b -> Forall2 (Forall2 P) a' b'.
Proof.
  intros Hidx Ha' Hb' Hca Hcb HP. apply Forall2_cells.
  split; [by eapply sh2_same|].
  intros i k x y Hx Hy.
  destruct (cell_bounds _ _ _ _ _ _ Ha' Hx) as [Hi Hk].
  destruct (sh2_cell _ _ idx i k Hidx Hi Hk) as [j Hj].
  rewrite (Hca i k j Hj) in Hx. rewrite (Hcb i k j Hj) in Hy.
  apply Forall2_cells in HP as [_ HP]. by eapply HP.
Qed.

Lemma cell_full2 {A} Bn K (v : A) b k :
  (b < Bn)%nat -> (k < K)%nat -> cell (full2 Bn K v) b k = Some v.
Proof.
  intros Hb Hk. unfold cell, full2.
  rewrite lookup_replicate_2 by done. simpl. by rewrite lookup_replicate_2.
Qed.

(** C7. The reorder of [update_beam], before its append. On a well-formed
    beam buffer and a selection [beam_idx] of the buffer's shape with entries
    in [[0, beam_size)] it succeeds, keeps the buffer well formed, and for
    every item [b] and new slot [k] each per-beam array at [(b, k)] holds
    what it held at [(b, beam_idx[b, k])] before: scores, lengths, compacted
    transcript and timesteps, full lengths, full transcript and timesteps,
    token scores, end frames, label, blank and total scores, last timesteps
    and repetitions. *)
Theorem update_beam_gather_reorders (s : BeamBatchedHyps.t)
    (beam_idx : list (list Z)) :
  beam_wf s ->
  sh2 (Z.to_nat (batch_size s)) (Z.to_nat (beam_size s)) beam_idx ->
  Forall (Forall (fun i => 0 <= i < beam_size s)) beam_idx ->
  exists s',
    update_beam_gather s beam_idx = Ok s' /\ beam_wf s' /\
    forall (b k : nat) (i : Z), cell beam_idx b k = Some i ->
      cell (scores s') b k = cell (scores s) b (Z.to_nat i) /\
      cell (current_lengths s') b k = cell (current_lengths s) b (Z.to_nat i) /\
      cell (transcripts s') b k = cell (transcripts s) b (Z.to_nat i) /\
      cell (timesteps s') b k = cell (timesteps s) b (Z.to_nat i) /\
      cell (_full_current_lengths s') b k
        = cell (_full_current_lengths s) b (Z.to_nat i) /\
      cell (_full_transcripts s') b k
        = cell (_full_transcripts s) b (Z.to_nat i) /\
      cell (_full_timesteps s') b k = cell (_full_timesteps s) b (Z.to_nat i) /\
      cell (_token_scores s') b k = cell (_token_scores s) b (Z.to_nat i) /\
      cell (timesteps_end s') b k = cell (timesteps_end s) b (Z.to_nat i) /\
      cell (_label_scores s') b k = cell (_label_scores s) b (Z.to_nat i) /\
      cell (_blank_scores s') b k = cell (_blank_scores s) b (Z.to_nat i) /\
      cell (_total_scores s') b k = cell (_total_scores s) b (Z.to_nat i) /\
      cell (last_timestep s') b k = cell (last_timestep s) b (Z.to_nat i) /\
      cell (last_timestep_repetitions s') b k
        = cell (last_timestep_repetitions s) b (Z.to_nat i) /\
      cell (last_timestep_lasts s') b k
        = cell (last_timestep_lasts s) b (Z.to_nat i).
Proof.
  intros Hwf Hidx Hr.
  destruct Hwf as ((HL & HB & HK & Hblank) & (Hbi & Hki & Hbh & Hti)
    & (Hcl & Hsc & Hlt & Hll & Hls & Hbs & Hfl & Hrep)
    & (Htr & Hts & Hte & Hto & Htk & Hft & Hftr) & (Hcur & Htail1 & Htail0)).
  assert (Hr' : Forall (Forall (fun i => 0 <= i < Z.of_nat (Z.to_nat (beam_size s))))
                  beam_idx).
  { eapply Forall_impl; [exact Hr|]. simpl. intros row Hrow.
    eapply Forall_impl; [exact Hrow|]. simpl. lia. }
  unfold update_beam_gather.
  destruct (gather1_sh2 _ _ (scores s) beam_idx Hsc Hidx Hr')
    as (sc' & -> & Hsc' & Csc). ok.
  destruct (gather1_sh2 _ _ (last_timestep s) beam_idx Hlt Hidx Hr')
    as (lt' & -> & Hlt' & Clt). ok.
  destruct (gather1_sh2 _ _ (current_lengths s) beam_idx Hcl Hidx Hr')
    as (cl' & -> & Hcl' & Ccl). ok.
  destruct (gather1_sh2 _ _ (last_timestep_repetitions s) beam_idx Hrep Hidx Hr')
    as (rep' & -> & Hrep' & Crep). ok.
  destruct (gather1_rows_sh3 _ _ _ (timesteps s) beam_idx Hts Hidx Hr')
    as (ts' & -> & Hts' & Cts). ok.
  destruct (gather1_rows_sh3 _ _ _ (transcripts s) beam_idx Htr Hidx Hr')
    as (tr' & -> & Htr' & Ctr). ok.
  destruct (gather1_rows_sh3 _ _ _ (timesteps_end s) beam_idx Hte Hidx Hr')
    as (te' & -> & Hte' & Cte). ok.
  destruct (gather1_rows_sh3 _ _ _ (_full_timesteps s) beam_idx Hft Hidx Hr')
    as (ft' & -> & Hft' & Cft). ok.
  rewrite decide_True by apply Hftr.
  destruct (gather1_sh2 _ _ (_label_scores s) beam_idx Hls Hidx Hr')
    as (ls' & -> & Hls' & Cls). ok.
  destruct (gather1_sh2 _ _ (_blank_scores s) beam_idx Hbs Hidx Hr')
    as (bs' & -> & Hbs' & Cbs). ok.
  destruct (gather1_rows_sh3 _ _ _ (_total_scores s) beam_idx Hto Hidx Hr')
    as (to' & -> & Hto' & Cto). ok.
  destruct (gather1_rows_sh3 _ _ _ (_token_scores s) beam_idx Htk Hidx Hr')
    as (tk' & -> & Htk' & Ctk). ok.
  destruct (gather1_sh2 _ _ (_full_current_lengths s) beam_idx Hfl Hidx Hr')
    as (fl' & -> & Hfl' & Cfl). ok.
  destruct (gather1_rows_sh3 _ _ _ (_full_transcripts s) beam_idx Hftr Hidx Hr')
    as (ftr' & -> & Hftr' & Cftr). ok.
  eexists. split; [reflexivity|]. split.
  - unfold beam_wf. simpl. repeat (split; [done|]).
    split; [|split].
    + eapply (gathered_Forall2 _ _ _ (current_lengths s) cl'
                (_full_current_lengths s) fl' beam_idx); eauto.
    + eapply (gathered_Forall2 _ _ _ (_full_current_lengths s) fl'
                (_full_transcripts s) ftr' beam_idx); eauto. apply Hftr'.
    + eapply (gathered_Forall2 _ _ _ (_full_current_lengths s) fl'
                (_full_timesteps s) ft' beam_idx); eauto. apply Hft'.
  - intros b k i Hi. simpl.
    rewrite (Csc b k i Hi), (Ccl b k i Hi), (Ctr b k i Hi), (Cts b k i Hi),
      (Cfl b k i Hi), (Cftr b k i Hi), (Cft b k i Hi), (Ctk b k i Hi),
      (Cte b k i Hi), (Cls b k i Hi), (Cbs b k i Hi), (Cto b k i Hi),
      (Clt b k i Hi), (Crep b k i Hi).
    repeat (split; [done|]).
    destruct (cell_bounds _ _ _ _ _ _ Hidx Hi) as [Hb Hk].
    pose proof (proj1 (Forall_cells _ _) Hr' _ _ _ Hi) as Hi'. simpl in Hi'.
    rewrite Hll, !cell_full2 by lia. done.
Qed.

Lemma Qc_eq_Q2Qc (x : Qc) (q : Q) : Qred q = this x -> x = Q2Qc q.
Proof.
  intros H. apply Qc_is_canon. simpl. rewrite H. reflexivity.
Qed.

(** C2. The score that [append_labels] keeps is the sum of the increments
    [(label_logps + blank_logps) / full_length] of the calls; it is not
    recomputed from the cumulative sums. After one call on an empty beam with
    label log-probability -1/2, blank log-probability -1/10 and no blank the
    score is -6/10, which is also the cumulative log-probability over the
    full length. After a second call with the same arguments the score is
    -9/10, while the cumulative log-probabilities over the full length give
    -6/10. *)
Theorem append_labels_score_is_incremental :
  init 1 1 [] 4 = Ok demo_beam0 /\
  append_labels demo_beam0 [[3]] [[Q2Qc (-1 # 2)]] [[Q2Qc (-1 # 10)]]
    [[[]]] [[0]] = Ok demo_beam1 /\
  append_labels demo_beam1 [[4]] [[Q2Qc (-1 # 2)]] [[Q2Qc (-1 # 10)]]
    [[[]]] [[0]] = Ok demo_beam2 /\
  (exists x, cell (scores demo_beam1) 0 0 = Some x /\ x = Q2Qc (-6 # 10) /\
     normalized_score demo_beam1 0 0 = Some x) /\
  (exists x y, cell (scores demo_beam2) 0 0 = Some x /\ x = Q2Qc (-9 # 10) /\
     normalized_score demo_beam2 0 0 = Some y /\ y = Q2Qc (-6 # 10) /\
     x <> y).
Proof.
  split; [reflexivity|]. split; [reflexivity|]. split; [reflexivity|]. split.
  - eexists. split; [reflexivity|]. split; [by apply Qc_eq_Q2Qc|].
    unfold normalized_score. simpl.
    first [reflexivity | f_equal; by apply Qc_is_canon].
  - eexists _, _. split; [reflexivity|]. split; [by apply Qc_eq_Q2Qc|].
    split; [reflexivity|]. split; [by apply Qc_eq_Q2Qc|].
    intros H. apply (f_equal this) in H. by vm_compute in H.
Qed.

Lemma gather1_Ok_shape {A} (t : list (list A)) idx t' :
  gather1 t idx = Ok t' ->
  Forall2 (fun irow row' => length row' = length irow) idx t'.
Proof.
  unfold gather1. case_decide as Hlen; [|done]. intros H.
  apply mapM_result_Ok_inv in H.
  apply Forall2_same_length_lookup_2.
  { apply Forall2_length in H. rewrite <- H, length_zip_with. lia. }
  intros b irow row' Hirow Hrow'.
  destruct (Forall2_lookup_r _ _ _ _ _ H Hrow') as ([row irow0] & Hz & Hr).
  apply lookup_zip_with_Some in Hz as (? & ? & [= <- <-] & _ & Hirow0).
  assert (irow0 = irow) as -> by congruence.
  simpl in Hr. apply mapM_result_Ok_inv in Hr.
  symmetry. by eapply Forall2_length.
Qed.

(** ** The two cursors of the beam buffer *)

Lemma append_labels_cursors s labels label_logps blank_logps per_blank
    num_blanks s' :
  append_labels s labels label_logps blank_logps per_blank num_blanks = Ok s' ->
  current_lengths s' = add_scalar2 1 (current_lengths s) /\
  zip_same2 (fun f n => f + n + 1) (_full_current_lengths s) num_blanks
    = Ok (_full_current_lengths s').
Proof.
  unfold append_labels. intros H.
  apply bind_Ok_inv in H as (fl & Hfl & H).
  apply bind_Ok_inv in H as (m & _ & H).
  cbv zeta in H. case_decide as Hshape; [|done].
  repeat (apply bind_Ok_inv in H as (? & _ & H)).
  injection H as <-. simpl. by rewrite Hfl.
Qed.

Lemma update_beam_gather_cursors s beam_idx s' :
  update_beam_gather s beam_idx = Ok s' ->
  gather1 (current_lengths s) beam_idx = Ok (current_lengths s') /\
  gather1 (_full_current_lengths s) beam_idx = Ok (_full_current_lengths s').
Proof.
  unfold update_beam_gather. intros H.
  apply bind_Ok_inv in H as (? & _ & H).
  apply bind_Ok_inv in H as (? & _ & H).
  apply bind_Ok_inv in H as (cl' & Hcl & H).
  do 5 (apply bind_Ok_inv in H as (? & _ & H)).
  cbv zeta in H. case_decide; [|done].
  do 4 (apply bind_Ok_inv in H as (? & _ & H)).
  apply bind_Ok_inv in H as (fl' & Hfl & H).
  apply bind_Ok_inv in H as (? & _ & H).
  injection H as <-. simpl. by rewrite Hcl, Hfl.
Qed.

Lemma cursor_inv_init batch_size beam_size max_timesteps init_length s :
  init batch_size beam_size max_timesteps init_length = Ok s -> cursor_inv s.
Proof.
  unfold init. repeat (case_decide; [done|]). intros [= <-].
  unfold cursor_inv, full2. simpl.
  apply Forall2_replicate, Forall2_replicate. lia.
Qed.

Lemma cursor_inv_append s labels label_logps blank_logps per_blank num_blanks s' :
  cursor_inv s -> nonneg2 num_blanks ->
  append_labels s labels label_logps blank_logps per_blank num_blanks = Ok s' ->
  cursor_inv s'.
Proof.
  intros Hinv Hnb H. apply append_labels_cursors in H as [Hcl Hfl].
  apply zip_same2_Ok_inv in Hfl as [Hsame Hfl].
  unfold cursor_inv in *. rewrite Hcl, Hfl.
  apply Forall2_cells in Hinv as [Hshape Hinv].
  apply Forall2_cells. split.
  - apply Forall2_same_length_lookup_2.
    { unfold add_scalar2. rewrite length_fmap, length_zip_with.
      apply Forall2_length in Hshape, Hsame. lia. }
    intros i x y Hx Hy. unfold add_scalar2 in Hx.
    rewrite list_lookup_fmap in Hx.
    apply lookup_zip_with_Some in Hy as (f & n & -> & Hf & Hn).
    destruct (current_lengths s !! i) as [c|] eqn:Hc; [|done].
    injection Hx as <-.
    pose proof (Forall2_lookup_lr _ _ _ _ _ _ Hshape Hc Hf) as H1.
    pose proof (Forall2_lookup_lr _ _ _ _ _ _ Hsame Hf Hn) as H2.
    simpl in *. rewrite length_fmap, length_zip_with. lia.
  - intros i k x y Hx Hy. unfold add_scalar2 in Hx.
    rewrite cell_fmap in Hx. rewrite cell_zip_with in Hy.
    destruct (cell (current_lengths s) i k) as [c|] eqn:Hc; [|done].
    destruct (cell (_full_current_lengths s) i k) as [f|] eqn:Hf; [|done].
    destruct (cell num_blanks i k) as [n|] eqn:Hn; [|done].
    injection Hx as <-. injection Hy as <-.
    pose proof (Hinv i k c f Hc Hf).
    pose proof (proj1 (Forall_cells _ _) Hnb _ _ _ Hn). simpl in *. lia.
Qed.

Lemma cursor_inv_gather s beam_idx s' :
  cursor_inv s -> update_beam_gather s beam_idx = Ok s' -> cursor_inv s'.
Proof.
  intros Hinv H. apply update_beam_gather_cursors in H as [Hcl Hfl].
  unfold cursor_inv in *.
  apply Forall2_cells in Hinv as [_ Hinv].
  pose proof (gather1_Ok_shape _ _ _ Hcl) as S1.
  pose proof (gather1_Ok_shape _ _ _ Hfl) as S2.
  apply gather1_Ok_inv in Hcl as [_ Hcl]. apply gather1_Ok_inv in Hfl as [_ Hfl].
  apply Forall2_cells. split.
  - apply Forall2_same_length_lookup_2.
    { apply Forall2_length in S1, S2. lia. }
    intros i x y Hx Hy.
    destruct (lookup_lt_is_Some_2 beam_idx i) as [irow Hirow].
    { apply Forall2_length in S1. apply lookup_lt_Some in Hx. lia. }
    pose proof (Forall2_lookup_lr _ _ _ _ _ _ S1 Hirow Hx) as H1.
    pose proof (Forall2_lookup_lr _ _ _ _ _ _ S2 Hirow Hy) as H2.
    simpl in *. lia.
  - intros i k x y Hx Hy.
    destruct (Hcl i k x Hx) as (j & Hj & _ & Hx').
    destruct (Hfl i k y Hy) as (j' & Hj' & _ & Hy').
    assert (j' = j) as -> by congruence. by eapply Hinv.
Qed.

Lemma cursor_inv_clear s : cursor_inv s -> cursor_inv (clear_ s).
Proof.
  unfold cursor_inv. simpl. intros Hinv.
  apply Forall2_cells in Hinv as [Hshape Hinv].
  apply Forall2_cells. split.
  - apply Forall2_same_length_lookup_2.
    { unfold fill2_. rewrite length_fmap. by eapply Forall2_length. }
    intros i x y Hx Hy. unfold fill2_ in Hx. rewrite list_lookup_fmap in Hx.
    destruct (current_lengths s !! i) as [c|] eqn:Hc; [|done].
    injection Hx as <-.
    pose proof (Forall2_lookup_lr _ _ _ _ _ _ Hshape Hc Hy) as H1.
    simpl in *. unfold fill_. by rewrite length_fmap.
  - intros i k x y Hx Hy. unfold fill2_, fill_ in Hx. rewrite cell_fmap in Hx.
    destruct (cell (current_lengths s) i k) as [c|] eqn:Hc; [|done].
    injection Hx as <-. pose proof (Hinv i k c y Hc Hy). lia.
Qed.

Lemma reachable_cursor_inv s : reachable s -> cursor_inv s.
Proof.
  induction 1 as [? ? ? ? s Hs | s ? ? ? ? nb s' _ IH Hnb Hs
                  | s idx s' _ IH Hs | s ? ? ? ? nb idx s' _ IH Hnb Hs
                  | s _ IH].
  - by eapply cursor_inv_init.
  - by eapply cursor_inv_append.
  - by eapply cursor_inv_gather.
  - unfold update_beam in Hs. apply bind_Ok_inv in Hs as (s1 & Hs1 & Hs).
    eapply cursor_inv_append; [|done|done]. by eapply cursor_inv_gather.
  - by apply cursor_inv_clear.
Qed.

(** C10. In every beam buffer that is reached from the constructor by
    [append_labels] with non-negative blank counts, the reorder of
    [update_beam], [update_beam] itself and [clear_], the full length of
    every beam is at least its length. *)
Theorem full_length_bounds_length (s : BeamBatchedHyps.t) :
  reachable s ->
  Forall2 (Forall2 (fun cur full => full >= cur))
    (current_lengths s) (_full_current_lengths s).
Proof.
  intros Hs. apply reachable_cursor_inv in Hs.
  eapply Forall2_impl; [exact Hs|]. simpl. intros x y Hxy.
  eapply Forall2_impl; [exact Hxy|]. simpl. lia.
Qed.

Lemma tget_wrap {A} (d : A) (row : list A) i :
  - Z.of_nat (length row) <= i < Z.of_nat (length row) ->
  tget row i = Ok (row_at d row i).
Proof.
  intros Hi. unfold tget, norm_index, row_at.
  case_decide as H0; ok.
  - rewrite decide_True by lia.
    destruct (lookup_lt_is_Some_2 row (Z.to_nat i)) as [x ->]; [lia|]. done.
  - rewrite decide_True by lia. ok. rewrite decide_False by lia.
    destruct (lookup_lt_is_Some_2 row (Z.to_nat (Z.of_nat (length row) + i)))
      as [x ->]; [lia|]. done.
Qed.

Lemma zipM2_ok {A B C} (f : A -> B -> result C) (g : A -> B -> C) a b :
  Forall2 (Forall2 (fun x y => f x y = Ok (g x y))) a b ->
  zipM (zipM f) a b = Ok (zip_with (zip_with g) a b).
Proof.
  intros H. apply zipM_ok. eapply Forall2_impl; [exact H|]. simpl.
  intros x y Hxy. by apply zipM_ok.
Qed.

Lemma get_last_ok {A} (d : A) (t : list (list (list A))) idx :
  Forall2 (Forall2 (fun row i =>
     - Z.of_nat (length row) <= i < Z.of_nat (length row))) t idx ->
  get_last t idx = Ok (zip_with (zip_with (row_at d)) t idx).
Proof.
  intros H. unfold get_last. apply zipM2_ok.
  eapply Forall2_impl; [exact H|]. simpl. intros x y Hxy.
  eapply Forall2_impl; [exact Hxy|]. simpl. intros row i Hi.
  by apply tget_wrap.
Qed.

Lemma put_last_ok {A} Bn K (t : list (list (list A))) idx vals :
  sh2 Bn K t -> sh2 Bn K idx -> sh2 Bn K vals ->
  Forall2 (Forall2 (fun row i => 0 <= i < Z.of_nat (length row))) t idx ->
  put_last t idx vals = Ok (put_cells t idx vals).
Proof.
  intros Ht Hidx Hvals Hr. unfold put_last.
  rewrite zip_same2_ok by (by eapply sh2_same). ok.
  unfold put_cells. apply zipM2_ok.
  apply Forall2_cells. split.
  - apply Forall2_same_length_lookup_2.
    { rewrite length_zip_with. destruct Ht, Hidx, Hvals. lia. }
    intros i x y Hx Hy.
    apply lookup_zip_with_Some in Hy as (ir & vr & -> & Hir & Hvr).
    rewrite length_zip_with.
    pose proof (Forall_lookup_1 _ _ _ _ (proj2 Ht) Hx).
    pose proof (Forall_lookup_1 _ _ _ _ (proj2 Hidx) Hir).
    pose proof (Forall_lookup_1 _ _ _ _ (proj2 Hvals) Hvr). simpl in *. lia.
  - intros i k row [j v] Hrow Hp. rewrite cell_zip_with in Hp.
    destruct (cell idx i k) as [j'|] eqn:Hj; [|done].
    destruct (cell vals i k) as [v'|] eqn:Hv; [|done].
    injection Hp as <- <-. simpl.
    apply Forall2_cells in Hr as [_ Hr].
    apply tset_in_range. by eapply Hr.
Qed.


Lemma sh2_zip_with {A B C} Bn K (f : A -> B -> C) a b :
  sh2 Bn K a -> sh2 Bn K b -> sh2 Bn K (zip_with (zip_with f) a b).
Proof.
  intros [Ha Hra] [Hb Hrb]. split.
  - rewrite length_zip_with. lia.
  - apply Forall_lookup_2. intros i r Hr.
    apply lookup_zip_with_Some in Hr as (x & y & -> & Hx & Hy).
    pose proof (Forall_lookup_1 _ _ _ _ Hra Hx).
    pose proof (Forall_lookup_1 _ _ _ _ Hrb Hy). simpl in *.
    rewrite length_zip_with. lia.
Qed.

Lemma sh2_fmap {A B} Bn K (f : A -> B) (a : list (list A)) :
  sh2 Bn K a -> sh2 Bn K (fmap (M := list) f <$> a).
Proof.
  intros [Ha Hra]. split.
  - by rewrite length_fmap.
  - apply Forall_fmap. eapply Forall_impl; [exact Hra|]. simpl.
    intros r Hr. by rewrite length_fmap.
Qed.


Lemma cell_pad3 {A} (v : A) n t b k :
  cell (pad3 v n t) b k = pad v n <$> cell t b k.
Proof. unfold pad3. apply cell_fmap. Qed.

Lemma sh3_pad3 {A} Bn K L (v : A) n t :
  sh3 Bn K L t -> sh3 Bn K (L + Z.of_nat n) (pad3 v n t).
Proof.
  intros [Ht Hrows]. split.
  - unfold pad3. by apply sh2_fmap.
  - apply Forall_cells. intros b k row Hrow. rewrite cell_pad3 in Hrow.
    destruct (cell t b k) as [r|] eqn:Hr; [|done]. injection Hrow as <-.
    pose proof (proj1 (Forall_cells _ _) Hrows _ _ _ Hr) as Hl. simpl in Hl.
    unfold pad. rewrite length_app, length_replicate. lia.
Qed.

Lemma double3_pad3 {A} Bn K L (v : A) t :
  sh3 Bn K L t -> double3 v t = pad3 v (Z.to_nat L) t.
Proof.
  intros [_ Hrows]. unfold double3, pad3.
  apply Forall_fmap_ext. eapply Forall_impl; [exact Hrows|]. simpl.
  intros r Hr. apply Forall_fmap_ext. eapply Forall_impl; [exact Hr|]. simpl.
  intros row Hrow. unfold pad, fill_. f_equal.
  assert (Z.to_nat L = length row) as -> by lia.
  apply list_eq. intros j. rewrite list_lookup_fmap.
  destruct (decide (j < length row)%nat) as [Hj|Hj].
  - rewrite lookup_replicate_2 by lia.
    destruct (lookup_lt_is_Some_2 row j) as [x ->]; [lia|]. done.
  - rewrite (proj1 (lookup_replicate_None _ _ _)) by lia.
    by rewrite lookup_ge_None_2 by lia.
Qed.


(** ** Rows whose tail still holds the fill value *)

Lemma tail_is_lookup {A} (v : A) f row (p : nat) :
  tail_is v f row -> (Z.to_nat f <= p < length row)%nat -> row !! p = Some v.
Proof.
  intros H Hp. unfold tail_is in H.
  replace p with (Z.to_nat f + (p - Z.to_nat f))%nat by lia.
  rewrite <- lookup_drop, H. apply lookup_replicate_2. lia.
Qed.

Lemma tail_is_alt {A} (v : A) f row :
  tail_is v f row <->
  forall p : nat, (Z.to_nat f <= p < length row)%nat -> row !! p = Some v.
Proof.
  split; [intros H p; by apply tail_is_lookup|].
  intros H. unfold tail_is. apply list_eq. intros j. rewrite lookup_drop.
  destruct (decide (Z.to_nat f + j < length row)%nat) as [Hj|Hj].
  - rewrite H by lia. symmetry. apply lookup_replicate_2. lia.
  - rewrite lookup_ge_None_2 by lia. symmetry.
    apply lookup_replicate_None. lia.
Qed.

Lemma tail_is_pad {A} (v : A) f n row :
  tail_is v f row -> tail_is v f (pad v n row).
Proof.
  rewrite !tail_is_alt. intros H p Hp. unfold pad in *.
  rewrite length_app, length_replicate in Hp.
  destruct (decide (p < length row)%nat) as [Hlt|Hge].
  - rewrite lookup_app_l by done. apply H. lia.
  - rewrite lookup_app_r by lia. apply lookup_replicate_2. lia.
Qed.


(** ** Boolean masks over [_transcript_indices] *)









Lemma sh3_cell_length {A} Bn K L (t : list (list (list A))) b k row :
  sh3 Bn K L t -> cell t b k = Some row -> Z.of_nat (length row) = L.
Proof. intros [_ H] Hrow. apply (proj1 (Forall_cells _ _) H _ _ _ Hrow). Qed.





Section masked.

Context {A : Type} (Bn K : nat) (L1 M : Z).

Context (tk pb : list (list (list A))) (start nb : list (list Z)).

Hypothesis Htk : sh3 Bn K L1 tk.

Hypothesis Hpb : sh3 Bn K M pb.

Hypothesis Hstart : sh2 Bn K start.

Hypothesis Hnb : sh2 Bn K nb.

Hypothesis HM : 0 <= M <= L1.

Hypothesis Hfit :
  Forall2 (Forall2 (fun f m => 0 <= f /\ 0 <= m <= M /\ f + m <= L1))
    start nb.




Let vss := zip_with (zip_with (fun (p : list A) (m : Z) => take (Z.to_nat m) p))
             pb nb.

Let tk' :=
  zip_with (zip_with (fun (row : list A) (p : Z * list A) =>
              splice (Z.to_nat p.1) p.2 row)) tk
    (zip_with (zip_with pair) start vss).















End masked.


Lemma Forall2_cells_impl {A B} (P Q : A -> B -> Prop) a b :
  Forall2 (Forall2 P) a b -> (forall x y, P x y -> Q x y) ->
  Forall2 (Forall2 Q) a b.
Proof.
  intros H HPQ. eapply Forall2_impl; [exact H|]. simpl. intros x y Hxy.
  eapply Forall2_impl; [exact Hxy|]. done.
Qed.

Lemma tails_pad3 {A} (v : A) d Bn K L (fl : list (list Z)) t :
  sh2 Bn K fl -> sh3 Bn K L t ->
  Forall2 (Forall2 (tail_is v)) fl t ->
  Forall2 (Forall2 (tail_is v)) fl (pad3 v d t).
Proof.
  intros Hfl Ht H. apply Forall2_cells. split.
  - eapply sh2_same; [done|]. unfold pad3. apply sh2_fmap, Ht.
  - intros b k f row Hf Hrow. rewrite cell_pad3 in Hrow.
    destruct (cell t b k) as [r|] eqn:Hr; [|done]. injection Hrow as <-.
    apply tail_is_pad. apply Forall2_cells in H as [_ H]. by eapply H.
Qed.

Lemma allocate_more_grown s :
  beam_wf s ->
  grown (Z.to_nat (_max_length s)) s (_allocate_more s) /\
  beam_wf (_allocate_more s).
Proof.
  intros ((HL & HB & HK & Hblank) & (Hbi & Hki & Hbh & Hti)
    & (Hcl & Hsc & Hlt & Hll & Hls & Hbs & Hfl & Hrep)
    & (Htr & Hts & Hte & Hto & Htk & Hft & Hftr) & (Hcur & Htail1 & Htail0)).
  assert (G : grown (Z.to_nat (_max_length s)) s (_allocate_more s)).
  { unfold grown. simpl. rewrite Hblank.
    rewrite (double3_pad3 _ _ _ _ _ Htr), (double3_pad3 _ _ _ _ _ Hts),
      (double3_pad3 _ _ _ _ _ Hte), (double3_pad3 _ _ _ _ _ Hto),
      (double3_pad3 _ _ _ _ _ Htk), (double3_pad3 _ _ _ _ _ Hft),
      (double3_pad3 _ _ _ _ _ Hftr).
    repeat split; lia. }
  split; [done|].
  destruct G as (_ & _ & (E1 & E2 & E3 & E4 & E5 & E6 & E7)).
  assert (HLL : _max_length s * 2
                = _max_length s + Z.of_nat (Z.to_nat (_max_length s))) by lia.
  unfold beam_wf. rewrite E1, E2, E3, E4, E5, E6, E7. simpl. rewrite HLL.
  split; [repeat split; try done; lia|].
  split; [done|]. split; [done|].
  split; [repeat (split; [by apply sh3_pad3|]); by apply sh3_pad3|].
  split; [|split].
  - eapply Forall2_cells_impl; [exact Hcur|]. simpl. lia.
  - by eapply tails_pad3.
  - by eapply tails_pad3.
Qed.

Lemma concat_nonempty {A} Bn K (t : list (list A)) :
  sh2 Bn K t -> (0 < Bn)%nat -> (0 < K)%nat -> concat t <> [].
Proof.
  intros [Hl Hr] HB HK. destruct t as [|row t]; [simpl in Hl; lia|].
  inversion_clear Hr as [|? ? Hrow _]. destruct row; [simpl in Hrow; lia|].
  done.
Qed.

Lemma cell_elem_of_concat {A} (t : list (list A)) b k x :
  cell t b k = Some x -> x ∈ concat t.
Proof.
  revert b. induction t as [|row t IH]; intros b Hc; [by destruct b|].
  cbn [concat]. apply elem_of_app. destruct b as [|b].
  - left. unfold cell in Hc. simpl in Hc. by eapply list_elem_of_lookup_2.
  - right. by apply (IH b).
Qed.

Lemma cell_add_scalar2 c x b k :
  cell (add_scalar2 c x) b k = (fun v => v + c) <$> cell x b k.
Proof. unfold add_scalar2. apply cell_fmap. Qed.

Lemma sh2_add_scalar2 Bn K c x : sh2 Bn K x -> sh2 Bn K (add_scalar2 c x).
Proof. unfold add_scalar2. apply sh2_fmap. Qed.

Lemma has_shape2_sh2 {A} (Bz Kz : Z) (x : list (list A)) :
  0 <= Bz -> 0 <= Kz ->
  sh2 (Z.to_nat Bz) (Z.to_nat Kz) x -> has_shape2 Bz Kz x.
Proof.
  intros HB HK [Hl Hr]. split; [lia|].
  eapply Forall_impl; [exact Hr|]. simpl. lia.
Qed.



Lemma rows_in_range {A} Bn K L (t : list (list (list A))) idx
    (P : Z -> Z -> Prop) :
  sh3 Bn K L t -> sh2 Bn K idx ->
  (forall b k i, cell idx b k = Some i -> P L i) ->
  Forall2 (Forall2 (fun row i => P (Z.of_nat (length row)) i)) t idx.
Proof.
  intros Ht Hidx H. apply Forall2_cells. split.
  - eapply sh2_same; [apply Ht | done].
  - intros b k row i Hrow Hi.
    rewrite (sh3_cell_length _ _ _ _ _ _ _ Ht Hrow). by eapply H.
Qed.

Lemma put_last_sh3 {A} Bn K L (t : list (list (list A))) idx vals :
  sh3 Bn K L t -> sh2 Bn K idx -> sh2 Bn K vals ->
  (forall b k i, cell idx b k = Some i -> 0 <= i < L) ->
  put_last t idx vals = Ok (put_cells t idx vals).
Proof.
  intros Ht Hidx Hvals Hr. apply (put_last_ok Bn K); [apply Ht|done|done|].
  by apply (rows_in_range Bn K L _ _ (fun L i => 0 <= i < L)).
Qed.

Lemma get_last_sh3 {A} (d : A) Bn K L (t : list (list (list A))) idx :
  sh3 Bn K L t -> sh2 Bn K idx ->
  (forall b k i, cell idx b k = Some i -> - L <= i < L) ->
  get_last t idx = Ok (zip_with (zip_with (row_at d)) t idx).
Proof.
  intros Ht Hidx Hr. apply get_last_ok.
  by apply (rows_in_range Bn K L _ _ (fun L i => - L <= i < L)).
Qed.

Section append_ok.

Context (s : BeamBatchedHyps.t).

Context (labels : list (list Z)) (label_logps blank_logps : list (list Qc)).

Context (per_blank : list (list (list Qc))) (nb : list (list Z)).

Let B := Z.to_nat (batch_size s).

Let K := Z.to_nat (beam_size s).

Hypothesis Hwf : beam_wf s.

Hypothesis HK : 0 < beam_size s.

Hypothesis Hlab : sh2 B K labels.

Hypothesis Hll : sh2 B K label_logps.

Hypothesis Hbl : sh2 B K blank_logps.

Hypothesis Hnb : sh2 B K nb.

Hypothesis Hnn : nonneg2 nb.

Hypothesis Hcap :
  Forall2 (Forall2 (fun f n => f + n + 1 <= 2 * _max_length s))
    (_full_current_lengths s) nb.

Hypothesis Hpb :
  forall M, tensor_max (concat nb) = Ok M -> 0 < M -> sh3 B K M per_blank.


End append_ok.







(** ** The invariant along the operations *)

Lemma init_beam_wf batch_size beam_size max_timesteps init_length s :
  init batch_size beam_size max_timesteps init_length = Ok s -> beam_wf s.
Proof.
  unfold init. intros H. repeat case_decide; try done. injection H as <-.
  unfold beam_wf. cbn.
  set (B := Z.to_nat batch_size). set (K := Z.to_nat beam_size).
  set (L := Z.to_nat init_length).
  assert (S2 : forall {A} (v : A), sh2 B K (full2 B K v)).
  { intros A v. unfold full2. split; [by rewrite length_replicate|].
    apply Forall_replicate. by rewrite length_replicate. }
  assert (S3 : forall {A} (v : A), sh3 B K init_length (full3 B K L v)).
  { intros A v. unfold full3. split.
    - split; [by rewrite length_replicate|].
      apply Forall_replicate. by rewrite length_replicate.
    - do 2 apply Forall_replicate. rewrite length_replicate. unfold L. lia. }
  assert (T : forall {A} (v : A),
            Forall2 (Forall2 (tail_is v)) (full2 B K 0) (full3 B K L v)).
  { intros A v. unfold full2, full3.
    do 2 apply Forall2_replicate. unfold tail_is. simpl.
    by rewrite length_replicate, Nat.sub_0_r. }
  split; [repeat split; lia|]. split.
  { repeat split; try done. by rewrite length_replicate. }
  split; [repeat split; try apply S2; done|].
  split; [repeat split; apply S3|].
  split; [|split; apply T].
  unfold full2. do 2 apply Forall2_replicate. lia.
Qed.

Lemma sh2_fill2 {A} Bn K (v : A) (x : list (list A)) :
  sh2 Bn K x -> sh2 Bn K (fill2_ v x).
Proof. unfold fill2_, fill_. apply sh2_fmap. Qed.

Lemma sh3_fill3 {A} Bn K L (v : A) (t : list (list (list A))) :
  sh3 Bn K L t -> sh3 Bn K L (fill2_ v <$> t).
Proof.
  intros [[Hl Hr] Hrows]. split.
  - split; [by rewrite length_fmap|].
    apply Forall_fmap. eapply Forall_impl; [exact Hr|]. simpl.
    intros x Hx. unfold fill2_. by rewrite length_fmap.
  - apply Forall_fmap. eapply Forall_impl; [exact Hrows|]. simpl.
    intros x Hx. unfold fill2_, fill_. apply Forall_fmap.
    eapply Forall_impl; [exact Hx|]. simpl. intros row.
    by rewrite length_fmap.
Qed.

Lemma clear_beam_wf s : beam_wf s -> beam_wf (clear_ s).
Proof.
  intros ((HL & HB & HK & Hblank) & (Hbi & Hki & Hbh & Hti)
    & (Hcl & Hsc & Hlt & Hll & Hls & Hbs & Hfl & Hrep)
    & (Htr & Hts & Hte & Hto & Htk & Hft & Hftr) & (Hcur & Htail1 & Htail0)).
  unfold beam_wf, clear_. cbn.
  set (B := Z.to_nat (batch_size s)) in *.
  set (K := Z.to_nat (beam_size s)) in *.
  split; [done|]. split; [done|].
  split.
  { split; [by apply sh2_fill2|]. split; [by apply sh2_fill2|].
    split; [by apply sh2_fill2|]. split; [|done].
    rewrite Hll. unfold fill2_, fill_, full2.
    rewrite fmap_replicate. f_equal. by rewrite fmap_replicate. }
  split.
  { split; [by apply sh3_fill3|]. split; [by apply sh3_fill3|]. done. }
  split; [|done].
  apply Forall2_cells. split.
  { eapply sh2_same; [by apply sh2_fill2 | done]. }
  intros b k x f Hx Hf. unfold fill2_, fill_ in Hx. rewrite cell_fmap in Hx.
  destruct (cell (current_lengths s) b k) as [n|] eqn:Hn; [|done].
  injection Hx as <-.
  apply Forall2_cells in Hcur as [_ Hcur]. specialize (Hcur _ _ _ _ Hn Hf).
  simpl in Hcur. lia.
Qed.





(** ** Completed hypotheses *)

Lemma get_best_hyps_spec_witness :
  get_best_hyps demo_beam0 = Err IndexError /\
  exists r, get_best_hyps demo_completed = Ok r /\
    length r = length (best_hyps demo_completed) /\
    forall (b : nat) hyps, best_hyps demo_completed !! b = Some hyps ->
      exists h, r !! b = Some h /\ first_best h hyps.
Proof.
  split.
  - apply (proj1 (get_best_hyps_spec demo_beam0 eq_refl)).
    exists 0%nat. reflexivity.
  - apply (proj2 (get_best_hyps_spec demo_completed eq_refl)).
    intros [|[|b]]; discriminate.
Defined.

(** C4, as stated: item 0 has a completed hypothesis and item 1 has none.
    The call returns no entry for item 0 either: it fails as a whole, and the
    exception is the [IndexError] of the unguarded [sorted_hyps[0]]; the
    code has no error of its own for an empty beam. *)
Lemma get_best_hyps_fails_for_all_items :
  best_hyps demo_half_completed
  = [[Hypothesis_new (Q2Qc (-1)) [4] [0]]; []] /\
  _batch_indices demo_half_completed = [0; 1] /\
  get_best_hyps demo_half_completed = Err IndexError.
Proof. split; [reflexivity|]. split; reflexivity. Qed.

(** The entry of score -1 is returned although it was completed last. *)
Lemma demo_completed_best :
  get_best_hyps demo_completed = Ok [Hypothesis_new (Q2Qc (-1)) [4] [0]].
Proof. reflexivity. Qed.

(** ** A beam reorder *)

Lemma update_beam_gather_reorders_witness :
  exists s',
    update_beam_gather demo_beam3 [[1; 1; 0]] = Ok s' /\
    cell (_full_transcripts demo_beam3) 0 1 = Some [1024; 6; 1024; 1024] /\
    cell (_full_transcripts s') 0 0 = cell (_full_transcripts demo_beam3) 0 1 /\
    cell (_full_transcripts s') 0 1 = cell (_full_transcripts demo_beam3) 0 1 /\
    cell (_full_transcripts s') 0 2 = cell (_full_transcripts demo_beam3) 0 0 /\
    cell (scores s') 0 0 = cell (scores demo_beam3) 0 1 /\
    cell (current_lengths s') 0 0 = cell (current_lengths demo_beam3) 0 1.
Proof.
  destruct (update_beam_gather_reorders demo_beam3 [[1; 1; 0]])
    as (s' & Hs' & _ & H).
  - apply (bool_decide_unpack _). vm_compute. exact I.
  - apply (bool_decide_unpack _). vm_compute. exact I.
  - apply (bool_decide_unpack _). vm_compute. exact I.
  - exists s'. split; [exact Hs'|]. split; [reflexivity|].
    pose proof (H 0%nat 0%nat 1 eq_refl) as H0.
    pose proof (H 0%nat 1%nat 1 eq_refl) as H1.
    pose proof (H 0%nat 2%nat 0 eq_refl) as H2.
    split; [apply H0|]. split; [apply H1|]. split; [apply H2|].
    split; apply H0.
Defined.

(** ** One append with blanks *)



(** ** A reachable beam buffer *)

Lemma full_length_bounds_length_witness :
  Forall2 (Forall2 (fun cur full => full >= cur))
    (current_lengths demo_beam3) (_full_current_lengths demo_beam3).
Proof.
  apply (full_length_bounds_length demo_beam3).
  eapply (reach_append_labels demo_beam_fresh [[5; 6; 7]]
            [[Q2Qc (-1 # 2); Q2Qc (-1 # 4); Q2Qc (-1 # 8)]]
            [[Q2Qc (-1 # 10); Q2Qc (-1 # 10); Q2Qc (-1 # 10)]]
            demo_per_blank [[0; 1; 0]]).
  - apply (reach_init 1 3 [] 2). reflexivity.
  - apply (bool_decide_unpack _). vm_compute. exact I.
  - reflexivity.
Defined.

(** ** Growth *)

Lemma growth_preserves_written_data_witness :
  exists s1 s2,
    (s ← BatchedHyps.init 1 1; run call_index s demo_appends) = Ok s1 /\
    (s ← BatchedHyps.init 1 4; run call_index s demo_appends) = Ok s2 /\
    forall b, (b < Z.to_nat 1)%nat ->
      is_Some (item_of s1 b) /\ item_of s1 b = item_of s2 b /\
      (Forall (fun c => Z.of_nat b ∈ ic_active_indices c) demo_appends ->
       exists row1 row2 trow1 trow2 : list Z,
         BatchedHyps.transcript s1 !! b = Some row1 /\
         BatchedHyps.transcript s2 !! b = Some row2 /\
         BatchedHyps.timesteps s1 !! b = Some trow1 /\
         BatchedHyps.timesteps s2 !! b = Some trow2 /\
         slice_to (Z.of_nat (length demo_appends)) row1
           = slice_to (Z.of_nat (length demo_appends)) row2 /\
         slice_to (Z.of_nat (length demo_appends)) trow1
           = slice_to (Z.of_nat (length demo_appends)) trow2 /\
         length (slice_to (Z.of_nat (length demo_appends)) row1)
           = length demo_appends /\
         length (slice_to (Z.of_nat (length demo_appends)) trow1)
           = length demo_appends).
Proof.
  apply (growth_preserves_written_data 1 4 demo_appends); [lia | lia |].
  apply (bool_decide_unpack _). vm_compute. exact I.
Defined.

(** ** Alignment traces *)

Lemma demo_alignments_run :
  foldl add_frame (BatchedAlignments.init 1 1 2 true false false)
    [(0, 8); (0, 3); (1, 8); (2, 5); (2, 8); (2, 7)] = Ok demo_alignments.
Proof. reflexivity. Qed.

Lemma alignment_groups_witness :
  exists hs,
    batched_hyps_to_hypotheses demo_hyps (Some demo_alignments) None = Ok hs /\
    exists h groups,
      hs = [h] /\ alignments h = Some groups /\
      fmap (M := list) length groups = [2; 1; 3]%nat /\
      concat (fmap (M := list) (fmap (M := list) snd) groups)
        = [8; 3; 8; 5; 8; 7] /\
      length groups = length (remove_dups [0; 0; 1; 2; 2; 2]).
Proof.
  destruct (alignment_groups 1 demo_hyps demo_alignments None)
    as (hs & Hhs & Hlen & H).
  - apply (bool_decide_unpack _). vm_compute. exact I.
  - apply (bool_decide_unpack _). vm_compute. exact I.
  - reflexivity.
  - exact I.
  - exists hs. split; [exact Hhs|].
    destruct hs as [|h [|? ?]]; try discriminate Hlen.
    destruct (H 0%nat h 6 [0; 0; 1; 2; 2; 2; 0; 0] [8; 3; 8; 5; 8; 7; 0; 0]
                eq_refl eq_refl eq_refl eq_refl)
      as (groups & Hg & Hsizes & _ & _ & Hlabels & Hcount).
    exists h, groups. split; [reflexivity|]. split; [exact Hg|].
    split; [exact Hsizes|]. split; [exact Hlabels|].
    apply Hcount. repeat constructor; lia.
Defined.

(** C9, as stated: a trace that returns to an earlier frame has more groups
    than distinct frames. *)
Lemma alignment_groups_exceed_distinct_frames :
  exists h groups,
    foldl add_frame (BatchedAlignments.init 1 1 2 true false false)
      [(0, 3); (1, 8); (0, 5)] = Ok demo_alignments_back /\
    BatchedAlignments.timesteps demo_alignments_back = [[0; 1; 0; 0]] /\
    BatchedAlignments.current_lengths demo_alignments_back = [3] /\
    batched_hyps_to_hypotheses demo_hyps (Some demo_alignments_back) None
      = Ok [h] /\
    alignments h = Some groups /\
    length groups = 3%nat /\
    length (remove_dups [0; 1; 0]) = 2%nat /\
    length groups <> length (remove_dups [0; 1; 0]).
Proof.
  do 2 eexists. split; [reflexivity|]. split; [reflexivity|].
  split; [reflexivity|]. split; [reflexivity|]. split; [reflexivity|].
  split; [reflexivity|]. split; [reflexivity|]. discriminate.
Qed.

End beam_buffer.

(** * The helpers of the beam search *)

(** ** [is_prefix] *)

Lemma is_prefix_loop_ok x pref (n o : nat) :
  (o + n <= length pref)%nat -> (length pref <= length x)%nat ->
  exists b, is_prefix_loop x pref (seqZ (Z.of_nat o) (Z.of_nat n)) = Ok b /\
    (b = true <->
     forall i : nat, (o <= i < o + n)%nat -> pref !! i = x !! i).
Proof.
  revert o. induction n as [|n IH]; intros o Ho Hx.
  - exists true. split; [done|]. split; [|done]. intros _ i Hi. lia.
  - rewrite seqZ_cons by lia. cbn [is_prefix_loop].
    destruct (lookup_lt_is_Some_2 pref o) as [a Ha]; [lia|].
    destruct (lookup_lt_is_Some_2 x o) as [b Hb]; [lia|].
    rewrite (tget_in_range pref _ a) by (rewrite ?Nat2Z.id; done || lia). ok.
    rewrite (tget_in_range x _ b) by (rewrite ?Nat2Z.id; done || lia). ok.
    case_decide as Hab.
    + exists false. split; [done|]. split; [done|]. intros H.
      specialize (H o). rewrite Ha, Hb in H. exfalso. apply Hab.
      assert (Some a = Some b) as [= ->] by (apply H; lia). done.
    + replace (Z.succ (Z.of_nat o)) with (Z.of_nat (S o)) by lia.
      replace (Z.pred (Z.of_nat (S n))) with (Z.of_nat n) by lia.
      destruct (IH (S o)) as (r & Hr & Hiff); [lia | done |].
      exists r. split; [done|]. rewrite Hiff. split.
      * intros H i Hi. destruct (decide (i = o)) as [->|Hne].
        -- rewrite Ha, Hb. f_equal. by destruct (decide (a = b)).
        -- apply H. lia.
      * intros H i Hi. apply H. lia.
Qed.

(** [pref] is a strict prefix of [x]. *)
Lemma strict_prefix_lookup (x pref : list Z) :
  (length pref < length x)%nat ->
  (forall i : nat, (0 <= i < 0 + length pref)%nat -> pref !! i = x !! i) <->
  exists suffix, suffix <> [] /\ x = pref ++ suffix.
Proof.
  intros Hlen. split.
  - intros H. exists (drop (length pref) x). split.
    + intros Hnil. apply (f_equal length) in Hnil.
      rewrite length_drop in Hnil. simpl in Hnil. lia.
    + rewrite <- (take_drop (length pref) x) at 1. f_equal.
      apply list_eq. intros i.
      destruct (decide (i < length pref)%nat) as [Hi|Hi].
      * rewrite lookup_take_lt by done. symmetry. apply H. lia.
      * rewrite lookup_take_ge by lia. by rewrite lookup_ge_None_2 by lia.
  - intros (suffix & _ & ->) i Hi. by rewrite lookup_app_l by lia.
Qed.

Lemma is_prefix_true_iff (x pref : list Z) :
  is_prefix x pref = Ok true <->
  exists suffix, suffix <> [] /\ x = pref ++ suffix.
Proof.
  unfold is_prefix. case_decide as Hlen.
  - split; [done|]. intros (suffix & Hne & ->).
    rewrite length_app in Hlen. destruct suffix; [done|]. simpl in Hlen. lia.
  - unfold range.
    destruct (is_prefix_loop_ok x pref (length pref) 0) as (b & Hb & Hiff);
      [lia | lia |].
    change (Z.of_nat 0) with 0 in Hb. rewrite Hb.
    rewrite <- strict_prefix_lookup by lia. rewrite <- Hiff.
    split; [by intros [= ->] | by intros ->].
Qed.

Lemma is_prefix_returns (x pref : list Z) :
  exists b, is_prefix x pref = Ok b.
Proof.
  unfold is_prefix. case_decide as Hlen; [by exists false|].
  unfold range.
  destruct (is_prefix_loop_ok x pref (length pref) 0) as (b & Hb & _);
    [lia | lia |].
  exists b. exact Hb.
Qed.

(** X1. [is_prefix(x, pref)] never raises, and it answers [True] exactly when
    [pref] is a strict prefix of [x]: [x] is [pref] followed by at least one
    more label.  In particular a sequence is no prefix of itself, and no
    sequence is a prefix of the empty one. *)
Theorem is_prefix_strict_prefix (x pref : list Z) :
  exists b, is_prefix x pref = Ok b /\
    (b = true <-> exists suffix, suffix <> [] /\ x = pref ++ suffix) /\
    is_prefix x x = Ok false /\ is_prefix [] pref = Ok false.
Proof.
  destruct (is_prefix_returns x pref) as [b Hb]. exists b.
  split; [done|]. split; [|split].
  - rewrite <- is_prefix_true_iff, Hb. split; [by intros -> | by intros [= ->]].
  - unfold is_prefix. by rewrite decide_True by lia.
  - unfold is_prefix. rewrite decide_True; [done|]. simpl. lia.
Qed.

(** X2. [is_prefix] is transitive, and never holds in both directions: with
    the clause that a sequence is no prefix of itself it is a strict partial
    order on label sequences. *)
Theorem is_prefix_strict_order (x y z : list Z) :
  (is_prefix y x = Ok true -> is_prefix z y = Ok true ->
   is_prefix z x = Ok true) /\
  (is_prefix y x = Ok true -> is_prefix x y = Ok false).
Proof.
  split.
  - rewrite !is_prefix_true_iff. intros (s1 & H1 & ->) (s2 & H2 & ->).
    exists (s1 ++ s2). split; [by destruct s1|]. by rewrite app_assoc.
  - intros H. destruct (is_prefix_returns x y) as [[] Hb]; [|done].
    apply is_prefix_true_iff in H as (s1 & H1 & ->).
    apply is_prefix_true_iff in Hb as (s2 & H2 & Heq).
    apply (f_equal length) in Heq. rewrite !length_app in Heq.
    destruct s1, s2; simpl in *; try done; lia.
Qed.

(** ** [select_k_expansions] *)

Lemma max_by_snd_fold (x : Z * Qc) (l : list (Z * Qc)) :
  first_max_snd
    (foldl (fun best y => if decide (best.2 < y.2)%Qc then y else best) x l)
    (x :: l).
Proof.
  assert (G : forall (l0 : list (Z * Qc)) b l,
            first_max_snd b l0 ->
            first_max_snd
              (foldl (fun best y => if decide (best.2 < y.2)%Qc then y
                                    else best) b l)
              (l0 ++ l)).
  { clear. intros l0 b l. revert l0 b.
    induction l as [|y l IH]; intros l0 b Hb; simpl.
    - by rewrite app_nil_r.
    - replace (l0 ++ y :: l) with ((l0 ++ [y]) ++ l)
        by (by rewrite <- app_assoc).
      apply IH. destruct Hb as (l1 & l2 & -> & H1 & H2).
      case_decide as Hlt.
      + exists (l1 ++ b :: l2), []. split; [done|]. split; [|done].
        apply Forall_app. split.
        * eapply Forall_impl; [exact H1|]. simpl. intros z Hz.
          by eapply Qclt_trans.
        * constructor; [done|].
          eapply Forall_impl; [exact H2|]. simpl. intros z Hz.
          by eapply Qcle_lt_trans.
      + exists l1, (l2 ++ [y]). split; [by rewrite <- app_assoc|].
        split; [done|]. apply Forall_app. split; [done|].
        constructor; [|done]. by apply Qcnot_lt_le. }
  apply (G [x] x l). exists [], []. by repeat split.
Qed.

Lemma max_by_snd_ok (l : list (Z * Qc)) :
  l <> [] -> exists b, max_by_snd l = Ok b /\ first_max_snd b l.
Proof.
  destruct l as [|x l]; [done|]. intros _. eexists. split; [done|].
  apply max_by_snd_fold.
Qed.

Lemma first_max_snd_bound b l x :
  first_max_snd b l -> x ∈ l -> (x.2 <= b.2)%Qc.
Proof.
  intros (l1 & l2 & -> & H1 & H2) Hx.
  apply elem_of_app in Hx as [Hx|Hx].
  - apply Qclt_le_weak. by apply (proj1 (Forall_forall _ _) H1).
  - apply elem_of_cons in Hx as [->|Hx]; [apply Qcle_refl|].
    by apply (proj1 (Forall_forall _ _) H2).
Qed.

Lemma first_max_snd_elem b l : first_max_snd b l -> b ∈ l.
Proof.
  intros (l1 & l2 & -> & _). apply elem_of_app. right. apply list_elem_of_here.
Qed.

Lemma insert_by_snd_perm x l : insert_by_snd x l ≡ₚ x :: l.
Proof.
  induction l as [|y l IH]; simpl; [done|].
  case_decide; [|done]. rewrite IH. apply Permutation_swap.
Qed.

Lemma sorted_by_snd_perm l : sorted_by_snd l ≡ₚ l.
Proof.
  induction l as [|x l IH]; simpl; [done|].
  rewrite insert_by_snd_perm. by rewrite IH.
Qed.

Lemma insert_by_snd_sorted x l :
  StronglySorted (fun a b : Z * Qc => (a.2 <= b.2)%Qc) l ->
  StronglySorted (fun a b : Z * Qc => (a.2 <= b.2)%Qc) (insert_by_snd x l).
Proof.
  induction 1 as [|y l Hs IH Hy]; simpl.
  - repeat constructor.
  - case_decide as Hlt.
    + constructor; [done|].
      rewrite insert_by_snd_perm. constructor; [|done].
      by apply Qclt_le_weak.
    + apply Qcnot_lt_le in Hlt. constructor; [by constructor|].
      constructor; [done|].
      eapply Forall_impl; [exact Hy|]. simpl. intros z Hz.
      by eapply Qcle_trans.
Qed.

Lemma sorted_by_snd_sorted l :
  StronglySorted (fun a b : Z * Qc => (a.2 <= b.2)%Qc) (sorted_by_snd l).
Proof.
  induction l as [|x l IH]; simpl; [constructor|].
  by apply insert_by_snd_sorted.
Qed.

(** Entries of one value keep their order. *)
Lemma insert_by_snd_stable (q : Qc) x l :
  filter (fun y : Z * Qc => y.2 = q) (insert_by_snd x l)
  = filter (fun y : Z * Qc => y.2 = q) (x :: l).
Proof.
  induction l as [|y l IH]; simpl; [done|].
  case_decide as Hlt; [|done].
  rewrite !filter_cons in *. rewrite IH.
  destruct (decide (y.2 = q)) as [Hy|Hy]; [|done].
  destruct (decide (x.2 = q)) as [Hx|Hx]; [|done].
  rewrite Hy, Hx in Hlt. by apply Qclt_not_eq in Hlt.
Qed.

Lemma sorted_by_snd_stable (q : Qc) l :
  filter (fun y : Z * Qc => y.2 = q) (sorted_by_snd l)
  = filter (fun y : Z * Qc => y.2 = q) l.
Proof.
  induction l as [|x l IH]; simpl; [done|].
  rewrite insert_by_snd_stable, !filter_cons. by rewrite IH.
Qed.

Lemma strongly_sorted_last (e : list (Z * Qc)) x :
  StronglySorted (fun a b : Z * Qc => (a.2 <= b.2)%Qc) e ->
  last e = Some x -> Forall (fun y => (y.2 <= x.2)%Qc) e.
Proof.
  induction 1 as [|y e Hs IH Hy]; [done|]. intros Hl.
  destruct e as [|z e].
  - injection Hl as ->. constructor; [apply Qcle_refl|done].
  - assert (Hl' : last (z :: e) = Some x) by done.
    constructor; [|by apply IH].
    apply (proj1 (Forall_forall _ _) Hy).
    clear -Hl'. revert z Hl'. induction e as [|w e IH]; intros z Hl'.
    + injection Hl' as ->. apply list_elem_of_here.
    + apply elem_of_cons. right. by apply IH.
Qed.

Section select_k_facts.

Context (fadd fsub : Qc -> Qc -> Qc).

Lemma expansions_of_ok gamma (cands : list (Z * Qc)) :
  cands <> [] ->
  exists e best,
    expansions_of fsub gamma cands = Ok e /\ e <> [] /\
    first_max_snd best cands /\
    StronglySorted (fun a b : Z * Qc => (a.2 <= b.2)%Qc) e /\
    ((fsub best.2 gamma <= best.2)%Qc ->
     e ≡ₚ filter (fun x : Z * Qc => (fsub best.2 gamma <= x.2)%Qc) cands /\
     (forall q : Qc,
        filter (fun y : Z * Qc => y.2 = q) e
        = filter (fun y : Z * Qc => y.2 = q)
            (filter (fun x : Z * Qc => (fsub best.2 gamma <= x.2)%Qc)
               cands)) /\
     exists x, last e = Some x /\ x.2 = best.2) /\
    ((best.2 < fsub best.2 gamma)%Qc ->
     filter (fun x : Z * Qc => (fsub best.2 gamma <= x.2)%Qc) cands = [] /\
     e = [best]).
Proof.
  intros Hne. destruct (max_by_snd_ok cands Hne) as (best & Hbest & Hfirst).
  unfold expansions_of. rewrite Hbest. ok. cbv zeta.
  set (kept := filter (fun x : Z * Qc => (fsub best.2 gamma <= x.2)%Qc)
                 cands).
  destruct (decide (fsub best.2 gamma <= best.2)%Qc) as [Hg|Hg].
  - assert (Hin : best ∈ kept).
    { apply list_elem_of_filter. split; [done|].
      by apply first_max_snd_elem. }
    assert (Hin' : best ∈ sorted_by_snd kept).
    { by rewrite (sorted_by_snd_perm kept). }
    assert (Hlen : (0 < length (sorted_by_snd kept))%nat).
    { destruct (sorted_by_snd kept) eqn:He; [|simpl; lia].
      by apply elem_of_nil in Hin'. }
    exists (sorted_by_snd kept), best. split; [by rewrite decide_True|].
    split; [intros He; rewrite He in Hlen; simpl in Hlen; lia|].
    split; [done|]. split; [apply sorted_by_snd_sorted|]. split.
    + intros _. split; [apply sorted_by_snd_perm|].
      split; [intros q; apply sorted_by_snd_stable|].
      destruct (last (sorted_by_snd kept)) as [x|] eqn:Hl.
      * exists x. split; [done|]. apply Qcle_antisym.
        -- apply (first_max_snd_bound best cands); [done|].
           apply last_Some_elem_of in Hl.
           rewrite (sorted_by_snd_perm kept) in Hl.
           by apply list_elem_of_filter in Hl as [_ Hl].
        -- pose proof (strongly_sorted_last _ _ (sorted_by_snd_sorted kept) Hl)
             as Hall.
           by apply (proj1 (Forall_forall _ _) Hall).
      * apply last_None in Hl. rewrite Hl in Hlen. simpl in Hlen. lia.
    + intros Hlt. exfalso. by apply Qclt_not_le in Hlt.
  - apply Qcnot_le_lt in Hg.
    assert (Hnil : kept = []).
    { destruct kept as [|x kept'] eqn:Hk; [done|]. exfalso.
      assert (Hx : x ∈ kept) by (rewrite Hk; apply list_elem_of_here).
      apply list_elem_of_filter in Hx as [Hx1 Hx2].
      pose proof (first_max_snd_bound best cands x Hfirst Hx2) as Hle.
      apply (Qclt_not_le _ _ Hg). by eapply Qcle_trans. }
    exists [best], best. rewrite Hnil. simpl.
    split; [done|]. split; [done|]. split; [done|].
    split; [repeat constructor|]. split; [|done].
    intros Hge. exfalso. by apply Qclt_not_le in Hg.
Qed.

Lemma lookup_zip_range {A} (l : list A) (i : nat) x :
  l !! i = Some x ->
  zip (range (Z.of_nat (length l))) l !! i = Some (Z.of_nat i, x).
Proof.
  intros Hx. apply lookup_zip_with_Some. exists (Z.of_nat i), x.
  split; [done|]. split; [|done]. unfold range.
  apply lookup_seqZ. apply lookup_lt_Some in Hx. lia.
Qed.

Lemma lookup_zip_range_inv {A} (l : list A) (i : nat) p :
  zip (range (Z.of_nat (length l))) l !! i = Some p ->
  p.1 = Z.of_nat i /\ l !! i = Some p.2.
Proof.
  intros H. apply lookup_zip_with_Some in H as (j & x & -> & Hj & Hx).
  apply lookup_range in Hj as [-> _]. done.
Qed.

Lemma tget_out_of_range {A} (t : list A) (i : nat) :
  t !! i = None -> tget t (Z.of_nat i) = Err IndexError.
Proof.
  intros H. apply lookup_ge_None in H. unfold tget, norm_index.
  rewrite decide_False by lia. by rewrite decide_False by lia.
Qed.

Lemma mapM_result_first_error {A B} (f : A -> result B) l1 x l2 e :
  Forall (fun y => exists z, f y = Ok z) l1 -> f x = Err e ->
  mapM_result f (l1 ++ x :: l2) = Err e.
Proof.
  induction 1 as [|y l1 [z Hz] _ IH]; intros Hx; simpl.
  - by rewrite Hx.
  - rewrite Hz. ok. by rewrite IH.
Qed.

Lemma candidates_nonempty h idxs logps :
  idxs <> [] -> logps <> [] -> candidates fadd h idxs logps <> [].
Proof. by destruct idxs, logps. Qed.

Lemma candidates_empty h idxs logps :
  idxs = [] \/ logps = [] -> candidates fadd h idxs logps = [].
Proof. intros [-> | ->]; [done|]. by destruct idxs. Qed.

(** One turn of the loop, with the rows of the hypothesis at hand. *)
Lemma select_k_body (topk_idxs : list (list Z)) (topk_logps : list (list Qc))
    gamma (i : nat) h idxs logps :
  topk_idxs !! i = Some idxs -> topk_logps !! i = Some logps ->
  (idxs0 ← tget topk_idxs (Z.of_nat i, h).1;
   logps0 ← tget topk_logps (Z.of_nat i, h).1;
   expansions_of fsub gamma
     (zip_with (fun (k : Z) (v : Qc) => (k, fadd (score (Z.of_nat i, h).2) v))
        idxs0 logps0))
  = expansions_of fsub gamma (candidates fadd h idxs logps).
Proof.
  intros Hi Hl. cbn [fst snd].
  rewrite (tget_in_range topk_idxs _ idxs) by (rewrite ?Nat2Z.id; done || lia).
  ok.
  rewrite (tget_in_range topk_logps _ logps) by (rewrite ?Nat2Z.id; done || lia).
  ok. done.
Qed.

(** X3. [select_k_expansions] with a non-empty row of candidates for every
    hypothesis, for finite scores and whatever the rounding of the float
    addition and subtraction.  It returns one non-empty list per
    hypothesis, sorted by ascending score.  [best] is the best candidate of
    the hypothesis, the first one of the highest score, and the prune test
    of a candidate is [best - gamma <= score] as the code computes it.  When
    the best candidate passes its own test, the list holds exactly the
    candidates that pass, candidates of one score in their given order, and
    its last entry has the best score.  When it does not, no candidate
    passes and the list is the best candidate alone. *)
Theorem select_k_expansions_spec (hyps : list Hypothesis_)
    (topk_idxs : list (list Z)) (topk_logps : list (list Qc))
    (gamma : Qc) (beta : Z) :
  (forall i : nat, (i < length hyps)%nat ->
     exists idxs logps,
       topk_idxs !! i = Some idxs /\ topk_logps !! i = Some logps /\
       idxs <> [] /\ logps <> []) ->
  exists r,
    select_k_expansions fadd fsub hyps topk_idxs topk_logps gamma beta = Ok r /\
    length r = length hyps /\
    forall (i : nat) h idxs logps,
      hyps !! i = Some h -> topk_idxs !! i = Some idxs ->
      topk_logps !! i = Some logps ->
      exists e best,
        r !! i = Some e /\ e <> [] /\
        first_max_snd best (candidates fadd h idxs logps) /\
        StronglySorted (fun a b : Z * Qc => (a.2 <= b.2)%Qc) e /\
        ((fsub best.2 gamma <= best.2)%Qc ->
         e ≡ₚ filter (fun x : Z * Qc => (fsub best.2 gamma <= x.2)%Qc)
                (candidates fadd h idxs logps) /\
         (forall q : Qc,
            filter (fun y : Z * Qc => y.2 = q) e
            = filter (fun y : Z * Qc => y.2 = q)
                (filter (fun x : Z * Qc => (fsub best.2 gamma <= x.2)%Qc)
                   (candidates fadd h idxs logps))) /\
         exists x, last e = Some x /\ x.2 = best.2) /\
        ((best.2 < fsub best.2 gamma)%Qc ->
         filter (fun x : Z * Qc => (fsub best.2 gamma <= x.2)%Qc)
           (candidates fadd h idxs logps) = [] /\
         e = [best]).
Proof.
  intros Hrows. unfold select_k_expansions.
  set (f := fun ih : Z * Hypothesis_ =>
    idxs ← tget topk_idxs ih.1;
    logps ← tget topk_logps ih.1;
    expansions_of fsub gamma
      (zip_with (fun (k : Z) (v : Qc) => (k, fadd (score ih.2) v))
         idxs logps)).
  destruct (mapM_result_total f (zip (range (Z.of_nat (length hyps))) hyps))
    as (r & Hr & Hlen).
  { apply Forall_lookup_2. intros i [j h] Hp.
    apply lookup_zip_range_inv in Hp as [Hj Hh]. simpl in Hj, Hh. subst j.
    destruct (Hrows i) as (idxs & logps & Hi & Hl & Hne1 & Hne2).
    { by apply lookup_lt_Some in Hh. }
    unfold f. rewrite (select_k_body _ _ gamma i h idxs logps Hi Hl).
    destruct (expansions_of_ok gamma (candidates fadd h idxs logps))
      as (e & _ & He & _); [by apply candidates_nonempty|].
    by exists e. }
  exists r. split; [done|]. split.
  { rewrite Hlen, length_zip_with. unfold range. rewrite length_seqZ. lia. }
  intros i h idxs logps Hh Hi Hl.
  apply mapM_result_Ok_inv in Hr.
  destruct (Forall2_lookup_l _ _ _ i _ Hr (lookup_zip_range hyps i h Hh))
    as (e & He & Hfe).
  unfold f in Hfe. rewrite (select_k_body _ _ gamma i h idxs logps Hi Hl) in Hfe.
  destruct (Hrows i) as (idxs' & logps' & Hi' & Hl' & Hne1 & Hne2).
  { by apply lookup_lt_Some in Hh. }
  rewrite Hi in Hi'. rewrite Hl in Hl'. injection Hi' as <-.
  injection Hl' as <-.
  destruct (expansions_of_ok gamma (candidates fadd h idxs logps))
    as (e' & best & He' & Hrest); [by apply candidates_nonempty|].
  rewrite Hfe in He'. injection He' as <-.
  exists e, best. by split.
Qed.

(** X4. The failures of [select_k_expansions].  At the first hypothesis that
    has no row in [topk_idxs] or in [topk_logps] the call raises
    [IndexError]; at the first one whose row of candidates is empty it
    raises [ValueError], the error of [max] on an empty list. *)
Theorem select_k_expansions_errors (hyps : list Hypothesis_)
    (topk_idxs : list (list Z)) (topk_logps : list (list Qc))
    (gamma : Qc) (beta : Z) (i : nat) (h : Hypothesis_) :
  hyps !! i = Some h ->
  (forall j : nat, (j < i)%nat ->
     exists idxs logps,
       topk_idxs !! j = Some idxs /\ topk_logps !! j = Some logps /\
       idxs <> [] /\ logps <> []) ->
  match topk_idxs !! i, topk_logps !! i with
  | Some idxs, Some logps =>
      idxs = [] \/ logps = [] ->
      select_k_expansions fadd fsub hyps topk_idxs topk_logps gamma beta
      = Err ValueError
  | _, _ =>
      select_k_expansions fadd fsub hyps topk_idxs topk_logps gamma beta
      = Err IndexError
  end.
Proof.
  intros Hh Hrows. unfold select_k_expansions.
  set (f := fun ih : Z * Hypothesis_ =>
    idxs ← tget topk_idxs ih.1;
    logps ← tget topk_logps ih.1;
    expansions_of fsub gamma
      (zip_with (fun (k : Z) (v : Qc) => (k, fadd (score ih.2) v))
         idxs logps)).
  pose proof (lookup_zip_range hyps i h Hh) as Hz.
  rewrite <- (take_drop_middle _ _ _ Hz).
  assert (Hpre : Forall (fun y => exists z, f y = Ok z)
                   (take i (zip (range (Z.of_nat (length hyps))) hyps))).
  { apply Forall_lookup_2. intros j [j' h'] Hp.
    apply lookup_take_Some in Hp as [Hp Hj].
    apply lookup_zip_range_inv in Hp as [Hj' Hh']. simpl in Hj', Hh'.
    subst j'.
    destruct (Hrows j Hj) as (idxs & logps & Hi & Hl & Hne1 & Hne2).
    unfold f. rewrite (select_k_body _ _ gamma j h' idxs logps Hi Hl).
    destruct (expansions_of_ok gamma (candidates fadd h' idxs logps))
      as (e & _ & He & _); [by apply candidates_nonempty|].
    by exists e. }
  destruct (topk_idxs !! i) as [idxs|] eqn:Hi.
  - destruct (topk_logps !! i) as [logps|] eqn:Hl.
    + intros Hempty. apply mapM_result_first_error; [done|].
      unfold f. rewrite (select_k_body _ _ gamma i h idxs logps Hi Hl).
      by rewrite (candidates_empty h idxs logps Hempty).
    + apply mapM_result_first_error; [done|]. unfold f. cbn [fst snd].
      rewrite (tget_in_range topk_idxs _ idxs)
        by (rewrite ?Nat2Z.id; done || lia).
      ok. by rewrite (tget_out_of_range topk_logps i Hl).
  - apply mapM_result_first_error; [done|]. unfold f. cbn [fst snd].
    by rewrite (tget_out_of_range topk_idxs i Hi).
Qed.

End select_k_facts.

(** ** [Hypothesis.non_blank_frame_confidence] *)

Lemma non_blank_offset t t_prev rp :
  (if decide (t <> t_prev) then 0
   else Z.of_nat (count_leading t_prev rp) + 1)
  = Z.of_nat (count_leading t (t_prev :: rp)).
Proof.
  simpl. destruct (decide (t_prev = t)) as [->|Hne].
  - rewrite decide_False by (by intros ?). lia.
  - by rewrite decide_True by (by intros ->).
Qed.

Lemma run_before_start (ts : list Z) (j : nat) t :
  ts !! j = Some t ->
  run_before (-1 :: ts) (S j) = count_leading t (reverse (take j ts) ++ [-1]).
Proof.
  intros Hj. unfold run_before. simpl. rewrite Hj.
  by rewrite reverse_cons.
Qed.

Section non_blank_facts.

Context {A : Type} (atom_get : A -> Z -> result (pyval A)).

Lemma non_blank_loop_sound (fc : list (pyval A)) ts : forall t_prev rp r,
  non_blank_loop atom_get fc t_prev (Z.of_nat (count_leading t_prev rp)) ts
  = Ok r ->
  length r = length ts /\
  forall (j : nat) t, ts !! j = Some t ->
    exists frame c,
      tget fc t = Ok frame /\
      py_get atom_get frame
        (Z.of_nat (count_leading t (reverse (take j ts) ++ t_prev :: rp)))
        = Ok c /\
      r !! j = Some c.
Proof.
  induction ts as [|t ts IH]; intros t_prev rp r H.
  - injection H as <-. split; [done|]. intros j t Hj. done.
  - cbn [non_blank_loop] in H. cbv zeta in H.
    rewrite non_blank_offset in H.
    apply bind_Ok_inv in H as (frame & Hframe & H).
    apply bind_Ok_inv in H as (c & Hc & H).
    apply bind_Ok_inv in H as (rest & Hrest & [= <-]).
    destruct (IH t (t_prev :: rp) rest Hrest) as [Hlen Hall].
    split; [simpl; lia|]. intros [|j] u Hu.
    + injection Hu as <-. exists frame, c. by rewrite take_0.
    + destruct (Hall j u Hu) as (fr & c' & H1 & H2 & H3).
      exists fr, c'. split; [done|]. split; [|done].
      cbn [take]. rewrite reverse_cons, <- app_assoc. done.
Qed.

Lemma non_blank_loop_total (fc : list (pyval A)) ts : forall t_prev rp,
  (forall (j : nat) t, ts !! j = Some t ->
     exists frame c,
       tget fc t = Ok frame /\
       py_get atom_get frame
         (Z.of_nat (count_leading t (reverse (take j ts) ++ t_prev :: rp)))
         = Ok c) ->
  exists r,
    non_blank_loop atom_get fc t_prev (Z.of_nat (count_leading t_prev rp)) ts
    = Ok r.
Proof.
  induction ts as [|t ts IH]; intros t_prev rp H.
  - by exists [].
  - cbn [non_blank_loop]. cbv zeta. rewrite non_blank_offset.
    destruct (H 0%nat t eq_refl) as (frame & c & Hframe & Hc).
    rewrite take_0 in Hc. simpl in Hc. rewrite Hframe. ok.
    simpl. rewrite Hc. ok.
    destruct (IH t (t_prev :: rp)) as [rest Hrest].
    { intros j u Hu. destruct (H (S j) u Hu) as (fr & c' & H1 & H2).
      exists fr, c'. split; [done|].
      cbn [take] in H2. by rewrite reverse_cons, <- app_assoc in H2. }
    simpl in Hrest. rewrite Hrest. ok. by eexists.
Qed.

(** X5. [non_blank_frame_confidence], for a [timestep] that is a list or a
    dict and a [frame_confidence] of either layout.  A dict without the key
    ['timestep'] raises [KeyError].  Without [frame_confidence], or with an
    empty [timestep], the result is the empty list, so the result has the
    length of [timestep] only when there is a frame confidence.  Otherwise
    the call returns exactly when every label finds its entry, and the
    result has one entry per label: when no element of [frame_confidence] is
    a list, label [j], emitted at frame [t], gets [frame_confidence[t]];
    when some element is a list, it gets [frame_confidence[t][k]], where [k]
    counts the labels directly before it at the same frame, the count
    starting from a frame [-1] before the first label. *)
Theorem non_blank_frame_confidence_spec (timestep : timestep_field)
    (frame_confidence : option (list (pyval A))) :
  (timestep = TimestepDict None ->
   non_blank_frame_confidence atom_get timestep frame_confidence
   = Err KeyError) /\
  forall ts, timestep = TimestepList ts \/ timestep = TimestepDict (Some ts) ->
    (frame_confidence = None \/ ts = [] ->
     non_blank_frame_confidence atom_get timestep frame_confidence = Ok []) /\
    forall fc, frame_confidence = Some fc -> ts <> [] ->
      let entry (j : nat) (frame : pyval A) :=
        if existsb is_list fc
        then py_get atom_get frame
               (Z.of_nat (run_before (-1 :: ts) (S j)))
        else Ok frame in
      ((forall (j : nat) t, ts !! j = Some t ->
          exists frame c, tget fc t = Ok frame /\ entry j frame = Ok c) ->
       exists r,
         non_blank_frame_confidence atom_get timestep frame_confidence
         = Ok r) /\
      (forall r,
         non_blank_frame_confidence atom_get timestep frame_confidence
         = Ok r ->
         length r = length ts /\
         forall (j : nat) t, ts !! j = Some t ->
           exists frame c,
             tget fc t = Ok frame /\ entry j frame = Ok c /\
             r !! j = Some c).
Proof.
  split; [by intros ->|].
  intros ts Hts.
  assert (E : non_blank_frame_confidence atom_get timestep frame_confidence
              = match frame_confidence with
                | Some fc =>
                    if decide (length ts <> 0%nat) then
                      if existsb is_list fc
                      then non_blank_loop atom_get fc (-1) 0 ts
                      else mapM_result (tget fc) ts
                    else Ok []
                | None => Ok []
                end).
  { by destruct Hts as [-> | ->]. }
  rewrite E. clear E Hts. split.
  - intros [-> | ->]; [done|]. by destruct frame_confidence.
  - intros fc -> Hne entry.
    rewrite decide_True by (by destruct ts).
    unfold entry. clear entry.
    destruct (existsb is_list fc).
    + split.
      * intros Hall.
        apply (non_blank_loop_total fc ts (-1) []).
        intros j t Hj. destruct (Hall j t Hj) as (frame & c & Hf & Hc).
        exists frame, c. split; [done|].
        by rewrite (run_before_start _ _ _ Hj) in Hc.
      * intros r Hr.
        destruct (non_blank_loop_sound fc ts (-1) [] r Hr) as [Hlen Hall].
        split; [done|]. intros j t Hj.
        destruct (Hall j t Hj) as (frame & c & Hf & Hc & Hrj).
        exists frame, c. by rewrite (run_before_start _ _ _ Hj).
    + split.
      * intros Hall.
        destruct (mapM_result_total (tget fc) ts) as (r & Hr & _).
        { apply Forall_lookup_2. intros j t Hj.
          destruct (Hall j t Hj) as (frame & c & Hf & _). by exists frame. }
        by exists r.
      * intros r Hr. apply mapM_result_Ok_inv in Hr.
        split; [symmetry; by eapply Forall2_length|].
        intros j t Hj.
        destruct (Forall2_lookup_l _ _ _ _ _ Hr Hj) as (c & Hc & Hf).
        by exists c, c.
Qed.

End non_blank_facts.

(** * More on the greedy buffer *)

(** ** [clear_] *)

Lemma fill_replicate {A} (v : A) (l : list A) :
  fill_ v l = replicate (length l) v.
Proof.
  induction l as [|x l IH]; [done|]. cbn. f_equal. exact IH.
Qed.

Lemma fill2_replicate {A} (v : A) (L : nat) (t : list (list A)) :
  Forall (fun row => length row = L) t ->
  fill2_ v t = replicate (length t) (replicate L v).
Proof.
  induction 1 as [|row t Hrow _ IH]; [done|]. cbn. f_equal; [|exact IH].
  by rewrite <- Hrow, <- fill_replicate.
Qed.

(** X6. [clear_] returns a greedy buffer to the state in which the
    constructor leaves a buffer of the same batch size and of the capacity
    the buffer has grown to: the rows keep their length and every entry,
    cursor, score and counter has its initial value. *)
Theorem clear_is_fresh (B : nat) (s : BatchedHyps.t) :
  wf B s -> (0 < B)%nat -> BatchedHyps.batch_size s = Z.of_nat B ->
  BatchedHyps.init (Z.of_nat B) (BatchedHyps._max_length s)
  = Ok (BatchedHyps.clear_ s).
Proof.
  intros [HL Hcl Hsc Hlt Hll Htr0 Hts0 Hbi Hob Htrr Htsr Hcur] HB Hbs.
  unfold BatchedHyps.init, BatchedHyps.clear_.
  rewrite !decide_False by lia. rewrite Nat2Z.id.
  rewrite !fill_replicate, Hcl, Hsc, Hlt, Hll, Hbi, Hob, Hbs.
  rewrite (fill2_replicate 0 (Z.to_nat (BatchedHyps._max_length s))
             (BatchedHyps.transcript s)).
  2:{ eapply Forall_impl; [exact Htrr|]. simpl. lia. }
  rewrite (fill2_replicate 0 (Z.to_nat (BatchedHyps._max_length s))
             (BatchedHyps.timesteps s)).
  2:{ eapply Forall_impl; [exact Htsr|]. simpl. lia. }
  by rewrite Htr0, Hts0.
Qed.

(** ** The log of a run *)

Lemma foldl_append_item_skip it (us : list (option (Z * Z * Qc))) :
  foldl append_item it us = foldl append_item it (Some <$> omap id us).
Proof.
  revert it. induction us as [|[u|] us IH]; intros it; simpl; [done|..].
  - apply IH.
  - apply IH.
Qed.

Lemma omap_id_fmap {A B} (f : A -> option B) (l : list A) :
  omap id (f <$> l) = omap f l.
Proof.
  induction l as [|x l IH]; [done|]. cbn.
  destruct (f x); cbn; [f_equal|]; exact IH.
Qed.

Lemma foldl_append_item_some it (us : list (Z * Z * Qc)) :
  foldl append_item it (Some <$> us)
  = foldl (fun it u => append_item it (Some u)) it us.
Proof.
  revert it. induction us as [|u us IH]; intros it; [done|]. cbn. apply IH.
Qed.

Lemma foldl_append_item_log (us : list (Z * Z * Qc)) : forall it,
  let it' := foldl (fun it u => append_item it (Some u)) it us in
  it_labels it' = it_labels it ++ ((fun u : Z * Z * Qc => u.1.1) <$> us) /\
  it_timesteps it'
    = it_timesteps it ++ ((fun u : Z * Z * Qc => u.1.2) <$> us) /\
  it_score it'
    = foldl (fun acc (u : Z * Z * Qc) => (acc + u.2)%Qc) (it_score it) us /\
  it_length it' = it_length it + Z.of_nat (length us).
Proof.
  induction us as [|[[l t] x] us IH]; intros it.
  - cbn. rewrite !app_nil_r. repeat split; lia.
  - destruct (IH (append_item it (Some (l, t, x)))) as (H1 & H2 & H3 & H4).
    cbn [foldl fmap list_fmap length]. cbv zeta.
    rewrite H1, H2, H3, H4. cbn [append_item it_labels it_timesteps it_score
      it_length fst snd].
    rewrite <- !app_assoc. repeat split; lia.
Qed.

(** The repeat counter follows the trailing run of the time indices. *)
Lemma foldl_append_item_counter (us : list (Z * Z * Qc)) : forall it rt,
  it_last_timestep_lasts it
    = Z.of_nat (count_leading (it_last_timestep it) rt) ->
  (forall t, t <> it_last_timestep it -> count_leading t rt = 0%nat) ->
  let it' := foldl (fun it u => append_item it (Some u)) it us in
  let times := reverse ((fun u : Z * Z * Qc => u.1.2) <$> us) ++ rt in
  it_last_timestep it'
    = default (it_last_timestep it)
        (head (reverse ((fun u : Z * Z * Qc => u.1.2) <$> us))) /\
  it_last_timestep_lasts it'
    = Z.of_nat (count_leading (it_last_timestep it') times).
Proof.
  induction us as [|[[l t] x] us IH]; intros it rt Hit Hother.
  - done.
  - set (it1 := append_item it (Some (l, t, x))).
    assert (E1 : it_last_timestep it1 = t) by done.
    destruct (IH it1 (t :: rt)) as [H1 H2].
    { cbn. rewrite (decide_True (P := t = t)) by done. case_decide as Heq.
      + rewrite <- Heq, Hit. lia.
      + rewrite (Hother t) by (by intros ->). done. }
    { rewrite E1. intros u Hu. cbn. by rewrite decide_False by done. }
    cbv zeta in H1, H2. cbv zeta.
    change (foldl (fun it u => append_item it (Some u)) it ((l, t, x) :: us))
      with (foldl (fun it u => append_item it (Some u)) it1 us).
    change ((fun u : Z * Z * Qc => u.1.2) <$> (l, t, x) :: us)
      with (t :: ((fun u : Z * Z * Qc => u.1.2) <$> us)).
    rewrite reverse_cons, <- app_assoc. split; [|exact H2].
    rewrite H1, E1.
    by destruct (reverse ((fun u : Z * Z * Qc => u.1.2) <$> us)).
Qed.

Lemma run_log {C} (step : BatchedHyps.t -> C -> result BatchedHyps.t)
    (upd : C -> nat -> option (Z * Z * Qc)) (valid : C -> Prop)
    (B L : Z) (calls : list C) :
  (forall s c, wf (Z.to_nat B) s -> valid c ->
     exists s', step s c = Ok s' /\ wf (Z.to_nat B) s' /\
       forall b, (b < Z.to_nat B)%nat ->
         item_of s' b = (fun it => append_item it (upd c b)) <$> item_of s b) ->
  0 < B -> 0 < L -> Forall valid calls ->
  exists s', (s ← BatchedHyps.init B L; run step s calls) = Ok s' /\
    forall b, (b < Z.to_nat B)%nat ->
      item_of s' b =
        Some (foldl (fun it u => append_item it (Some u))
                (Item 0%Qc 0 (-1) 0 [] []) (updates_of upd calls b)).
Proof.
  intros Hstep HB HL Hv.
  destruct (run_from_init step upd valid B L calls Hstep HB HL Hv)
    as (s' & Hs' & _ & Hit).
  exists s'. split; [done|]. intros b Hb. rewrite (Hit b Hb). f_equal.
  rewrite foldl_append_item_skip, omap_id_fmap.
  apply foldl_append_item_some.
Qed.

(** X7. The log of a run of [add_results_].  After any sequence of valid
    calls on a fresh buffer, the labels of an item are the labels of the
    calls in which it was active, in the order of the calls, its timesteps
    are their time indices, its score is the sum of their scores and its
    length is their number. *)
Theorem index_run_log (B L : Z) (calls : list index_call) :
  0 < B -> 0 < L -> Forall (valid_index_call (Z.to_nat B)) calls ->
  exists s',
    (s ← BatchedHyps.init B L; run call_index s calls) = Ok s' /\
    forall b, (b < Z.to_nat B)%nat ->
      exists it, item_of s' b = Some it /\
        it_labels it
          = (fun u : Z * Z * Qc => u.1.1)
              <$> updates_of index_update calls b /\
        it_timesteps it
          = (fun u : Z * Z * Qc => u.1.2)
              <$> updates_of index_update calls b /\
        it_score it = total_score (updates_of index_update calls b) /\
        it_length it
          = Z.of_nat (length (updates_of index_update calls b)).
Proof.
  intros HB HL Hv.
  destruct (run_log call_index index_update
              (valid_index_call (Z.to_nat B)) B L calls) as (s' & Hs' & Hit);
    [|done|done|done|].
  { intros s c. apply call_index_spec. }
  exists s'. split; [done|]. intros b Hb. eexists. split; [by apply Hit|].
  destruct (foldl_append_item_log (updates_of index_update calls b)
              (Item 0%Qc 0 (-1) 0 [] [])) as (H1 & H2 & H3 & H4).
  cbv zeta in H1, H2, H3, H4. rewrite H1, H2, H3, H4. by repeat split.
Qed.

(** X8. The repeat counter of the mask-based path.  After any sequence of
    valid [add_results_masked_] calls on a fresh buffer, [last_timestep] of
    an item is the time index of its last label, -1 when it has none, and
    [last_timestep_lasts] is the number of labels at the end of its
    timesteps that carry this time index: the labels emitted in a row at the
    last frame. *)
Theorem mask_run_repeat_counter (B L : Z) (calls : list mask_call) :
  0 < B -> 0 < L -> Forall (valid_mask_call (Z.to_nat B)) calls ->
  exists s',
    (s ← BatchedHyps.init B L; run call_mask s calls) = Ok s' /\
    forall b, (b < Z.to_nat B)%nat ->
      exists it, item_of s' b = Some it /\
        it_timesteps it
          = (fun u : Z * Z * Qc => u.1.2)
              <$> updates_of mask_update calls b /\
        it_last_timestep it = default (-1) (last (it_timesteps it)) /\
        it_last_timestep_lasts it
          = Z.of_nat (count_leading (it_last_timestep it)
                        (reverse (it_timesteps it))).
Proof.
  intros HB HL Hv.
  destruct (run_log call_mask mask_update
              (valid_mask_call (Z.to_nat B)) B L calls) as (s' & Hs' & Hit);
    [|done|done|done|].
  { intros s c. apply call_mask_spec. lia. }
  exists s'. split; [done|]. intros b Hb. eexists. split; [by apply Hit|].
  destruct (foldl_append_item_log (updates_of mask_update calls b)
              (Item 0%Qc 0 (-1) 0 [] [])) as (_ & H2 & _).
  destruct (foldl_append_item_counter (updates_of mask_update calls b)
              (Item 0%Qc 0 (-1) 0 [] []) []) as [H3 H4]; [done | done |].
  cbv zeta in H2, H3, H4. rewrite app_nil_r in H4.
  rewrite H2. cbn [it_timesteps app]. split; [done|].
  rewrite <- head_reverse. split; [exact H3 | exact H4].
Qed.

(** ** The capacity along a run *)

Lemma add_results_no_checks_max_length s ai lb ti sc s' :
  BatchedHyps.add_results_no_checks_ s ai lb ti sc = Ok s' ->
  BatchedHyps._max_length s' = BatchedHyps._max_length s.
Proof.
  unfold BatchedHyps.add_results_no_checks_. intros H.
  repeat (apply bind_Ok_inv in H as (? & _ & H)).
  by injection H as <-.
Qed.

Lemma item_of_length s b it :
  item_of s b = Some it ->
  BatchedHyps.current_lengths s !! b = Some (it_length it).
Proof.
  unfold item_of. intros H.
  destruct (BatchedHyps.scores s !! b); [|done].
  destruct (BatchedHyps.current_lengths s !! b); [|done].
  destruct (BatchedHyps.last_timestep s !! b); [|done].
  destruct (BatchedHyps.last_timestep_lasts s !! b); [|done].
  destruct (BatchedHyps.transcript s !! b); [|done].
  destruct (BatchedHyps.timesteps s !! b); [|done].
  simpl in H. by injection H as <-.
Qed.

Lemma item_of_is_Some B s b : wf B s -> (b < B)%nat -> is_Some (item_of s b).
Proof.
  intros [HL Hcl Hsc Hlt Hll Htr0 Hts0 Hbi Hob Htrr Htsr Hcur] Hb.
  unfold item_of.
  destruct (lookup_lt_is_Some_2 (BatchedHyps.scores s) b) as [? ->]; [lia|].
  destruct (lookup_lt_is_Some_2 (BatchedHyps.current_lengths s) b) as [? ->];
    [lia|].
  destruct (lookup_lt_is_Some_2 (BatchedHyps.last_timestep s) b) as [? ->];
    [lia|].
  destruct (lookup_lt_is_Some_2 (BatchedHyps.last_timestep_lasts s) b)
    as [? ->]; [lia|].
  destruct (lookup_lt_is_Some_2 (BatchedHyps.transcript s) b) as [? ->];
    [lia|].
  destruct (lookup_lt_is_Some_2 (BatchedHyps.timesteps s) b) as [? ->];
    [lia|].
  by eexists.
Qed.

(** One call: the capacity stays or doubles, it doubles only when a row is
    full, and no length decreases. *)
Lemma call_index_capacity B s c :
  wf B s -> valid_index_call B c ->
  exists s', call_index s c = Ok s' /\ wf B s' /\
    (BatchedHyps._max_length s' = BatchedHyps._max_length s \/
     BatchedHyps._max_length s' = 2 * BatchedHyps._max_length s /\
     BatchedHyps._max_length s ∈ BatchedHyps.current_lengths s) /\
    forall (b : nat) n, BatchedHyps.current_lengths s !! b = Some n ->
      exists n', BatchedHyps.current_lengths s' !! b = Some n' /\ n <= n'.
Proof.
  intros Hwf Hc.
  destruct (call_index_spec B s c Hwf Hc) as (s' & Hs' & Hwf' & Hit).
  exists s'. split; [done|]. split; [done|]. split.
  - unfold call_index, BatchedHyps.add_results_ in Hs'.
    case_decide; [injection Hs' as <-; by left|].
    apply bind_Ok_inv in Hs' as (m & Hm & Hs'). cbv zeta in Hs'.
    apply add_results_no_checks_max_length in Hs'. rewrite Hs'.
    case_decide as Hge; [|by left]. right. simpl. split; [lia|].
    assert (Hne : BatchedHyps.current_lengths s <> []).
    { intros Hnil. by rewrite Hnil in Hm. }
    destruct (tensor_max_ok _ Hne) as (m' & Hm' & Hmax & Hin).
    rewrite Hm in Hm'. injection Hm' as <-.
    pose proof (proj1 (Forall_forall _ _) (wf_cursor _ _ Hwf) m Hin) as Hle.
    simpl in Hle. by replace (BatchedHyps._max_length s) with m by lia.
  - intros b n Hn.
    assert (Hb : (b < B)%nat).
    { apply lookup_lt_Some in Hn. by rewrite (wf_current_lengths _ _ Hwf) in Hn. }
    destruct (item_of_is_Some B s b Hwf Hb) as [it Hitb].
    pose proof (Hit b Hb) as H'. rewrite Hitb in H'. simpl in H'.
    apply item_of_length in H'. apply item_of_length in Hitb.
    rewrite Hn in Hitb. injection Hitb as ->.
    eexists. split; [exact H'|].
    destruct (index_update c b) as [[[? ?] ?]|]; simpl; lia.
Qed.

Lemma run_index_capacity B L0 calls : forall s,
  wf B s -> Forall (valid_index_call B) calls ->
  (exists k : nat, BatchedHyps._max_length s = L0 * 2 ^ Z.of_nat k) ->
  (exists n, n ∈ BatchedHyps.current_lengths s /\
     BatchedHyps._max_length s <= Z.max L0 (2 * n)) ->
  exists s', run call_index s calls = Ok s' /\ wf B s' /\
    (exists k : nat, BatchedHyps._max_length s' = L0 * 2 ^ Z.of_nat k) /\
    (exists n, n ∈ BatchedHyps.current_lengths s' /\
       BatchedHyps._max_length s' <= Z.max L0 (2 * n)).
Proof.
  induction calls as [|c calls IH]; intros s Hwf Hv Hpow Hbound.
  - by exists s.
  - inversion_clear Hv as [|? ? Hc Hv'].
    destruct (call_index_capacity B s c Hwf Hc)
      as (s1 & Hs1 & Hwf1 & Hcap & Hmono).
    destruct (IH s1) as (s' & Hs' & Hrest); [done | done | | |].
    + destruct Hpow as [k Hk]. destruct Hcap as [-> | [-> _]].
      * by exists k.
      * exists (S k). rewrite Hk, Nat2Z.inj_succ, Z.pow_succ_r by lia. lia.
    + destruct Hcap as [-> | [-> Hfull]].
      * destruct Hbound as (n & Hn & Hle).
        apply list_elem_of_lookup in Hn as [b Hb].
        destruct (Hmono b n Hb) as (n' & Hn' & Hnn').
        exists n'. split; [by eapply list_elem_of_lookup_2|]. lia.
      * apply list_elem_of_lookup in Hfull as [b Hb].
        destruct (Hmono b _ Hb) as (n' & Hn' & Hnn').
        exists n'. split; [by eapply list_elem_of_lookup_2|]. lia.
    + exists s'. simpl. rewrite Hs1. ok. by split.
Qed.

(** X9. The capacity of a greedy buffer along a run of [add_results_] from a
    buffer of capacity [L0]: it is [L0] doubled some number of times, every
    length is within it, and it is at most the larger of [L0] and twice the
    length of the longest item. *)
Theorem index_run_capacity (B L0 : Z) (calls : list index_call) :
  0 < B -> 0 < L0 -> Forall (valid_index_call (Z.to_nat B)) calls ->
  exists s',
    (s ← BatchedHyps.init B L0; run call_index s calls) = Ok s' /\
    (exists k : nat, BatchedHyps._max_length s' = L0 * 2 ^ Z.of_nat k) /\
    Forall (fun n => 0 <= n <= BatchedHyps._max_length s')
      (BatchedHyps.current_lengths s') /\
    exists n, n ∈ BatchedHyps.current_lengths s' /\
      BatchedHyps._max_length s' <= Z.max L0 (2 * n).
Proof.
  intros HB HL Hv.
  destruct (init_spec B L0 HB HL) as (s0 & Hs0 & Hwf0 & HL0 & Hit0).
  rewrite Hs0. ok.
  destruct (run_index_capacity (Z.to_nat B) L0 calls s0)
    as (s' & Hs' & Hwf' & Hpow & Hbound); [done | done | | |].
  - exists 0%nat. rewrite HL0. simpl. lia.
  - destruct (item_of_is_Some (Z.to_nat B) s0 0 Hwf0) as [it Hit]; [lia|].
    apply item_of_length in Hit. exists (it_length it).
    split; [by eapply list_elem_of_lookup_2|]. rewrite HL0. lia.
  - exists s'. split; [done|]. split; [done|].
    split; [exact (wf_cursor _ _ Hwf')|done].
Qed.

(** ** The mask-based path without checks on a full row *)

Lemma tset_full {A} (row : list A) (v : A) :
  tset row (Z.of_nat (length row)) v = Err IndexError.
Proof.
  unfold tset, norm_index.
  rewrite decide_False by lia. by rewrite decide_False by lia.
Qed.

Lemma index_put2_full_row {A} (L : Z) (cols : list Z) :
  forall (o : nat) (t : list (list A)) (vals : list A),
    length vals = length cols -> (o + length cols <= length t)%nat ->
    Forall (fun row => Z.of_nat (length row) = L) t ->
    Forall (fun c => 0 <= c <= L) cols -> L ∈ cols ->
    index_put2 t (seqZ (Z.of_nat o) (Z.of_nat (length cols))) cols vals
    = Err IndexError.
Proof.
  induction cols as [|c cols IH]; intros o t vals Hvals Ho Hrows Hcols Hin.
  - by apply elem_of_nil in Hin.
  - destruct vals as [|v vals]; [done|].
    rewrite seqZ_cons by (simpl; lia). cbn [index_put2].
    destruct (lookup_lt_is_Some_2 t o) as [row Hrow]; [simpl in Ho; lia|].
    rewrite (tget_in_range t _ row) by (rewrite ?Nat2Z.id; done || lia). ok.
    pose proof (Forall_lookup_1 _ _ _ _ Hrows Hrow) as Hlen. simpl in Hlen.
    inversion_clear Hcols as [|? ? Hc Hcols'].
    destruct (decide (c = L)) as [->|Hne].
    + rewrite <- Hlen. by rewrite tset_full.
    + rewrite tset_in_range by lia. ok.
      rewrite tset_in_range by (apply lookup_lt_Some in Hrow; lia). ok.
      replace (Z.succ (Z.of_nat o)) with (Z.of_nat (S o)) by lia.
      replace (Z.pred (Z.of_nat (length (c :: cols))))
        with (Z.of_nat (length cols)) by (simpl; lia).
      apply IH.
      * simpl in Hvals. lia.
      * rewrite length_insert. simpl in Ho. lia.
      * rewrite Nat2Z.id. apply Forall_insert; [done|].
        by rewrite length_insert.
      * done.
      * apply elem_of_cons in Hin as [->|Hin]; [done|done].
Qed.

(** X10. [add_results_masked_no_checks_] writes into the row of every item.
    When the row of some item is full, be the item active or not, the call
    raises [IndexError]: without the capacity check the mask-based path
    needs room in every row. *)
Theorem masked_no_checks_full_row (B : nat) (s : BatchedHyps.t)
    (c : mask_call) :
  wf B s -> valid_mask_call B c ->
  BatchedHyps._max_length s ∈ BatchedHyps.current_lengths s ->
  BatchedHyps.add_results_masked_no_checks_ s (mc_active_mask c)
    (mc_labels c) (mc_time_indices c) (mc_scores c) = Err IndexError.
Proof.
  intros [HL Hcl Hsc Hlt Hll Htr0 Hts0 Hbi Hob Htrr Htsr Hcur]
    (Hm & Hl & Ht & Hs) Hfull.
  unfold BatchedHyps.add_results_masked_no_checks_.
  rewrite (zip_same_ok Qcplus (BatchedHyps.scores s) (mc_scores c)) by lia.
  ok.
  rewrite (where_ok (mc_active_mask c)
             (zip_with Qcplus (BatchedHyps.scores s) (mc_scores c))
             (BatchedHyps.scores s)) by (rewrite ?length_zip_with; lia).
  ok. rewrite Hbi. unfold arange. rewrite <- Hcl.
  assert (E : index_put2 (BatchedHyps.transcript s)
                (seqZ 0 (Z.of_nat (length (BatchedHyps.current_lengths s))))
                (BatchedHyps.current_lengths s) (mc_labels c)
              = Err IndexError).
  { apply (index_put2_full_row (BatchedHyps._max_length s)
             (BatchedHyps.current_lengths s) 0 (BatchedHyps.transcript s)
             (mc_labels c)); [lia | lia | done | | done].
    eapply Forall_impl; [exact Hcur|]. simpl. lia. }
  by rewrite E.
Qed.

(** * The alignment buffer *)

Lemma put2_at_cursor {A} B L (t : list (list A)) lens idx cols vals :
  length t = B ->
  Forall (fun row => Z.of_nat (length row) = L) t ->
  Forall (fun n => 0 <= n < L) lens ->
  NoDup idx -> Forall (fun i => 0 <= i < Z.of_nat B) idx ->
  Forall2 (fun i n => lens !! Z.to_nat i = Some n) idx cols ->
  length vals = length idx ->
  exists t', index_put2 t idx cols vals = Ok t' /\ length t' = B /\
    Forall (fun row => Z.of_nat (length row) = L) t' /\
    forall b,
      t' !! b = match pos_of b idx with
                | Some j =>
                    row ← t !! b; n ← lens !! b; v ← vals !! j;
                    Some (<[Z.to_nat n := v]> row)
                | None => t !! b
                end.
Proof.
  intros Ht Hrows Hlens Hnd Hr Hcols Hv.
  pose proof (Forall2_length _ _ _ Hcols) as Hcl.
  destruct (index_put2_ok t idx cols vals) as (t' & Hput & Hlen & Hlk);
    [done | by rewrite Ht | lia | lia | |].
  { intros j i n row Hj Hn Hrow.
    destruct (Forall2_lookup_l _ _ _ _ _ Hcols Hj) as (n' & Hn' & Hin).
    assert (n' = n) as -> by congruence.
    pose proof (Forall_lookup_1 _ _ _ _ Hlens Hin) as H1. simpl in H1.
    pose proof (Forall_lookup_1 _ _ _ _ Hrows Hrow) as H2. simpl in H2. lia. }
  assert (Hlk' : forall b,
    t' !! b = match pos_of b idx with
              | Some j =>
                  row ← t !! b; n ← lens !! b; v ← vals !! j;
                  Some (<[Z.to_nat n := v]> row)
              | None => t !! b
              end).
  { intros b. rewrite (Hlk b).
    destruct (pos_of b idx) as [j|] eqn:Hp; [|done].
    rewrite <- (gather_lookup lens idx cols b j Hcols Hp). done. }
  exists t'. split; [done|]. split; [lia|]. split; [|done].
  apply Forall_lookup_2. intros b row' Hb. rewrite (Hlk' b) in Hb.
  destruct (pos_of b idx) as [j|].
  - destruct (t !! b) as [row|] eqn:Hrow; [|done]. cbn in Hb.
    destruct (lens !! b) as [n|]; [|done]. cbn in Hb.
    destruct (vals !! j) as [v|]; [|done]. cbn in Hb.
    injection Hb as <-. rewrite length_insert.
    apply (Forall_lookup_1 _ _ _ _ Hrows Hrow).
  - apply (Forall_lookup_1 _ _ _ _ Hrows Hb).
Qed.

Lemma extended_index {A} B L (t t' : list (list A)) lens lens' idx vals b :
  length t = B ->
  Forall (fun row => Z.of_nat (length row) = L) t ->
  length lens = B ->
  Forall (fun n => 0 <= n < L) lens ->
  length vals = length idx ->
  (b < B)%nat ->
  t' !! b = match pos_of b idx with
            | Some j =>
                row ← t !! b; n ← lens !! b; v ← vals !! j;
                Some (<[Z.to_nat n := v]> row)
            | None => t !! b
            end ->
  lens' !! b = (fun n => match pos_of b idx with
                         | Some _ => n + 1
                         | None => n
                         end) <$> lens !! b ->
  extended t t' lens lens' b (index_frame idx vals b).
Proof.
  intros Ht Hrows Hl Hlens Hv Hb Ht' Hl'.
  unfold extended, recorded, index_frame. rewrite Ht', Hl'.
  destruct (lookup_lt_is_Some_2 t b) as [row Hrow]; [lia|].
  destruct (lookup_lt_is_Some_2 lens b) as [n Hn]; [lia|].
  pose proof (Forall_lookup_1 _ _ _ _ Hlens Hn) as H1. simpl in H1.
  pose proof (Forall_lookup_1 _ _ _ _ Hrows Hrow) as H2. simpl in H2.
  rewrite Hrow, Hn. cbn.
  destruct (pos_of b idx) as [j|] eqn:Hp; cbn.
  - apply pos_of_Some in Hp. apply lookup_lt_Some in Hp.
    destruct (lookup_lt_is_Some_2 vals j) as [v Hv']; [lia|].
    rewrite Hv'. cbn. f_equal. apply slice_to_insert_snoc. lia.
  - by rewrite app_nil_r.
Qed.

Lemma extended_mask {A} B L (t t' : list (list A)) lens lens' mask vals b :
  length t = B ->
  Forall (fun row => Z.of_nat (length row) = L) t ->
  length lens = B ->
  Forall (fun n => 0 <= n < L) lens ->
  length vals = B -> length mask = B ->
  (b < B)%nat ->
  t' !! b = (row ← t !! b; n ← lens !! b; v ← vals !! b;
             Some (<[Z.to_nat n := v]> row)) ->
  lens' !! b = (l ← lens !! b; m ← mask !! b; Some (l + bool_to_Z m)) ->
  extended t t' lens lens' b (mask_frame mask vals b).
Proof.
  intros Ht Hrows Hl Hlens Hv Hm Hb Ht' Hl'.
  unfold extended, recorded, mask_frame. rewrite Ht', Hl'.
  destruct (lookup_lt_is_Some_2 t b) as [row Hrow]; [lia|].
  destruct (lookup_lt_is_Some_2 lens b) as [n Hn]; [lia|].
  destruct (lookup_lt_is_Some_2 vals b) as [v Hv']; [lia|].
  destruct (lookup_lt_is_Some_2 mask b) as [m Hm']; [lia|].
  pose proof (Forall_lookup_1 _ _ _ _ Hlens Hn) as H1. simpl in H1.
  pose proof (Forall_lookup_1 _ _ _ _ Hrows Hrow) as H2. simpl in H2.
  rewrite Hrow, Hn, Hv', Hm'. cbn. f_equal.
  destruct m; cbn.
  - apply slice_to_insert_snoc. lia.
  - rewrite Z.add_0_r, app_nil_r. apply slice_to_insert_cursor. lia.
Qed.

(** ** The last axis *)

Lemma last_dim_lookup {A} (t : list (list (list A))) :
  last_dim t = match t !! 0%nat with
               | Some row => match row !! 0%nat with
                             | Some c => length c
                             | None => 0%nat
                             end
               | None => 0%nat
               end.
Proof. by destruct t as [|[|c row] t]. Qed.

Lemma expand_entry_length {A} d (v : list A) :
  fits d v -> length (expand_entry d v) = d.
Proof.
  intros Hv. unfold expand_entry. case_decide as Hd; [done|].
  destruct Hv as [Hv|Hv]; [done|].
  destruct v as [|x [|y v]]; try done. by rewrite length_replicate.
Qed.

Lemma broadcast_entry_fits {A} d (v : list A) :
  fits d v -> broadcast_entry d v = Ok (expand_entry d v).
Proof.
  intros Hv. unfold broadcast_entry, expand_entry. case_decide as Hd; [done|].
  destruct Hv as [Hv|Hv]; [done|]. by destruct v as [|x [|y v]].
Qed.

Lemma broadcast_entries_fit {A} d (vals : list (list A)) :
  Forall (fits d) vals ->
  mapM_result (broadcast_entry d) vals = Ok (expand_entry d <$> vals).
Proof.
  intros H. apply mapM_result_Ok. apply Forall2_fmap_r, Forall_Forall2_diag.
  eapply Forall_impl; [exact H|]. simpl. intros v.
  apply broadcast_entry_fits.
Qed.

Lemma put2_cells_at_cursor {A} B L (t : list (list (list A))) lens idx cols
    vals :
  length t = B ->
  Forall (fun row => Z.of_nat (length row) = L) t ->
  Forall (fun n => 0 <= n < L) lens ->
  NoDup idx -> Forall (fun i => 0 <= i < Z.of_nat B) idx ->
  Forall2 (fun i n => lens !! Z.to_nat i = Some n) idx cols ->
  length vals = length idx ->
  Forall (fits (last_dim t)) vals ->
  exists t', index_put2_cells t idx cols vals = Ok t' /\ length t' = B /\
    Forall (fun row => Z.of_nat (length row) = L) t' /\
    last_dim t' = last_dim t /\
    forall b,
      t' !! b = match pos_of b idx with
                | Some j =>
                    row ← t !! b; n ← lens !! b;
                    v ← (expand_entry (last_dim t) <$> vals) !! j;
                    Some (<[Z.to_nat n := v]> row)
                | None => t !! b
                end.
Proof.
  intros Ht Hrows Hlens Hnd Hr Hcols Hv Hfit.
  unfold index_put2_cells. rewrite (broadcast_entries_fit _ _ Hfit). ok.
  destruct (put2_at_cursor B L t lens idx cols
              (expand_entry (last_dim t) <$> vals))
    as (t' & Hput & Hlen & Hrows' & Hlk);
    [done | done | done | done | done | done | by rewrite length_fmap |].
  exists t'. split; [done|]. split; [done|]. split; [done|]. split; [|done].
  rewrite (last_dim_lookup t'), (last_dim_lookup t), (Hlk 0%nat).
  destruct (pos_of 0 idx) as [j|] eqn:Hp; [|done].
  destruct (t !! 0%nat) as [row|] eqn:Hrow; [|done]. cbn.
  apply pos_of_Some in Hp.
  destruct (Forall2_lookup_l _ _ _ _ _ Hcols Hp) as (n & _ & Hn).
  change (lens !! 0%nat = Some n) in Hn. rewrite Hn. cbn.
  destruct (lookup_lt_is_Some_2 vals j) as [v0 Hv0].
  { apply lookup_lt_Some in Hp. lia. }
  rewrite list_lookup_fmap, Hv0. cbn.
  assert (Hvl : length (expand_entry (last_dim t) v0)
                = match row !! 0%nat with
                  | Some c => length c
                  | None => 0%nat
                  end).
  { rewrite expand_entry_length by apply (Forall_lookup_1 _ _ _ _ Hfit Hv0).
    by rewrite (last_dim_lookup t), Hrow. }
  destruct (decide (Z.to_nat n = 0%nat)) as [Hn0|Hn0].
  - rewrite Hn0. destruct row as [|c row']; [done|].
    by rewrite list_lookup_insert_eq by (simpl; lia).
  - by rewrite list_lookup_insert_ne by done.
Qed.

Lemma fmap_id_ext {A} (f : A -> A) (o : option A) :
  (forall x, f x = x) -> f <$> o = o.
Proof. intros H. destruct o; cbn; [by rewrite H | done]. Qed.

Section al_index.

Context (B : nat) (s : BatchedAlignments.t) (idx : list Z) (c : frame_args).

Hypothesis Hwf : al_wf B s.

Hypothesis Hnd : NoDup idx.

Hypothesis Hr : Forall (fun i => 0 <= i < Z.of_nat B) idx.

Hypothesis Hc : frame_args_len (length idx) c.

Hypothesis Hfit : frame_args_fit s c.

Hypothesis Hroom :
  Forall (fun n => n < BatchedAlignments._max_length s)
    (BatchedAlignments.current_lengths s).

Lemma al_index_room :
  exists s',
    BatchedAlignments.add_results_ s idx (fa_time_indices c) (fa_logits c)
      (fa_labels c) (fa_confidence c) = Ok s' /\
    al_wf B s' /\ same_flags s s' /\
    BatchedAlignments._batch_indices s' = BatchedAlignments._batch_indices s /\
    BatchedAlignments._max_length s' = BatchedAlignments._max_length s /\
    last_dim (BatchedAlignments.logits s')
      = last_dim (BatchedAlignments.logits s) /\
    last_dim (BatchedAlignments.frame_confidence s')
      = last_dim (BatchedAlignments.frame_confidence s) /\
    forall b, (b < B)%nat ->
      frame_appended (fun A vals => index_frame idx vals b) s s' c b.
Proof.
  destruct Hwf as (HL & Hcl & Hts & Htsr & Hcur & Hal & Hfc).
  destruct Hc as (Hct & Hclg & Hclb & Hccf).
  destruct Hfit as [Hfitl Hfitc].
  unfold BatchedAlignments.add_results_.
  case_decide as Hemp.
  { exists s. split; [done|]. split; [done|]. split; [done|].
    split; [done|]. split; [done|]. split; [done|]. split; [done|].
    intros b Hb. apply length_zero_iff_nil in Hemp. subst idx.
    unfold frame_appended, extended, index_frame. cbn.
    repeat split; intros;
      rewrite fmap_id_ext; try done; intros; apply app_nil_r. }
  assert (HB : (0 < B)%nat).
  { destruct idx as [|i idx']; [done|].
    inversion_clear Hr as [|? ? Hi _]. lia. }
  destruct (tensor_max_ok (BatchedAlignments.current_lengths s))
    as (m & -> & _ & Hm).
  { intros E. rewrite E in Hcl. simpl in Hcl. lia. }
  ok.
  assert (Hlt : m < BatchedAlignments._max_length s).
  { apply list_elem_of_lookup in Hm as [k Hk].
    apply (Forall_lookup_1 _ _ _ _ Hroom Hk). }
  rewrite decide_False by lia.
  assert (Hcur' : Forall (fun n => 0 <= n < BatchedAlignments._max_length s)
                    (BatchedAlignments.current_lengths s)).
  { apply Forall_lookup_2. intros k n Hk.
    pose proof (Forall_lookup_1 _ _ _ _ Hroom Hk) as H1.
    pose proof (Forall_lookup_1 _ _ _ _ Hcur Hk) as H2. simpl in *. lia. }
  destruct (index_get_ok (BatchedAlignments.current_lengths s) idx)
    as (g & -> & Hg); [by rewrite Hcl|]. ok.
  pose proof (Forall2_length _ _ _ Hg) as Hgl.
  destruct (put2_at_cursor B (BatchedAlignments._max_length s)
              (BatchedAlignments.timesteps s)
              (BatchedAlignments.current_lengths s) idx g (fa_time_indices c))
    as (ts' & -> & Hts'l & Hts'r & Hts'); [done..|]. ok.
  (* logits and labels *)
  assert (exists lg' lb',
    match BatchedAlignments.with_alignments s, fa_logits c, fa_labels c with
    | true, Some lg, Some lb =>
        lg' ← index_put2_cells (BatchedAlignments.logits s) idx g lg;
        lb' ← index_put2 (BatchedAlignments.labels s) idx g lb;
        Ok (lg', lb')
    | _, _, _ => Ok (BatchedAlignments.logits s, BatchedAlignments.labels s)
    end = Ok (lg', lb') /\
    last_dim lg' = last_dim (BatchedAlignments.logits s) /\
    (BatchedAlignments.with_alignments s = true ->
     length lg' = B /\ length lb' = B /\
     Forall (fun row => Z.of_nat (length row)
                        = BatchedAlignments._max_length s) lg' /\
     Forall (fun row => Z.of_nat (length row)
                        = BatchedAlignments._max_length s) lb') /\
    (BatchedAlignments.with_alignments s = true ->
     forall lg lb, fa_logits c = Some lg -> fa_labels c = Some lb ->
     forall b,
       lg' !! b = match pos_of b idx with
                  | Some j =>
                      row ← BatchedAlignments.logits s !! b;
                      n ← BatchedAlignments.current_lengths s !! b;
                      v ← (expand_entry
                             (last_dim (BatchedAlignments.logits s))
                             <$> lg) !! j;
                      Some (<[Z.to_nat n := v]> row)
                  | None => BatchedAlignments.logits s !! b
                  end /\
       lb' !! b = match pos_of b idx with
                  | Some j =>
                      row ← BatchedAlignments.labels s !! b;
                      n ← BatchedAlignments.current_lengths s !! b;
                      v ← lb !! j; Some (<[Z.to_nat n := v]> row)
                  | None => BatchedAlignments.labels s !! b
                  end))
    as (lg' & lb' & -> & Hlgd & Hal'w & Hal').
  { destruct (BatchedAlignments.with_alignments s) eqn:Hwa;
      [|by eexists _, _].
    destruct (Hal eq_refl) as (Hlgl & Hlbl & Hlgr & Hlbr).
    specialize (Hfitl eq_refl).
    destruct (fa_logits c) as [lg|]; [|by eexists _, _].
    destruct (fa_labels c) as [lb|]; [|by eexists _, _].
    simpl in Hclg, Hclb, Hfitl.
    destruct (put2_cells_at_cursor B (BatchedAlignments._max_length s)
                (BatchedAlignments.logits s)
                (BatchedAlignments.current_lengths s) idx g lg)
      as (lg' & -> & Hlg'l & Hlg'r & Hlg'd & Hlg'); [done..|]. ok.
    destruct (put2_at_cursor B (BatchedAlignments._max_length s)
                (BatchedAlignments.labels s)
                (BatchedAlignments.current_lengths s) idx g lb)
      as (lb' & -> & Hlb'l & Hlb'r & Hlb'); [done..|]. ok.
    exists lg', lb'. split; [done|]. split; [done|]. split; [done|].
    intros _ ? ? [= <-] [= <-] b. done. }
  ok.
  (* frame confidence *)
  assert (exists fc',
    match BatchedAlignments.with_frame_confidence s, fa_confidence c with
    | true, Some cf =>
        index_put2_cells (BatchedAlignments.frame_confidence s) idx g cf
    | _, _ => Ok (BatchedAlignments.frame_confidence s)
    end = Ok fc' /\
    last_dim fc' = last_dim (BatchedAlignments.frame_confidence s) /\
    (BatchedAlignments.with_frame_confidence s = true ->
     length fc' = B /\
     Forall (fun row => Z.of_nat (length row)
                        = BatchedAlignments._max_length s) fc') /\
    (BatchedAlignments.with_frame_confidence s = true ->
     forall cf, fa_confidence c = Some cf ->
     forall b,
       fc' !! b = match pos_of b idx with
                  | Some j =>
                      row ← BatchedAlignments.frame_confidence s !! b;
                      n ← BatchedAlignments.current_lengths s !! b;
                      v ← (expand_entry
                             (last_dim (BatchedAlignments.frame_confidence s))
                             <$> cf) !! j;
                      Some (<[Z.to_nat n := v]> row)
                  | None => BatchedAlignments.frame_confidence s !! b
                  end))
    as (fc' & -> & Hfcd & Hfc'w & Hfc').
  { destruct (BatchedAlignments.with_frame_confidence s) eqn:Hwc;
      [|by eexists].
    destruct (Hfc eq_refl) as (Hfcl & Hfcr).
    specialize (Hfitc eq_refl).
    destruct (fa_confidence c) as [cf|]; [|by eexists].
    simpl in Hccf, Hfitc.
    destruct (put2_cells_at_cursor B (BatchedAlignments._max_length s)
                (BatchedAlignments.frame_confidence s)
                (BatchedAlignments.current_lengths s) idx g cf)
      as (fc' & -> & Hfc'l & Hfc'r & Hfc'd & Hfc'); [done..|].
    exists fc'. split; [done|]. split; [done|]. split; [done|].
    intros _ ? [= <-] b. done. }
  ok.
  destruct (index_put_ok (BatchedAlignments.current_lengths s) idx
              ((fun x => x + 1) <$> g))
    as (cl' & -> & Hcl'l & Hcl'); [done | by rewrite Hcl | len |]. ok.
  assert (Hcl'' : forall b,
    cl' !! b = (fun n => match pos_of b idx with
                         | Some _ => n + 1
                         | None => n
                         end) <$> BatchedAlignments.current_lengths s !! b).
  { intros b. rewrite (Hcl' b).
    destruct (pos_of b idx) as [j|] eqn:Hp.
    - rewrite list_lookup_fmap.
      by rewrite (gather_lookup _ _ _ _ _ Hg Hp).
    - by rewrite fmap_id_ext. }
  eexists. split; [reflexivity|]. split; [|split; [done|]].
  { unfold al_wf. cbn. split; [done|]. split; [lia|]. split; [done|].
    split; [done|]. split; [|done].
    apply Forall_lookup_2. intros b n' Hb. rewrite (Hcl'' b) in Hb.
    destruct (BatchedAlignments.current_lengths s !! b) as [n|] eqn:Hn;
      [|done].
    pose proof (Forall_lookup_1 _ _ _ _ Hcur' Hn) as H1. simpl in H1.
    cbn in Hb. injection Hb as <-. destruct (pos_of b idx); lia. }
  cbn. split; [done|]. split; [done|]. split; [done|]. split; [done|].
  intros b Hb. unfold frame_appended. cbn.
  split.
  { rewrite (Hcl'' b). unfold index_frame.
    destruct (pos_of b idx) as [j|] eqn:Hp; cbn; [|done].
    apply pos_of_Some in Hp. apply lookup_lt_Some in Hp.
    destruct (lookup_lt_is_Some_2 (fa_time_indices c) j) as [v ->]; [lia|].
    done. }
  split.
  { eapply (extended_index B); eauto; lia. }
  split.
  - intros Hwa lg lb Hlg Hlb.
    destruct (Hal Hwa) as (Hlgl & Hlbl & Hlgr & Hlbr).
    destruct (Hal' Hwa lg lb Hlg Hlb b) as [E1 E2].
    rewrite Hlg in Hclg. rewrite Hlb in Hclb. simpl in Hclg, Hclb.
    split.
    + eapply (extended_index B); eauto; try lia. by rewrite length_fmap.
    + eapply (extended_index B); eauto; lia.
  - intros Hwc cf Hcf.
    destruct (Hfc Hwc) as (Hfcl & Hfcr).
    rewrite Hcf in Hccf. simpl in Hccf.
    eapply (extended_index B); eauto; try lia;
      try (by rewrite length_fmap); by apply Hfc'.
Qed.

End al_index.

(** ** Growth of the alignment buffer *)

Lemma al_double_rows_lookup {A} (zero : A -> A) x b :
  BatchedAlignments.double_rows zero x !! b
  = (fun row => row ++ (zero <$> row)) <$> x !! b.
Proof. unfold BatchedAlignments.double_rows. apply list_lookup_fmap. Qed.

Lemma al_double_rows_shape {A} (zero : A -> A) x n :
  Forall (fun row : list A => Z.of_nat (length row) = n) x ->
  Forall (fun row : list A => Z.of_nat (length row) = n * 2)
    (BatchedAlignments.double_rows zero x).
Proof.
  intros H. unfold BatchedAlignments.double_rows. apply Forall_fmap.
  eapply Forall_impl; [exact H|]. simpl. intros row Hrow.
  rewrite length_app, length_fmap. lia.
Qed.

Lemma al_double_rows_length {A} (zero : A -> A) x :
  length (BatchedAlignments.double_rows zero x) = length x.
Proof. unfold BatchedAlignments.double_rows. by rewrite length_fmap. Qed.

Lemma al_allocate_more_wf B s :
  al_wf B s -> al_wf B (BatchedAlignments._allocate_more s).
Proof.
  intros (HL & Hcl & Hts & Htsr & Hcur & Hal & Hfc).
  unfold al_wf. cbn.
  split; [lia|]. split; [done|].
  split; [by rewrite al_double_rows_length|].
  split; [by apply al_double_rows_shape|].
  split; [eapply Forall_impl; [exact Hcur|]; simpl; intros; lia|].
  split.
  - intros Hwa. rewrite Hwa. destruct (Hal Hwa) as (H1 & H2 & H3 & H4).
    rewrite !al_double_rows_length.
    repeat split; try done; by apply al_double_rows_shape.
  - intros Hwc. rewrite Hwc. destruct (Hfc Hwc) as (H1 & H2).
    rewrite !al_double_rows_length.
    split; [done | by apply al_double_rows_shape].
Qed.

Lemma recorded_double_rows {A} (zero : A -> A) x lens L b :
  Forall (fun row : list A => Z.of_nat (length row) = L) x ->
  Forall (fun n => 0 <= n <= L) lens ->
  recorded (BatchedAlignments.double_rows zero x) lens b = recorded x lens b.
Proof.
  intros Hx Hl. unfold recorded. rewrite al_double_rows_lookup.
  destruct (x !! b) as [row|] eqn:Hrow; cbn; [|done].
  destruct (lens !! b) as [n|] eqn:Hn; cbn; [|done].
  pose proof (Forall_lookup_1 _ _ _ _ Hx Hrow) as H1.
  pose proof (Forall_lookup_1 _ _ _ _ Hl Hn) as H2. simpl in *.
  f_equal. apply slice_to_app. lia.
Qed.

Lemma last_dim_double_rows {A} (zero : list A -> list A)
    (t : list (list (list A))) :
  last_dim (BatchedAlignments.double_rows zero t) = last_dim t.
Proof. by destruct t as [|[|c row] t]. Qed.

Lemma allocate_more_last_dims s :
  last_dim (BatchedAlignments.logits (BatchedAlignments._allocate_more s))
    = last_dim (BatchedAlignments.logits s) /\
  last_dim
    (BatchedAlignments.frame_confidence (BatchedAlignments._allocate_more s))
    = last_dim (BatchedAlignments.frame_confidence s).
Proof.
  cbn. split.
  - destruct (BatchedAlignments.with_alignments s); [|done].
    apply last_dim_double_rows.
  - destruct (BatchedAlignments.with_frame_confidence s); [|done].
    apply last_dim_double_rows.
Qed.

Lemma frame_args_fit_grown s c :
  frame_args_fit s c -> frame_args_fit (BatchedAlignments._allocate_more s) c.
Proof.
  destruct (allocate_more_last_dims s) as [E1 E2].
  intros [H1 H2]. unfold frame_args_fit. rewrite E1, E2. done.
Qed.

(** Growth changes nothing of what is recorded: a call on the grown buffer
    has, relative to the buffer before growth, the effect it has relative to
    the grown one. *)
Lemma frame_appended_grown B frame s s' c b :
  al_wf B s ->
  frame_appended frame (BatchedAlignments._allocate_more s) s' c b ->
  frame_appended frame s s' c b.
Proof.
  intros (HL & Hcl & Hts & Htsr & Hcur & Hal & Hfc).
  destruct (allocate_more_last_dims s) as [E1 E2].
  unfold frame_appended, extended. rewrite E1, E2. cbn.
  intros (H1 & H2 & H3 & H4).
  split; [done|]. split.
  { by rewrite (recorded_double_rows _ _ _ _ _ Htsr Hcur) in H2. }
  split.
  - intros Hwa lg lb Hlg Hlb. rewrite Hwa in H3.
    destruct (Hal Hwa) as (_ & _ & Hlgr & Hlbr).
    destruct (H3 eq_refl lg lb Hlg Hlb) as [E3 E4].
    rewrite (recorded_double_rows _ _ _ _ _ Hlgr Hcur) in E3.
    rewrite (recorded_double_rows _ _ _ _ _ Hlbr Hcur) in E4. done.
  - intros Hwc cf Hcf. rewrite Hwc in H4.
    destruct (Hfc Hwc) as (_ & Hfcr).
    specialize (H4 eq_refl cf Hcf).
    by rewrite (recorded_double_rows _ _ _ _ _ Hfcr Hcur) in H4.
Qed.

Lemma al_index_step B s idx c :
  al_wf B s -> NoDup idx ->
  Forall (fun i => 0 <= i < Z.of_nat B) idx ->
  frame_args_len (length idx) c -> frame_args_fit s c ->
  exists s',
    BatchedAlignments.add_results_ s idx (fa_time_indices c) (fa_logits c)
      (fa_labels c) (fa_confidence c) = Ok s' /\
    al_wf B s' /\ same_flags s s' /\
    BatchedAlignments._batch_indices s' = BatchedAlignments._batch_indices s /\
    (BatchedAlignments._max_length s' = BatchedAlignments._max_length s \/
     BatchedAlignments._max_length s'
       = BatchedAlignments._max_length s * 2) /\
    last_dim (BatchedAlignments.logits s')
      = last_dim (BatchedAlignments.logits s) /\
    last_dim (BatchedAlignments.frame_confidence s')
      = last_dim (BatchedAlignments.frame_confidence s) /\
    forall b, (b < B)%nat ->
      frame_appended (fun A vals => index_frame idx vals b) s s' c b.
Proof.
  intros Hwf Hnd Hr Hc Hfit.
  destruct (decide (Forall (fun n => n < BatchedAlignments._max_length s)
                      (BatchedAlignments.current_lengths s))) as [Hroom|Hfull].
  { destruct (al_index_room B s idx c Hwf Hnd Hr Hc Hfit Hroom)
      as (s' & Hs' & Hwf' & Hfl & Hbi & HL' & Hd1 & Hd2 & Hfr).
    exists s'. repeat (split; [done|]). split; [by left | done]. }
  destruct (decide (length idx = 0%nat)) as [Hemp|Hemp].
  { exists s. unfold BatchedAlignments.add_results_.
    rewrite decide_True by done.
    split; [done|]. split; [done|]. split; [done|]. split; [done|].
    split; [by left|]. split; [done|]. split; [done|].
    intros b Hb. apply length_zero_iff_nil in Hemp. subst idx.
    unfold frame_appended, extended, index_frame. cbn.
    repeat split; intros;
      rewrite fmap_id_ext; try done; intros; apply app_nil_r. }
  pose proof Hwf as (HL & Hcl & Hts & Htsr & Hcur & Hal & Hfc).
  assert (HB : (0 < B)%nat).
  { destruct idx as [|i idx']; [done|].
    inversion_clear Hr as [|? ? Hi _]. lia. }
  destruct (tensor_max_ok (BatchedAlignments.current_lengths s))
    as (m & Hmax & Hle & Hm).
  { intros E. rewrite E in Hcl. simpl in Hcl. lia. }
  assert (Hge : m >= BatchedAlignments._max_length s).
  { destruct (decide (m >= BatchedAlignments._max_length s)); [done|].
    exfalso. apply Hfull. eapply Forall_impl; [exact Hle|].
    simpl. intros. lia. }
  assert (Hm' : m <= BatchedAlignments._max_length s).
  { apply list_elem_of_lookup in Hm as [k Hk].
    pose proof (Forall_lookup_1 _ _ _ _ Hcur Hk) as H1. simpl in H1. lia. }
  destruct (allocate_more_last_dims s) as [E1 E2].
  pose proof (frame_args_fit_grown s c Hfit) as Hfit1.
  set (s1 := BatchedAlignments._allocate_more s) in *.
  assert (Hroom1 : Forall (fun n => n < BatchedAlignments._max_length s1)
                     (BatchedAlignments.current_lengths s1)).
  { unfold s1. cbn. eapply Forall_impl; [exact Hcur|]. simpl. intros. lia. }
  destruct (al_index_room B s1 idx c (al_allocate_more_wf B s Hwf) Hnd Hr Hc
              Hfit1 Hroom1)
    as (s' & Hs' & Hwf' & Hfl & Hbi & HL' & Hd1 & Hd2 & Hfr).
  exists s'. split.
  { rewrite <- Hs'. unfold BatchedAlignments.add_results_.
    rewrite !decide_False by done.
    change (BatchedAlignments.current_lengths s1)
      with (BatchedAlignments.current_lengths s).
    rewrite Hmax. ok.
    rewrite (decide_True (P := m >= BatchedAlignments._max_length s)) by done.
    rewrite (decide_False (P := m >= BatchedAlignments._max_length s1));
      [done|].
    unfold s1. cbn. lia. }
  split; [done|]. split; [done|]. split; [done|]. split; [by right|].
  split; [by rewrite Hd1|]. split; [by rewrite Hd2|].
  intros b Hb. apply (frame_appended_grown B); [done|]. by apply Hfr.
Qed.

(** ** The mask-based path *)

Lemma arange_cursors {A} B (lens : list A) :
  length lens = B ->
  Forall2 (fun i n => lens !! Z.to_nat i = Some n) (arange B) lens.
Proof.
  intros Hl. apply Forall2_same_length_lookup_2.
  - by rewrite length_arange.
  - intros j i n Hi Hn. unfold arange in Hi. apply lookup_seqZ in Hi.
    destruct Hi as [-> _]. by rewrite Z.add_0_l, Nat2Z.id.
Qed.

Lemma put2_all_at_cursor {A} B L (t : list (list A)) lens vals :
  length t = B ->
  Forall (fun row => Z.of_nat (length row) = L) t ->
  length lens = B ->
  Forall (fun n => 0 <= n < L) lens ->
  length vals = B ->
  exists t', index_put2 t (arange B) lens vals = Ok t' /\ length t' = B /\
    Forall (fun row => Z.of_nat (length row) = L) t' /\
    forall b, (b < B)%nat ->
      t' !! b = (row ← t !! b; n ← lens !! b; v ← vals !! b;
                 Some (<[Z.to_nat n := v]> row)).
Proof.
  intros Ht Hrows Hl Hlens Hv.
  destruct (put2_at_cursor B L t lens (arange B) lens vals)
    as (t' & Hput & Hlen & Hr' & Hlk);
    [done | done | done | apply NoDup_arange | apply arange_range
    | by apply arange_cursors | by rewrite length_arange |].
  exists t'. repeat (split; [done|]).
  intros b Hb. rewrite (Hlk b). by rewrite pos_of_arange.
Qed.

Lemma put2_cells_all_at_cursor {A} B L (t : list (list (list A))) lens vals :
  length t = B ->
  Forall (fun row => Z.of_nat (length row) = L) t ->
  length lens = B ->
  Forall (fun n => 0 <= n < L) lens ->
  length vals = B ->
  Forall (fits (last_dim t)) vals ->
  exists t', index_put2_cells t (arange B) lens vals = Ok t' /\
    length t' = B /\
    Forall (fun row => Z.of_nat (length row) = L) t' /\
    last_dim t' = last_dim t /\
    forall b, (b < B)%nat ->
      t' !! b = (row ← t !! b; n ← lens !! b;
                 v ← (expand_entry (last_dim t) <$> vals) !! b;
                 Some (<[Z.to_nat n := v]> row)).
Proof.
  intros Ht Hrows Hl Hlens Hv Hfit.
  destruct (put2_cells_at_cursor B L t lens (arange B) lens vals)
    as (t' & Hput & Hlen & Hr' & Hd & Hlk);
    [done | done | done | apply NoDup_arange | apply arange_range
    | by apply arange_cursors | by rewrite length_arange | done |].
  exists t'. repeat (split; [done|]).
  intros b Hb. rewrite (Hlk b). by rewrite pos_of_arange.
Qed.

Section al_mask.

Context (B : nat) (s : BatchedAlignments.t) (mask : list bool)
  (c : frame_args).

Hypothesis Hinv : al_inv B s.

Hypothesis Hmask : length mask = B.

Hypothesis Hc : frame_args_len B c.

Hypothesis Hfit : frame_args_fit s c.

Hypothesis Hroom :
  Forall (fun n => n < BatchedAlignments._max_length s)
    (BatchedAlignments.current_lengths s).

Lemma al_mask_room :
  exists s',
    BatchedAlignments.add_results_masked_no_checks_ s mask
      (fa_time_indices c) (fa_logits c) (fa_labels c) (fa_confidence c)
    = Ok s' /\
    al_inv B s' /\ same_flags s s' /\
    BatchedAlignments._max_length s' = BatchedAlignments._max_length s /\
    last_dim (BatchedAlignments.logits s')
      = last_dim (BatchedAlignments.logits s) /\
    last_dim (BatchedAlignments.frame_confidence s')
      = last_dim (BatchedAlignments.frame_confidence s) /\
    forall b, (b < B)%nat ->
      frame_appended (fun A vals => mask_frame mask vals b) s s' c b.
Proof.
  destruct Hinv as [(HL & Hcl & Hts & Htsr & Hcur & Hal & Hfc) Hbi].
  destruct Hc as (Hct & Hclg & Hclb & Hccf).
  destruct Hfit as [Hfitl Hfitc].
  unfold BatchedAlignments.add_results_masked_no_checks_. rewrite Hbi.
  assert (Hcur' : Forall (fun n => 0 <= n < BatchedAlignments._max_length s)
                    (BatchedAlignments.current_lengths s)).
  { apply Forall_lookup_2. intros k n Hk.
    pose proof (Forall_lookup_1 _ _ _ _ Hroom Hk) as H1.
    pose proof (Forall_lookup_1 _ _ _ _ Hcur Hk) as H2. simpl in *. lia. }
  destruct (put2_all_at_cursor B (BatchedAlignments._max_length s)
              (BatchedAlignments.timesteps s)
              (BatchedAlignments.current_lengths s) (fa_time_indices c))
    as (ts1 & -> & Hts1l & Hts1r & Hts1); [done..|]. ok.
  (* timesteps again, logits and labels *)
  assert (exists ts' lg' lb',
    match BatchedAlignments.with_alignments s, fa_logits c, fa_labels c with
    | true, Some lg, Some lb =>
        ts ← index_put2 ts1 (arange B) (BatchedAlignments.current_lengths s)
               (fa_time_indices c);
        lg' ← index_put2_cells (BatchedAlignments.logits s) (arange B)
                (BatchedAlignments.current_lengths s) lg;
        lb' ← index_put2 (BatchedAlignments.labels s) (arange B)
                (BatchedAlignments.current_lengths s) lb;
        Ok (ts, lg', lb')
    | _, _, _ =>
        Ok (ts1, BatchedAlignments.logits s, BatchedAlignments.labels s)
    end = Ok (ts', lg', lb') /\
    last_dim lg' = last_dim (BatchedAlignments.logits s) /\
    (length ts' = B /\
     Forall (fun row => Z.of_nat (length row)
                        = BatchedAlignments._max_length s) ts' /\
     forall b, (b < B)%nat ->
       ts' !! b = (row ← BatchedAlignments.timesteps s !! b;
                   n ← BatchedAlignments.current_lengths s !! b;
                   v ← fa_time_indices c !! b;
                   Some (<[Z.to_nat n := v]> row))) /\
    (BatchedAlignments.with_alignments s = true ->
     length lg' = B /\ length lb' = B /\
     Forall (fun row => Z.of_nat (length row)
                        = BatchedAlignments._max_length s) lg' /\
     Forall (fun row => Z.of_nat (length row)
                        = BatchedAlignments._max_length s) lb') /\
    (BatchedAlignments.with_alignments s = true ->
     forall lg lb, fa_logits c = Some lg -> fa_labels c = Some lb ->
     forall b, (b < B)%nat ->
       lg' !! b = (row ← BatchedAlignments.logits s !! b;
                   n ← BatchedAlignments.current_lengths s !! b;
                   v ← (expand_entry (last_dim (BatchedAlignments.logits s))
                          <$> lg) !! b;
                   Some (<[Z.to_nat n := v]> row)) /\
       lb' !! b = (row ← BatchedAlignments.labels s !! b;
                   n ← BatchedAlignments.current_lengths s !! b;
                   v ← lb !! b; Some (<[Z.to_nat n := v]> row))))
    as (ts' & lg' & lb' & -> & Hlgd & (Hts'l & Hts'r & Hts') & Hal'w & Hal').
  { destruct (BatchedAlignments.with_alignments s) eqn:Hwa;
      [|by eexists _, _, _].
    destruct (Hal eq_refl) as (Hlgl & Hlbl & Hlgr & Hlbr).
    specialize (Hfitl eq_refl).
    destruct (fa_logits c) as [lg|]; [|by eexists _, _, _].
    destruct (fa_labels c) as [lb|]; [|by eexists _, _, _].
    simpl in Hclg, Hclb, Hfitl.
    destruct (put2_all_at_cursor B (BatchedAlignments._max_length s) ts1
                (BatchedAlignments.current_lengths s) (fa_time_indices c))
      as (ts2 & -> & Hts2l & Hts2r & Hts2); [done..|]. ok.
    destruct (put2_cells_all_at_cursor B (BatchedAlignments._max_length s)
                (BatchedAlignments.logits s)
                (BatchedAlignments.current_lengths s) lg)
      as (lg' & -> & Hlg'l & Hlg'r & Hlg'd & Hlg'); [done..|]. ok.
    destruct (put2_all_at_cursor B (BatchedAlignments._max_length s)
                (BatchedAlignments.labels s)
                (BatchedAlignments.current_lengths s) lb)
      as (lb' & -> & Hlb'l & Hlb'r & Hlb'); [done..|]. ok.
    exists ts2, lg', lb'. split; [done|]. split; [done|].
    split; [|split; [done|]].
    - split; [done|]. split; [done|]. intros b Hb.
      rewrite (Hts2 b Hb), (Hts1 b Hb).
      destruct (BatchedAlignments.timesteps s !! b) as [row|]; [|done].
      cbn.
      destruct (BatchedAlignments.current_lengths s !! b) as [n|]; [|done].
      cbn. destruct (fa_time_indices c !! b) as [v|]; [|done]. cbn.
      by rewrite list_insert_insert_eq.
    - intros _ ? ? [= <-] [= <-] b Hb. split; [by apply Hlg' | by apply Hlb']. }
  ok.
  (* frame confidence *)
  assert (exists fc',
    match BatchedAlignments.with_frame_confidence s, fa_confidence c with
    | true, Some cf =>
        index_put2_cells (BatchedAlignments.frame_confidence s) (arange B)
          (BatchedAlignments.current_lengths s) cf
    | _, _ => Ok (BatchedAlignments.frame_confidence s)
    end = Ok fc' /\
    last_dim fc' = last_dim (BatchedAlignments.frame_confidence s) /\
    (BatchedAlignments.with_frame_confidence s = true ->
     length fc' = B /\
     Forall (fun row => Z.of_nat (length row)
                        = BatchedAlignments._max_length s) fc') /\
    (BatchedAlignments.with_frame_confidence s = true ->
     forall cf, fa_confidence c = Some cf ->
     forall b, (b < B)%nat ->
       fc' !! b = (row ← BatchedAlignments.frame_confidence s !! b;
                   n ← BatchedAlignments.current_lengths s !! b;
                   v ← (expand_entry
                          (last_dim (BatchedAlignments.frame_confidence s))
                          <$> cf) !! b;
                   Some (<[Z.to_nat n := v]> row))))
    as (fc' & -> & Hfcd & Hfc'w & Hfc').
  { destruct (BatchedAlignments.with_frame_confidence s) eqn:Hwc;
      [|by eexists].
    destruct (Hfc eq_refl) as (Hfcl & Hfcr).
    specialize (Hfitc eq_refl).
    destruct (fa_confidence c) as [cf|]; [|by eexists].
    simpl in Hccf, Hfitc.
    destruct (put2_cells_all_at_cursor B (BatchedAlignments._max_length s)
                (BatchedAlignments.frame_confidence s)
                (BatchedAlignments.current_lengths s) cf)
      as (fc' & -> & Hfc'l & Hfc'r & Hfc'd & Hfc'); [done..|].
    exists fc'. split; [done|]. split; [done|]. split; [done|].
    intros _ ? [= <-] b Hb. by apply Hfc'. }
  ok.
  rewrite (zip_same_ok (fun l (m : bool) => l + bool_to_Z m)
             (BatchedAlignments.current_lengths s) mask) by lia. ok.
  assert (Hcl' : forall b,
    zip_with (fun l (m : bool) => l + bool_to_Z m)
      (BatchedAlignments.current_lengths s) mask !! b
    = (l ← BatchedAlignments.current_lengths s !! b; m ← mask !! b;
       Some (l + bool_to_Z m))).
  { intros b. apply lookup_zip_with. }
  eexists. split; [reflexivity|]. split; [|split; [done|]].
  { split; [|done]. unfold al_wf. cbn. split; [done|].
    split; [rewrite length_zip_with; lia|]. split; [done|].
    split; [done|]. split; [|done].
    apply Forall_lookup_2. intros b n' Hb. rewrite (Hcl' b) in Hb.
    destruct (BatchedAlignments.current_lengths s !! b) as [n|] eqn:Hn;
      [|done].
    pose proof (Forall_lookup_1 _ _ _ _ Hcur' Hn) as H1. simpl in H1.
    cbn in Hb. destruct (mask !! b) as [m|]; [|done]. cbn in Hb.
    injection Hb as <-. destruct m; cbn; lia. }
  cbn. split; [done|]. split; [done|]. split; [done|].
  intros b Hb. unfold frame_appended. cbn.
  split.
  { rewrite (Hcl' b). unfold mask_frame.
    destruct (lookup_lt_is_Some_2 (BatchedAlignments.current_lengths s) b)
      as [n ->]; [lia|].
    destruct (lookup_lt_is_Some_2 mask b) as [m ->]; [lia|].
    destruct (lookup_lt_is_Some_2 (fa_time_indices c) b) as [v ->]; [lia|].
    cbn. destruct m; cbn; f_equal; lia. }
  split.
  { eapply (extended_mask B); eauto. }
  split.
  - intros Hwa lg lb Hlg Hlb.
    destruct (Hal Hwa) as (Hlgl & Hlbl & Hlgr & Hlbr).
    destruct (Hal' Hwa lg lb Hlg Hlb b Hb) as [E1 E2].
    rewrite Hlg in Hclg. rewrite Hlb in Hclb. simpl in Hclg, Hclb.
    split.
    + eapply (extended_mask B); eauto. by rewrite length_fmap.
    + eapply (extended_mask B); eauto.
  - intros Hwc cf Hcf.
    destruct (Hfc Hwc) as (Hfcl & Hfcr).
    rewrite Hcf in Hccf. simpl in Hccf.
    eapply (extended_mask B); eauto; try (by rewrite length_fmap).
Qed.

End al_mask.

Lemma al_allocate_more_inv B s :
  al_inv B s -> al_inv B (BatchedAlignments._allocate_more s).
Proof. intros [Hwf Hbi]. split; [by apply al_allocate_more_wf | done]. Qed.

Lemma al_mask_step B s mask c :
  al_inv B s -> (0 < B)%nat -> length mask = B -> frame_args_len B c ->
  frame_args_fit s c ->
  exists s',
    BatchedAlignments.add_results_masked_ s mask (fa_time_indices c)
      (fa_logits c) (fa_labels c) (fa_confidence c) = Ok s' /\
    al_inv B s' /\ same_flags s s' /\
    (BatchedAlignments._max_length s' = BatchedAlignments._max_length s \/
     BatchedAlignments._max_length s'
       = BatchedAlignments._max_length s * 2) /\
    last_dim (BatchedAlignments.logits s')
      = last_dim (BatchedAlignments.logits s) /\
    last_dim (BatchedAlignments.frame_confidence s')
      = last_dim (BatchedAlignments.frame_confidence s) /\
    forall b, (b < B)%nat ->
      frame_appended (fun A vals => mask_frame mask vals b) s s' c b.
Proof.
  intros Hinv HB Hmask Hc Hfit.
  pose proof Hinv as [(HL & Hcl & Hts & Htsr & Hcur & Hal & Hfc) Hbi].
  unfold BatchedAlignments.add_results_masked_.
  rewrite (zip_same_ok (fun l (m : bool) => l + bool_to_Z m)
             (BatchedAlignments.current_lengths s) mask) by lia. ok.
  destruct (tensor_max_ok
              (zip_with (fun l (m : bool) => l + bool_to_Z m)
                 (BatchedAlignments.current_lengths s) mask))
    as (m & -> & Hle & _).
  { intros E. apply (f_equal length) in E.
    rewrite length_zip_with in E. simpl in E. lia. }
  ok.
  case_decide as Hge.
  - assert (Hroom1 :
      Forall (fun n => n < BatchedAlignments._max_length
                             (BatchedAlignments._allocate_more s))
        (BatchedAlignments.current_lengths
           (BatchedAlignments._allocate_more s))).
    { cbn. eapply Forall_impl; [exact Hcur|]. simpl. intros. lia. }
    destruct (allocate_more_last_dims s) as [E1 E2].
    destruct (al_mask_room B (BatchedAlignments._allocate_more s) mask c
                (al_allocate_more_inv B s Hinv) Hmask Hc
                (frame_args_fit_grown s c Hfit) Hroom1)
      as (s' & Hs' & Hinv' & Hfl & HL' & Hd1 & Hd2 & Hfr).
    exists s'. split; [done|]. split; [done|]. split; [done|].
    split; [by right|].
    split; [by rewrite Hd1|]. split; [by rewrite Hd2|].
    intros b Hb. apply (frame_appended_grown B); [by destruct Hinv|].
    by apply Hfr.
  - assert (Hroom :
      Forall (fun n => n < BatchedAlignments._max_length s)
        (BatchedAlignments.current_lengths s)).
    { apply Forall_lookup_2. intros b n Hn.
      destruct (lookup_lt_is_Some_2 mask b) as [mb Hmb].
      { apply lookup_lt_Some in Hn. lia. }
      assert (Hz : zip_with (fun l (m : bool) => l + bool_to_Z m)
                     (BatchedAlignments.current_lengths s) mask !! b
                   = Some (n + bool_to_Z mb)).
      { rewrite lookup_zip_with, Hn. cbn. by rewrite Hmb. }
      pose proof (Forall_lookup_1 _ _ _ _ Hle Hz) as H1. simpl in H1.
      destruct mb; cbn in H1; lia. }
    destruct (al_mask_room B s mask c Hinv Hmask Hc Hfit Hroom)
      as (s' & Hs' & Hinv' & Hfl & HL' & Hd1 & Hd2 & Hfr).
    exists s'. split; [done|]. split; [done|]. split; [done|].
    split; [by left | done].
Qed.

(** X11. [add_results_] of the alignment buffer, called on a well-formed
    buffer with distinct item indices of the batch and, in every argument
    that is given, one entry per index; a logit vector or a confidence entry
    has the size of the cells of its tensor, or size one.  The call succeeds
    and leaves a well-formed buffer, also when it has to double the rows
    first.  The cursor of an item advances by one exactly when the item is
    named, and what the buffer records for an item, the stored row up to the
    cursor, is what it recorded before, followed for a named item by the
    entry the call carries for it: the time index in [timesteps]; the logit
    vector and the label in [logits] and [labels] when alignments are stored
    and both are given; the confidence in [frame_confidence] when it is
    stored and given.  A vector of size one is recorded repeated to the size
    of the cell. *)
Theorem alignments_add_results_records B s idx c :
  al_wf B s -> NoDup idx ->
  Forall (fun i => 0 <= i < Z.of_nat B) idx ->
  frame_args_len (length idx) c -> frame_args_fit s c ->
  exists s',
    BatchedAlignments.add_results_ s idx (fa_time_indices c) (fa_logits c)
      (fa_labels c) (fa_confidence c) = Ok s' /\
    al_wf B s' /\
    forall b, (b < B)%nat ->
      frame_appended (fun A vals => index_frame idx vals b) s s' c b.
Proof.
  intros Hwf Hnd Hr Hc Hfit.
  destruct (al_index_step B s idx c Hwf Hnd Hr Hc Hfit)
    as (s' & Hs' & Hwf' & _ & _ & _ & _ & _ & Hfr).
  by exists s'.
Qed.

(** X12. [add_results_masked_] of the alignment buffer, called on a buffer
    as the constructor and the calls leave it, with a mask and arguments of
    one entry per item; a logit vector or a confidence entry has the size of
    the cells of its tensor, or size one.  The call succeeds and keeps the
    invariant, also when it has to double the rows first.  The cursor of an
    item advances by its mask entry, and what the buffer records for an item
    is what it recorded before, followed for an item of mask entry [True] by
    its entries of the arguments, a vector of size one repeated to the size
    of the cell; for the other items nothing recorded changes, although the
    call writes their entries behind the cursor. *)
Theorem alignments_add_results_masked_records B s mask c :
  al_inv B s -> (0 < B)%nat -> length mask = B -> frame_args_len B c ->
  frame_args_fit s c ->
  exists s',
    BatchedAlignments.add_results_masked_ s mask (fa_time_indices c)
      (fa_logits c) (fa_labels c) (fa_confidence c) = Ok s' /\
    al_inv B s' /\
    forall b, (b < B)%nat ->
      frame_appended (fun A vals => mask_frame mask vals b) s s' c b.
Proof.
  intros Hinv HB Hmask Hc Hfit.
  destruct (al_mask_step B s mask c Hinv HB Hmask Hc Hfit)
    as (s' & Hs' & Hinv' & _ & _ & _ & _ & Hfr).
  by exists s'.
Qed.

Lemma frames_of_cons idx c calls b :
  frames_of ((idx, c) :: calls) b
  = option_list (index_frame idx (fa_time_indices c) b) ++ frames_of calls b.
Proof.
  unfold frames_of. cbn [omap list_omap fst snd].
  by destruct (index_frame idx (fa_time_indices c) b).
Qed.

Lemma valid_frame_call_step B s s' ic :
  same_flags s s' ->
  last_dim (BatchedAlignments.logits s')
    = last_dim (BatchedAlignments.logits s) ->
  last_dim (BatchedAlignments.frame_confidence s')
    = last_dim (BatchedAlignments.frame_confidence s) ->
  valid_frame_call B s ic -> valid_frame_call B s' ic.
Proof.
  intros (F1 & F2 & _) E1 E2 (Hnd & Hr & Hc & Hfit).
  split; [done|]. split; [done|]. split; [done|].
  unfold frame_args_fit in *. by rewrite F1, F2, E1, E2.
Qed.

Lemma al_run_log B calls : forall s0,
  al_wf B s0 -> Forall (valid_frame_call B s0) calls ->
  exists s, al_run s0 calls = Ok s /\ al_wf B s /\
    forall b, (b < B)%nat ->
      recorded (BatchedAlignments.timesteps s)
        (BatchedAlignments.current_lengths s) b
      = (fun fr => fr ++ frames_of calls b) <$>
          recorded (BatchedAlignments.timesteps s0)
            (BatchedAlignments.current_lengths s0) b /\
      BatchedAlignments.current_lengths s !! b
      = (fun n => n + Z.of_nat (length (frames_of calls b))) <$>
          BatchedAlignments.current_lengths s0 !! b.
Proof.
  induction calls as [|[idx c] calls IH]; intros s0 Hwf Hv.
  - exists s0. split; [done|]. split; [done|]. intros b Hb. cbn.
    split; rewrite fmap_id_ext; try done; intros.
    + apply app_nil_r.
    + lia.
  - apply Forall_cons in Hv as [(Hnd & Hr & Hc & Hfit) Hv'].
    cbn in Hnd, Hr, Hc, Hfit.
    destruct (al_index_step B s0 idx c Hwf Hnd Hr Hc Hfit)
      as (s1 & Hs1 & Hwf1 & Hfl & _ & _ & Hd1 & Hd2 & Hfr).
    assert (Hv1 : Forall (valid_frame_call B s1) calls).
    { eapply Forall_impl; [exact Hv'|]. intros ic.
      by apply valid_frame_call_step. }
    destruct (IH s1 Hwf1 Hv1) as (s & Hs & Hwfs & Hlog).
    exists s. cbn [al_run fst snd]. rewrite Hs1. ok.
    split; [done|]. split; [done|].
    intros b Hb. destruct (Hlog b Hb) as [E1 E2].
    destruct (Hfr b Hb) as (F1 & F2 & _). cbv zeta in F1. unfold extended in F2.
    cbn beta in F1, F2.
    rewrite E1, E2, F1, F2, frames_of_cons.
    destruct (index_frame idx (fa_time_indices c) b) as [t|];
      cbn [option_list option_rect];
      (destruct (recorded (BatchedAlignments.timesteps s0)
                   (BatchedAlignments.current_lengths s0) b) as [fr|]);
      (destruct (BatchedAlignments.current_lengths s0 !! b) as [n|]);
      cbn [fmap option_fmap option_map];
      rewrite <- ?app_assoc, ?app_nil_r, ?length_app; split; try done;
      f_equal; cbn [length app]; lia.
Qed.

Lemma recorded_zero {A} (x : list (list A)) lens b :
  (b < length x)%nat -> lens !! b = Some 0 -> recorded x lens b = Some [].
Proof.
  intros Hb Hl. unfold recorded.
  destruct (lookup_lt_is_Some_2 x b) as [row ->]; [done|]. cbn.
  rewrite Hl. cbn. by rewrite slice_to_nonneg.
Qed.

Lemma al_init_inv B D L a f d s0 :
  BatchedAlignments.init (Z.of_nat B) D L a f d = Ok s0 ->
  al_inv B s0 /\
  BatchedAlignments.current_lengths s0 = replicate B 0 /\
  BatchedAlignments._max_length s0 = L.
Proof.
  unfold BatchedAlignments.init.
  case_decide; [done|]. case_decide; [done|].
  destruct (a && bool_decide (D < 0)); [done|].
  intros [= <-]. rewrite Nat2Z.id. cbn.
  split; [|done]. split; [|done]. unfold al_wf. cbn.
  rewrite !length_replicate.
  split; [lia|]. split; [done|]. split; [done|].
  split.
  { apply Forall_replicate. rewrite length_replicate. lia. }
  split.
  { apply Forall_replicate. lia. }
  split.
  - intros ->. rewrite !length_replicate.
    repeat split; try done; apply Forall_replicate;
      rewrite length_replicate; lia.
  - intros ->. rewrite !length_replicate.
    split; [done|]. apply Forall_replicate. rewrite length_replicate. lia.
Qed.

Lemma al_clear_wf B s :
  al_wf B s -> al_wf B (BatchedAlignments.clear_ s).
Proof.
  intros (HL & Hcl & Hts & Htsr & Hcur & Hal & Hfc).
  unfold al_wf. cbn. unfold fill2_, fill_. rewrite !length_fmap.
  split; [done|]. split; [done|]. split; [done|].
  split.
  { apply Forall_fmap. eapply Forall_impl; [exact Htsr|]. simpl.
    intros row. by rewrite length_fmap. }
  split.
  { apply Forall_fmap. apply Forall_true. simpl. intros. lia. }
  split.
  - intros Hwa. destruct (Hal Hwa) as (H1 & H2 & H3 & H4).
    repeat split; try done; apply Forall_fmap;
      (eapply Forall_impl; [eassumption|]); simpl; intros row;
      by rewrite length_fmap.
  - intros Hwc. destruct (Hfc Hwc) as (H1 & H2).
    split; [done|]. apply Forall_fmap.
    eapply Forall_impl; [exact H2|]. simpl. intros row.
    by rewrite length_fmap.
Qed.

(** X13. The frames of a run.  From a buffer as the constructor returns it,
    of any capacity, or as [clear_] leaves a well-formed buffer, every
    sequence of [add_results_] calls that are valid for it succeeds: calls
    with distinct item indices of the batch and one entry per index in
    every argument given, a logit vector or a confidence entry of the size
    of the cells of its tensor or of size one.  Afterwards the buffer
    records for each item the time indices of the calls that named it, in
    the order of the calls; the cursor of the item is their number. *)
Theorem alignments_run_records B s0 calls :
  ((exists D L a f d,
      BatchedAlignments.init (Z.of_nat B) D L a f d = Ok s0) \/
   (exists s, al_wf B s /\ s0 = BatchedAlignments.clear_ s)) ->
  Forall (valid_frame_call B s0) calls ->
  exists s, al_run s0 calls = Ok s /\ al_wf B s /\
    forall b, (b < B)%nat ->
      recorded (BatchedAlignments.timesteps s)
        (BatchedAlignments.current_lengths s) b = Some (frames_of calls b) /\
      BatchedAlignments.current_lengths s !! b
      = Some (Z.of_nat (length (frames_of calls b))).
Proof.
  intros Hfresh Hv.
  assert (Hs0 : al_wf B s0 /\
                BatchedAlignments.current_lengths s0 = replicate B 0).
  { destruct Hfresh as [(D & L & a & f & d & Hi)|(s & Hwf & ->)].
    - apply al_init_inv in Hi as ([Hwf _] & Hcl & _). done.
    - split; [by apply al_clear_wf|]. cbn. unfold fill_.
      destruct Hwf as (_ & Hcl & _). rewrite <- Hcl.
      apply list_eq. intros i. rewrite list_lookup_fmap.
      destruct (BatchedAlignments.current_lengths s !! i) eqn:E; cbn.
      + symmetry. apply lookup_replicate_2. by apply lookup_lt_Some in E.
      + symmetry. apply lookup_ge_None. rewrite length_replicate.
        by apply lookup_ge_None in E. }
  destruct Hs0 as [Hwf0 Hcl0].
  destruct (al_run_log B calls s0 Hwf0 Hv) as (s & Hs & Hwf & Hlog).
  exists s. split; [done|]. split; [done|].
  intros b Hb. destruct (Hlog b Hb) as [E1 E2].
  assert (Hz : BatchedAlignments.current_lengths s0 !! b = Some 0).
  { rewrite Hcl0. by apply lookup_replicate_2. }
  rewrite E1, E2, Hz.
  rewrite (recorded_zero (BatchedAlignments.timesteps s0)
             (BatchedAlignments.current_lengths s0) b); [done| |done].
  destruct Hwf0 as (_ & _ & Hts & _). lia.
Qed.

(** * One step of the beam search *)

Section beam_step.

Import BeamBatchedHyps.




End beam_step.

(** * A step that does not fit *)

Section beam_overflow.

Import BeamBatchedHyps.

Lemma tset_cases {A} (row : list A) i v :
  (exists r, tset row i v = Ok r) \/ tset row i v = Err IndexError.
Proof.
  unfold tset, norm_index. repeat case_decide; cbn; eauto.
Qed.

Lemma tset_too_large {A} (row : list A) i v :
  Z.of_nat (length row) <= i -> tset row i v = Err IndexError.
Proof.
  intros H. unfold tset, norm_index.
  rewrite decide_False by lia. rewrite decide_False by lia. done.
Qed.

Lemma zipM_cases {A B C} (f : A -> B -> result C) e a : forall b,
  length a = length b ->
  (forall i x y, a !! i = Some x -> b !! i = Some y ->
     (exists z, f x y = Ok z) \/ f x y = Err e) ->
  (exists z, zipM f a b = Ok z) \/ zipM f a b = Err e.
Proof.
  induction a as [|x a IH]; intros [|y b] Hl Hc; try done.
  - left. by eexists.
  - cbn [zipM]. destruct (Hc 0%nat x y eq_refl eq_refl) as [[z ->]| ->];
      [|by right]. ok.
    destruct (IH b) as [[zs ->]| ->].
    + simpl in Hl. lia.
    + intros i x' y' Hx Hy. apply (Hc (S i) x' y' Hx Hy).
    + left. by eexists.
    + by right.
Qed.

Lemma zipM_err {A B C} (f : A -> B -> result C) e a : forall b,
  length a = length b ->
  (forall i x y, a !! i = Some x -> b !! i = Some y ->
     (exists z, f x y = Ok z) \/ f x y = Err e) ->
  (exists i x y, a !! i = Some x /\ b !! i = Some y /\ f x y = Err e) ->
  zipM f a b = Err e.
Proof.
  induction a as [|x a IH]; intros [|y b] Hl Hc (i & x' & y' & Hx & Hy & He);
    try done.
  cbn [zipM]. destruct (Hc 0%nat x y eq_refl eq_refl) as [[z Hz]| ->];
    [|done].
  rewrite Hz. ok. destruct i as [|i].
  { simpl in Hx, Hy. congruence. }
  rewrite (IH b); [done| | |].
  - simpl in Hl. lia.
  - intros j x'' y'' Hx'' Hy''. apply (Hc (S j) x'' y'' Hx'' Hy'').
  - exists i, x', y'. done.
Qed.

(** A write through [put_last] with an index beyond the rows fails, as
    indexing beyond a dimension does. *)
Lemma put_last_overflow {A} Bn K L (t : list (list (list A))) idx vals :
  sh3 Bn K L t -> sh2 Bn K idx -> sh2 Bn K vals ->
  (exists b k i, cell idx b k = Some i /\ L <= i) ->
  put_last t idx vals = Err IndexError.
Proof.
  intros [Ht Hrows] Hidx Hvals (b & k & i & Hi & HiL).
  unfold put_last.
  rewrite (zip_same2_ok pair idx vals) by (by apply (sh2_same Bn K)). ok.
  set (iv := zip_with (zip_with pair) idx vals).
  assert (Hiv : sh2 Bn K iv) by (by apply sh2_zip_with).
  set (g := fun (row : list A) (p : Z * A) => tset row p.1 p.2).
  assert (Hrow : forall j (x : list (list A)) (y : list (Z * A)),
            t !! j = Some x -> iv !! j = Some y ->
            length x = length y /\
            forall c r p, x !! c = Some r -> y !! c = Some p ->
              Z.of_nat (length r) = L).
  { intros j x y Hx Hy.
    pose proof (Forall_lookup_1 _ _ _ _ (proj2 Ht) Hx) as H1.
    pose proof (Forall_lookup_1 _ _ _ _ (proj2 Hiv) Hy) as H2.
    simpl in H1, H2. split; [lia|].
    intros c r p Hr Hp.
    pose proof (Forall_lookup_1 _ _ _ _ Hrows Hx) as H3. simpl in H3.
    apply (Forall_lookup_1 _ _ _ _ H3 Hr). }
  apply zipM_err.
  - destruct Ht as [Ht _]. destruct Hiv as [Hiv _]. lia.
  - intros j x y Hx Hy. destruct (Hrow j x y Hx Hy) as [Hl _].
    apply zipM_cases; [done|]. intros c r p _ _. apply tset_cases.
  - destruct (cell_bounds _ _ _ _ _ _ Hidx Hi) as [Hb Hk].
    destruct (sh2_cell _ _ _ b k Hvals Hb Hk) as [v Hv].
    assert (Hp : cell iv b k = Some (i, v)).
    { unfold iv. by rewrite cell_zip_with, Hi, Hv. }
    apply cell_Some in Hp as (y & Hy & Hp).
    destruct (lookup_lt_is_Some_2 t b) as [x Hx].
    { destruct Ht as [Ht _]. lia. }
    exists b, x, y. split; [done|]. split; [done|].
    destruct (Hrow b x y Hx Hy) as [Hl Hlen].
    apply zipM_err; [done| |].
    + intros c r p _ _. apply tset_cases.
    + destruct (lookup_lt_is_Some_2 x k) as [r Hr].
      { apply lookup_lt_Some in Hp. lia. }
      exists k, r, (i, v). split; [done|]. split; [done|].
      apply tset_too_large. cbn. rewrite (Hlen k r (i, v) Hr Hp). done.
Qed.

(** X15. [append_labels] grows the rows at most once per call.  When the
    full length of some beam, with its blanks and the new label, exceeds
    twice the capacity, the call on a well-formed buffer with arguments of
    the right shape raises [IndexError]: the write of the label into the
    full transcript lies beyond the doubled row. *)
Theorem append_labels_overflow (s : BeamBatchedHyps.t)
    (labels : list (list Z)) (label_logps blank_logps : list (list Qc))
    (per_blank : list (list (list Qc))) (nb : list (list Z)) :
  let B := Z.to_nat (batch_size s) in
  let K := Z.to_nat (beam_size s) in
  beam_wf s -> 0 < beam_size s ->
  sh2 B K labels -> sh2 B K label_logps -> sh2 B K blank_logps ->
  sh2 B K nb -> nonneg2 nb ->
  (exists (b k : nat) (f m : Z),
     cell (_full_current_lengths s) b k = Some f /\
     cell nb b k = Some m /\ 2 * _max_length s < f + m + 1) ->
  append_labels s labels label_logps blank_logps per_blank nb
  = Err IndexError.
Proof.
  intros B K Hwf HK Hlab Hll Hbl Hnb Hnn (b0 & k0 & f0 & m0 & Hf0 & Hm0 & Hbig).
  pose proof Hwf as ((HL & HB & _ & _) & _
    & (Hcl0 & _ & _ & _ & _ & _ & Hfl0 & _) & _ & (Hcur0 & _ & _)).
  fold B K in Hcl0, Hfl0.
  set (fl := zip_with (zip_with (fun f n => f + n + 1))
               (_full_current_lengths s) nb).
  assert (Hfl : sh2 B K fl) by (by apply sh2_zip_with).
  destruct (tensor_max_ok (concat fl)) as (m & Hmeq & Hmax & _).
  { apply (concat_nonempty B K); [done|unfold B; lia|unfold K; lia]. }
  assert (Hm : m > _max_length s - 1).
  { assert (Hc : cell fl b0 k0 = Some (f0 + m0 + 1)).
    { unfold fl. by rewrite cell_zip_with, Hf0, Hm0. }
    apply cell_elem_of_concat in Hc.
    rewrite Forall_forall in Hmax. specialize (Hmax _ Hc). simpl in Hmax.
    lia. }
  destruct (allocate_more_grown s Hwf) as [G Hwf1].
  unfold append_labels. cbv zeta.
  rewrite (zip_same2_ok (fun f n => f + n + 1) (_full_current_lengths s) nb)
    by (by eapply sh2_same).
  ok. fold fl. rewrite Hmeq. ok.
  rewrite (decide_True (P := m > _max_length s - 1)) by done.
  set (s1 := _allocate_more s) in *.
  destruct G as ((GL & GB & GK & _) & (Gcl & _ & _ & _ & _ & _ & Gfl & _) & _).
  destruct Hwf1 as (_ & _
    & (Hcl & Hsc & Hlt & Hlasts & Hls & Hbs & Hfl1 & Hrep)
    & (Htr & Hts & Hte & Hto & Htk & Hft & Hftr) & _).
  rewrite GB, GK in *. fold B K in Hcl, Hsc, Hlt, Hls, Hbs, Hfl1, Hrep,
    Htr, Hts, Hte, Hto, Htk, Hft, Hftr |- *.
  set (L1 := _max_length s1) in *.
  assert (HL1 : L1 = 2 * _max_length s) by lia.
  rewrite decide_True; cycle 1.
  { split; [|split; [|split]]; (apply has_shape2_sh2; [lia | lia | done]). }
  set (cl := add_scalar2 1 (current_lengths s)).
  assert (Hcl' : sh2 B K cl) by (by apply sh2_add_scalar2).
  assert (Hn : forall b k n, cell (current_lengths s) b k = Some n ->
            0 <= n <= _max_length s).
  { intros b k n Hn.
    destruct (cell_bounds _ _ _ _ _ _ Hcl0 Hn) as [Hb Hk].
    destruct (sh2_cell _ _ _ b k Hfl0 Hb Hk) as [f Hf].
    apply Forall2_cells in Hcur0 as [_ Hcur0].
    pose proof (Hcur0 _ _ _ _ Hn Hf). simpl in *. lia. }
  assert (Hidx_c : forall b k i, cell (add_scalar2 (-1) cl) b k = Some i ->
            0 <= i < L1).
  { intros b k i. unfold cl. rewrite !cell_add_scalar2.
    destruct (cell (current_lengths s) b k) as [n|] eqn:En; [|done].
    intros [= <-]. pose proof (Hn b k n En). lia. }
  assert (Hidx_p : forall b k i, cell (add_scalar2 (-2) cl) b k = Some i ->
            - L1 <= i < L1).
  { intros b k i. unfold cl. rewrite !cell_add_scalar2.
    destruct (cell (current_lengths s) b k) as [n|] eqn:En; [|done].
    intros [= <-]. pose proof (Hn b k n En). lia. }
  assert (Sc : sh2 B K (add_scalar2 (-1) cl)) by (by apply sh2_add_scalar2).
  assert (Sp : sh2 B K (add_scalar2 (-2) cl)) by (by apply sh2_add_scalar2).
  assert (Sf : sh2 B K (add_scalar2 (-1) fl)) by (by apply sh2_add_scalar2).
  rewrite (put_last_sh3 B K L1 (transcripts s1) (add_scalar2 (-1) cl) labels
             Htr Sc Hlab Hidx_c).
  ok.
  rewrite (zip_same2_ok _ (_label_scores s1)) by (by eapply sh2_same). ok.
  rewrite (zip_same2_ok _ (_blank_scores s1)) by (by eapply sh2_same). ok.
  unfold _calculate_score.
  rewrite (zip_same2_ok _ label_logps) by (by eapply sh2_same). ok.
  set (sum := zip_with (zip_with Qcplus) label_logps blank_logps).
  assert (Ssum : sh2 B K sum) by (by apply sh2_zip_with).
  rewrite (zip_same2_ok _ sum) by (by eapply sh2_same). ok.
  set (score := zip_with (zip_with (fun x n => (x / Qc_of_Z n)%Qc)) sum fl).
  assert (Sscore : sh2 B K score) by (by apply sh2_zip_with).
  rewrite (zip_same2_ok _ (scores s1)) by (by eapply sh2_same). ok.
  rewrite (get_last_sh3 0 B K L1 (timesteps_end s1) (add_scalar2 (-2) cl)
             Hte Sp Hidx_p).
  ok.
  set (prev_end := zip_with (zip_with (row_at 0)) (timesteps_end s1)
                     (add_scalar2 (-2) cl)).
  assert (Sprev : sh2 B K prev_end) by (apply sh2_zip_with; [apply Hte|done]).
  rewrite (put_last_sh3 B K L1 (timesteps s1) (add_scalar2 (-1) cl) prev_end
             Hts Sc Sprev Hidx_c).
  ok.
  rewrite (zip_same2_ok _ prev_end) by (by eapply sh2_same). ok.
  set (new_end := zip_with (zip_with Z.add) prev_end nb).
  assert (Snew : sh2 B K new_end) by (by apply sh2_zip_with).
  rewrite (put_last_sh3 B K L1 (timesteps_end s1) (add_scalar2 (-1) cl)
             new_end Hte Sc Snew Hidx_c).
  ok.
  rewrite (put_last_overflow B K L1 (_full_transcripts s1)
             (add_scalar2 (-1) fl) labels Hftr Sf Hlab); [done|].
  exists b0, k0, (f0 + m0). split; [|lia].
  unfold fl. rewrite cell_add_scalar2, cell_zip_with, Hf0, Hm0.
  cbn [mbind option_bind fmap option_fmap option_map]. f_equal. lia.
Qed.

End beam_overflow.

(** * The theorems at concrete inputs *)

Lemma select_k_expansions_spec_witness :
  exists r,
    select_k_expansions Qcplus Qcminus demo_expand_hyps demo_topk_idxs
      demo_topk_logps (Q2Qc (1 # 4)) 0 = Ok r /\
    length r = length demo_expand_hyps /\
    forall (i : nat) h idxs logps,
      demo_expand_hyps !! i = Some h -> demo_topk_idxs !! i = Some idxs ->
      demo_topk_logps !! i = Some logps ->
      exists e best,
        r !! i = Some e /\ e <> [] /\
        first_max_snd best (candidates Qcplus h idxs logps) /\
        StronglySorted (fun a b : Z * Qc => (a.2 <= b.2)%Qc) e /\
        ((best.2 - Q2Qc (1 # 4) <= best.2)%Qc ->
         e ≡ₚ filter (fun x : Z * Qc => (best.2 - Q2Qc (1 # 4) <= x.2)%Qc)
                (candidates Qcplus h idxs logps) /\
         (forall q : Qc,
            filter (fun y : Z * Qc => y.2 = q) e
            = filter (fun y : Z * Qc => y.2 = q)
                (filter (fun x : Z * Qc => (best.2 - Q2Qc (1 # 4) <= x.2)%Qc)
                   (candidates Qcplus h idxs logps))) /\
         exists x, last e = Some x /\ x.2 = best.2) /\
        ((best.2 < best.2 - Q2Qc (1 # 4))%Qc ->
         filter (fun x : Z * Qc => (best.2 - Q2Qc (1 # 4) <= x.2)%Qc)
           (candidates Qcplus h idxs logps) = [] /\
         e = [best]).
Proof.
  apply (select_k_expansions_spec Qcplus Qcminus demo_expand_hyps
           demo_topk_idxs demo_topk_logps (Q2Qc (1 # 4)) 0).
  intros i Hi. destruct i as [|[|i]].
  - eexists _, _. repeat split; try reflexivity; discriminate.
  - eexists _, _. repeat split; try reflexivity; discriminate.
  - simpl in Hi. lia.
Defined.

Lemma select_k_expansions_errors_witness :
  select_k_expansions Qcplus Qcminus demo_expand_hyps [[1; 2; 3]]
    demo_topk_logps (Q2Qc (1 # 4)) 0 = Err IndexError.
Proof.
  apply (select_k_expansions_errors Qcplus Qcminus demo_expand_hyps
           [[1; 2; 3]] demo_topk_logps (Q2Qc (1 # 4)) 0 1
           (Hypothesis_new (Q2Qc 0) [] [])).
  - reflexivity.
  - intros j Hj. destruct j as [|j]; [|lia].
    eexists _, _. repeat split; try reflexivity; discriminate.
Defined.

Lemma clear_is_fresh_witness :
  BatchedHyps.init (Z.of_nat 1) (BatchedHyps._max_length demo_hyps)
  = Ok (BatchedHyps.clear_ demo_hyps).
Proof.
  apply (clear_is_fresh 1 demo_hyps).
  - apply (bool_decide_unpack _). vm_compute. exact I.
  - lia.
  - reflexivity.
Defined.

Lemma index_run_log_witness :
  exists s',
    (s ← BatchedHyps.init 2 1; run call_index s demo_index_calls) = Ok s' /\
    forall b, (b < Z.to_nat 2)%nat ->
      exists it, item_of s' b = Some it /\
        it_labels it
          = (fun u : Z * Z * Qc => u.1.1)
              <$> updates_of index_update demo_index_calls b /\
        it_timesteps it
          = (fun u : Z * Z * Qc => u.1.2)
              <$> updates_of index_update demo_index_calls b /\
        it_score it = total_score (updates_of index_update demo_index_calls b) /\
        it_length it
          = Z.of_nat (length (updates_of index_update demo_index_calls b)).
Proof.
  apply (index_run_log 2 1 demo_index_calls); [lia | lia |].
  apply (bool_decide_unpack _). vm_compute. exact I.
Defined.

Lemma mask_run_repeat_counter_witness :
  exists s',
    (s ← BatchedHyps.init 2 3; run call_mask s demo_mask_calls) = Ok s' /\
    forall b, (b < Z.to_nat 2)%nat ->
      exists it, item_of s' b = Some it /\
        it_timesteps it
          = (fun u : Z * Z * Qc => u.1.2)
              <$> updates_of mask_update demo_mask_calls b /\
        it_last_timestep it = default (-1) (last (it_timesteps it)) /\
        it_last_timestep_lasts it
          = Z.of_nat (count_leading (it_last_timestep it)
                        (reverse (it_timesteps it))).
Proof.
  apply (mask_run_repeat_counter 2 3 demo_mask_calls); [lia | lia |].
  apply (bool_decide_unpack _). vm_compute. exact I.
Defined.

Lemma index_run_capacity_witness :
  exists s',
    (s ← BatchedHyps.init 1 1; run call_index s demo_appends) = Ok s' /\
    (exists k : nat, BatchedHyps._max_length s' = 1 * 2 ^ Z.of_nat k) /\
    Forall (fun n => 0 <= n <= BatchedHyps._max_length s')
      (BatchedHyps.current_lengths s') /\
    exists n, n ∈ BatchedHyps.current_lengths s' /\
      BatchedHyps._max_length s' <= Z.max 1 (2 * n).
Proof.
  apply (index_run_capacity 1 1 demo_appends); [lia | lia |].
  apply (bool_decide_unpack _). vm_compute. exact I.
Defined.

Lemma masked_no_checks_full_row_witness :
  BatchedHyps.add_results_masked_no_checks_ demo_full_hyps [true; false]
    [3; 4] [0; 0] [Q2Qc (-1 # 2); Q2Qc 1] = Err IndexError.
Proof.
  apply (masked_no_checks_full_row 2 demo_full_hyps
           (MaskCall [true; false] [3; 4] [0; 0] [Q2Qc (-1 # 2); Q2Qc 1])).
  - apply (bool_decide_unpack _). vm_compute. exact I.
  - apply (bool_decide_unpack _). vm_compute. exact I.
  - apply (bool_decide_unpack _). vm_compute. exact I.
Defined.

Lemma alignments_add_results_records_witness :
  exists s',
    BatchedAlignments.add_results_ demo_wide_alignments [0]
      (fa_time_indices demo_frame) (fa_logits demo_frame)
      (fa_labels demo_frame) (fa_confidence demo_frame) = Ok s' /\
    al_wf 1 s' /\
    forall b, (b < 1)%nat ->
      frame_appended (fun A vals => index_frame [0] vals b)
        demo_wide_alignments s' demo_frame b.
Proof.
  apply (alignments_add_results_records 1 demo_wide_alignments [0]
           demo_frame).
  - apply (bool_decide_unpack _). vm_compute. exact I.
  - apply (bool_decide_unpack _). vm_compute. exact I.
  - apply (bool_decide_unpack _). vm_compute. exact I.
  - apply (bool_decide_unpack _). vm_compute. exact I.
  - apply (bool_decide_unpack _). vm_compute. exact I.
Defined.

Lemma alignments_add_results_masked_records_witness :
  exists s',
    BatchedAlignments.add_results_masked_ demo_alignments [true]
      (fa_time_indices demo_frame) (fa_logits demo_frame)
      (fa_labels demo_frame) (fa_confidence demo_frame) = Ok s' /\
    al_inv 1 s' /\
    forall b, (b < 1)%nat ->
      frame_appended (fun A vals => mask_frame [true] vals b)
        demo_alignments s' demo_frame b.
Proof.
  apply (alignments_add_results_masked_records 1 demo_alignments [true]
           demo_frame).
  - apply (bool_decide_unpack _). vm_compute. exact I.
  - lia.
  - reflexivity.
  - apply (bool_decide_unpack _). vm_compute. exact I.
  - apply (bool_decide_unpack _). vm_compute. exact I.
Defined.

Lemma alignments_run_records_witness :
  exists s, al_run demo_fresh_alignments demo_frame_calls = Ok s /\
    al_wf 1 s /\
    forall b, (b < 1)%nat ->
      recorded (BatchedAlignments.timesteps s)
        (BatchedAlignments.current_lengths s) b
      = Some (frames_of demo_frame_calls b) /\
      BatchedAlignments.current_lengths s !! b
      = Some (Z.of_nat (length (frames_of demo_frame_calls b))).
Proof.
  apply (alignments_run_records 1 demo_fresh_alignments demo_frame_calls).
  - left. exists 1, 2, true, false, false. reflexivity.
  - apply (bool_decide_unpack _). vm_compute. exact I.
Defined.

Section beam_examples.

Import BeamBatchedHyps.


Lemma append_labels_overflow_witness :
  append_labels demo_beam0 [[3]] [[Q2Qc (-1 # 2)]] [[Q2Qc (-1 # 10)]]
    [[[]]] [[8]] = Err IndexError.
Proof.
  apply (append_labels_overflow demo_beam0 [[3]] [[Q2Qc (-1 # 2)]]
           [[Q2Qc (-1 # 10)]] [[[]]] [[8]]).
  - apply (bool_decide_unpack _). vm_compute. exact I.
  - reflexivity.
  - apply (bool_decide_unpack _). vm_compute. exact I.
  - apply (bool_decide_unpack _). vm_compute. exact I.
  - apply (bool_decide_unpack _). vm_compute. exact I.
  - apply (bool_decide_unpack _). vm_compute. exact I.
  - apply (bool_decide_unpack _). vm_compute. exact I.
  - exists 0%nat, 0%nat, 0, 8. split; [reflexivity|]. split; [reflexivity|].
    reflexivity.
Defined.

End beam_examples.
